(** * A data explorer for tables: the filter, sort and pagination engines

    The development follows [src/milestone_3.py] and [src/milestone_4.py]:
    the condition parser, the mask evaluator, [run_filter], [run_sort] and
    the [Pager].  Python strings are strings of code points below 256, Python
    integers are [Z].  What the program takes from its libraries (the regular
    expression engine, the rounding functions of binary floating point, and
    pandas' own number parser) enters as an interface, so that every theorem
    holds for each implementation of it. *)

From Stdlib Require Import ZArith QArith Ascii String List Bool Lia DecimalString.
From Stdlib Require Import Sorted Permutation.
From stdpp Require Import base strings list gmap.
Import ListNotations.

Close Scope Q_scope.
Local Open Scope Z_scope.
Local Open Scope string_scope.
Local Open Scope list_scope.

(** ** Python strings *)

Module PyStr.

Definition code (c : ascii) : N := N_of_ascii c.

(** [str.isspace] on one character (code points below 256). *)
Definition isspace (c : ascii) : bool :=
  let n := code c in
  ((9 <=? n) && (n <=? 13) || (28 <=? n) && (n <=? 32)
   || (n =? 133) || (n =? 160))%N.

(** [str.lower] on one character. *)
Definition lower_char (c : ascii) : ascii :=
  let n := code c in
  if ((65 <=? n) && (n <=? 90)
      || (192 <=? n) && (n <=? 222) && negb (n =? 215))%N
  then ascii_of_N (n + 32) else c.

Fixpoint lower (s : string) : string :=
  match s with
  | EmptyString => EmptyString
  | String c s' => String (lower_char c) (lower s')
  end.

Fixpoint lstrip (s : string) : string :=
  match s with
  | EmptyString => EmptyString
  | String c s' => if isspace c then lstrip s' else s
  end.

Fixpoint rstrip (s : string) : string :=
  match s with
  | EmptyString => EmptyString
  | String c s' =>
      match rstrip s' with
      | EmptyString => if isspace c then EmptyString else String c EmptyString
      | r => String c r
      end
  end.

(** [s.strip()] *)
Definition strip (s : string) : string := rstrip (lstrip s).

(** [s.startswith(p)] *)
Fixpoint startswith (p s : string) : bool :=
  match p, s with
  | EmptyString, _ => true
  | String a p', String b s' => Ascii.eqb a b && startswith p' s'
  | String _ _, EmptyString => false
  end.

(** [p in s] *)
Fixpoint contains (p s : string) : bool :=
  startswith p s ||
  match s with
  | EmptyString => false
  | String _ s' => contains p s'
  end.

Fixpoint drop_chars (n : nat) (s : string) : string :=
  match n, s with
  | O, _ => s
  | S n', String _ s' => drop_chars n' s'
  | S _, EmptyString => EmptyString
  end.

(** [s.split(sep, 1)] when [sep in s]: the text before and after the first
    occurrence of [sep]; [None] when [sep] does not occur. *)
Fixpoint split_once (sep s : string) : option (string * string) :=
  if startswith sep s then Some (EmptyString, drop_chars (String.length sep) s)
  else match s with
       | EmptyString => None
       | String c s' =>
           match split_once sep s' with
           | Some (l, r) => Some (String c l, r)
           | None => None
           end
       end.

(** [s.split(",")]: never empty, one more piece than there are commas. *)
Fixpoint split_comma (s : string) : list string :=
  match s with
  | EmptyString => [EmptyString]
  | String c s' =>
      if Ascii.eqb c "," then EmptyString :: split_comma s'
      else match split_comma s' with
           | h :: t => String c h :: t
           | [] => [String c EmptyString]
           end
  end.

Definition is_empty (s : string) : bool :=
  match s with EmptyString => true | _ => false end.

(** The pieces of a comma-separated expression, stripped, the empty ones
    dropped: [[t.strip() for t in expr.split(",") if t.strip()]]. *)
Definition tokens (expr : string) : list string :=
  List.filter (fun t => negb (is_empty t)) (List.map strip (split_comma expr)).

Definition ascii_digit (c : ascii) : option Z :=
  let n := code c in
  if ((48 <=? n) && (n <=? 57))%N then Some (Z.of_N n - 48) else None.

(** [str.isdigit]: the decimal digits, and the superscripts one, two and
    three, which are digits for [isdigit] and not for [int]. *)
Definition isdigit_char (c : ascii) : bool :=
  let n := code c in
  ((48 <=? n) && (n <=? 57) || (n =? 178) || (n =? 179) || (n =? 185))%N.

Fixpoint all_chars (p : ascii -> bool) (s : string) : bool :=
  match s with
  | EmptyString => true
  | String c s' => p c && all_chars p s'
  end.

Definition isdigit (s : string) : bool :=
  negb (is_empty s) && all_chars isdigit_char s.

(** The digits of an integer literal: groups of digits, single underscores
    between them. [after_digit] tells that the previous character was a
    digit. *)
Fixpoint int_digits (acc : Z) (after_digit : bool) (s : string) : option Z :=
  match s with
  | EmptyString => if after_digit then Some acc else None
  | String c s' =>
      match ascii_digit c with
      | Some d => int_digits (10 * acc + d) true s'
      | None =>
          if Ascii.eqb c "_" && after_digit then int_digits acc false s'
          else None
      end
  end.

(** The blanks that [int] skips around a literal: those of [str.isspace]
    but the four separators 28 to 31. *)
Definition int_space (c : ascii) : bool :=
  let n := code c in
  ((9 <=? n) && (n <=? 13) || (n =? 32) || (n =? 133) || (n =? 160))%N.

Fixpoint int_lstrip (s : string) : string :=
  match s with
  | EmptyString => EmptyString
  | String c s' => if int_space c then int_lstrip s' else s
  end.

Fixpoint int_rstrip (s : string) : string :=
  match s with
  | EmptyString => EmptyString
  | String c s' =>
      match int_rstrip s' with
      | EmptyString => if int_space c then EmptyString else String c EmptyString
      | r => String c r
      end
  end.

(** The number of digits of a literal, the underscores not counted. *)
Fixpoint count_digits (s : string) : Z :=
  match s with
  | EmptyString => 0
  | String c s' =>
      match ascii_digit c with
      | Some _ => 1 + count_digits s'
      | None => count_digits s'
      end
  end.

(** [sys.get_int_max_str_digits()], as it is set when the interpreter
    starts. *)
Definition max_str_digits : Z := 4300.

(** The literal without its sign, when it has no more digits than [int]
    converts. *)
Definition int_literal (d : string) : option Z :=
  if Z.ltb max_str_digits (count_digits d) then None else int_digits 0 false d.

(** [int(s)] on a string: [None] stands for [ValueError]. *)
Definition py_int (s : string) : option Z :=
  match int_rstrip (int_lstrip s) with
  | String "-" d => option_map Z.opp (int_literal d)
  | String "+" d => int_literal d
  | d => int_literal d
  end.

(** [str(n)] for an integer. *)
Definition str_of_int (z : Z) : string :=
  DecimalString.NilZero.string_of_int (Z.to_int z).

(** Order of strings, code point by code point. *)
Definition str_cmp (a b : string) : comparison := String.compare a b.

End PyStr.

Import PyStr.

(** ** What the program takes from its libraries *)

(** A binary floating-point value by the number it denotes.  Comparisons of
    floats are comparisons of these numbers; which numbers a conversion or a
    parse rounds to is left to the interface below. *)
Inductive float64 :=
| FNaN
| FInf (negative : bool)
| FFin (q : Q).

(** A number as pandas holds it in a numeric column: [int64] or [float64]. *)
Inductive num :=
| NInt (z : Z)
| NFloat (f : float64).

(** The numeric functions of Python and pandas. *)
Class PyNumerics := {
  (** [float(n)] for an integer [n], as numpy converts an [int64] *)
  float_of_int : Z -> float64;
  (** [float(s)] for a string; [None] is [ValueError] *)
  py_float : string -> option float64;
  (** [str(x)] for a float *)
  float_repr : float64 -> string;
  (** what [pd.to_numeric] reads in a string cell; [None] when it reads no
      number (the cell is coerced to NaN) *)
  pd_parse_number : string -> option num
}.

(** The characters that are operators of the pattern language of [re]. *)
Definition re_special (c : ascii) : bool :=
  existsb (Ascii.eqb c)
    ["."; "^"; "$"; "*"; "+"; "?"; "{"; "}"; "["; "]"; "\"; "|"; "("; ")"]%char.

Definition plain_pattern (pat : string) : bool :=
  all_chars (fun c => negb (re_special c)) pat.

(** The regular expression engine, as [Series.str.contains(pat, case=False)]
    uses it: [rx = re.compile(pat, re.IGNORECASE)], which raises [re.error]
    on a pattern that does not compile, then [rx.search(s) is not None] on
    each string. *)
Class PyRegex := {
  re_compiles : string -> bool;
  re_search_icase : string -> string -> bool;
  (** a pattern without operators compiles, and is searched as it is
      written, letter case aside *)
  re_plain_compiles : forall pat, plain_pattern pat = true -> re_compiles pat = true;
  re_plain : forall pat s, plain_pattern pat = true ->
    re_search_icase pat s = contains (lower pat) (lower s);
  (** the pattern [.] compiles, and matches at a first character that is
      not a newline *)
  re_dot_compiles : re_compiles "." = true;
  re_dot : forall c s, c <> "010"%char -> re_search_icase "." (String c s) = true
}.

(** ** Exceptions *)

(** What an exception reports.  The two programs word their messages
    differently; the wording is no part of the model. *)
Inductive failure :=
| MissingColumn                 (* "Missing column", "Missing column name in condition." *)
| MissingValue                  (* "Missing value", "Missing value in condition." *)
| InvalidCondition (tok : string)  (* "Bad condition: ...", "Invalid condition: ..." *)
| EmptyFilter                   (* "Filter expression is empty." *)
| EmptySort                     (* "Sort expression is empty.", "Usage: sort ..." *)
| InvalidOrder                  (* "Order must be asc/desc" *)
| UnknownColumn (col_raw : string) (available : list string)
                                (* "Unknown column '...'. Use: ..." *)
| UnknownOperator (op : string) (* "Unsupported operator: ...", a missing key of [ops] *)
| NoSuchLabel (col : string)    (* a label that is no column of the table *)
| InvalidLiteral (s : string).  (* "invalid literal for int() ..." *)

Inductive exn :=
| ValueError (what : failure)
| KeyError (what : failure)
| IndexError
| TypeError
| ReError.

Inductive result (A : Type) :=
| Ok (a : A)
| Raise (e : exn).
Arguments Ok {A} a.
Arguments Raise {A} e.

Definition bind {A B} (r : result A) (k : A -> result B) : result B :=
  match r with
  | Ok a => k a
  | Raise e => Raise e
  end.

Notation "'let*' x ':=' r 'in' k" := (bind r (fun x => k))
  (at level 10, x pattern, r at level 100, k at level 200).

(** ** Python objects and pandas tables *)

(** The scalars of a table and of a condition: [None], [bool], [int], [float]
    (NaN among them) and [str]. *)
Inductive obj :=
| PNone
| PBool (b : bool)
| PInt (z : Z)
| PFloat (f : float64)
| PStr (s : string).

Inductive dtype := Int64 | Float64 | BoolDtype | ObjectDtype.

(** A column taken out of a table: its dtype and its cells in row order. *)
Record Series := { s_dtype : dtype; values : list obj }.

(** A table: the columns in display order, each with its dtype, and the rows,
    each a list of cells in column order.  In a column of dtype [Int64] the
    cells are [PInt], in one of dtype [Float64] they are [PFloat], in one of
    dtype [BoolDtype] they are [PBool]; an [ObjectDtype] column holds any
    object, strings and missing values as a rule. *)
Record DataFrame := { schema : list (string * dtype); rows : list (list obj) }.

Definition columns (df : DataFrame) : list string := List.map fst (schema df).

(** [len(df)] *)
Definition len (df : DataFrame) : nat := List.length (rows df).

Fixpoint column_index (col : string) (sch : list (string * dtype)) : option (nat * dtype) :=
  match sch with
  | [] => None
  | (c, d) :: t =>
      if String.eqb c col then Some (O, d)
      else match column_index col t with
           | Some (j, d') => Some (S j, d')
           | None => None
           end
  end.

Definition cell (j : nat) (row : list obj) : obj := List.nth j row PNone.

(** [df[col]] *)
Definition getitem (df : DataFrame) (col : string) : result Series :=
  match column_index col (schema df) with
  | Some (j, d) => Ok {| s_dtype := d; values := List.map (cell j) (rows df) |}
  | None => Raise (KeyError (NoSuchLabel col))
  end.

(** [df[mask]] and [mask &= other] *)
Fixpoint keep {A} (mask : list bool) (l : list A) : list A :=
  match mask, l with
  | b :: m, x :: t => if b then x :: keep m t else keep m t
  | _, _ => []
  end.

Definition select_rows (df : DataFrame) (mask : list bool) : DataFrame :=
  {| schema := schema df; rows := keep mask (rows df) |}.

(** [df[labels]] for an empty list of column labels: the table without its
    columns. *)
Definition no_columns (df : DataFrame) : DataFrame :=
  {| schema := []; rows := List.map (fun _ => []) (rows df) |}.

(** [df[mask]] for a Series [mask]: a Series of booleans selects the rows
    where it holds; a Series of another dtype is read as a list of column
    labels, and the only one that occurs is empty. *)
Definition getitem_mask (df : DataFrame) (boolean : bool) (mask : list bool) : DataFrame :=
  if boolean then select_rows df mask else no_columns df.

Fixpoint mask_and (a b : list bool) : list bool :=
  match a, b with
  | x :: a', y :: b' => (x && y) :: mask_and a' b'
  | _, _ => []
  end.

(** [df.take(indexer)] *)
Definition take_rows (df : DataFrame) (indexer : list nat) : DataFrame :=
  {| schema := schema df;
     rows := List.map (fun i => List.nth i (rows df) []) indexer |}.

(** [pd.api.types.is_numeric_dtype] *)
Definition is_numeric_dtype (d : dtype) : bool :=
  match d with ObjectDtype => false | _ => true end.

Definition isna (o : obj) : bool :=
  match o with PNone | PFloat FNaN => true | _ => false end.

Definition Z_of_bool (b : bool) : Z := if b then 1 else 0.

(** Order of two floats; [None] when one of them is NaN. *)
Definition float_cmp (a b : float64) : option comparison :=
  match a, b with
  | FNaN, _ | _, FNaN => None
  | FFin p, FFin q => Some (p ?= q)%Q
  | FInf true, FInf true | FInf false, FInf false => Some Eq
  | FInf true, _ | _, FInf false => Some Lt
  | FInf false, _ | _, FInf true => Some Gt
  end.

(** The six comparison operators on the outcome of an order test. With NaN
    on a side only [!=] holds. *)
Definition is_comparison (op : string) : bool :=
  existsb (String.eqb op) ["=="; "!="; ">"; ">="; "<"; "<="].

Definition cmp_holds (op : string) (c : option comparison) : bool :=
  if String.eqb op "==" then match c with Some Eq => true | _ => false end
  else if String.eqb op "!=" then match c with Some Eq => false | _ => true end
  else if String.eqb op ">" then match c with Some Gt => true | _ => false end
  else if String.eqb op ">=" then match c with Some Gt | Some Eq => true | _ => false end
  else if String.eqb op "<" then match c with Some Lt => true | _ => false end
  else if String.eqb op "<=" then match c with Some Lt | Some Eq => true | _ => false end
  else false.

Section Pandas.
Context {NUM : PyNumerics} {RE : PyRegex}.

(** [str(o)] *)
Definition py_str (o : obj) : string :=
  match o with
  | PNone => "None"
  | PBool true => "True"
  | PBool false => "False"
  | PInt z => str_of_int z
  | PFloat f => float_repr f
  | PStr s => s
  end.

(** [s.astype(str)] (pandas 1 and 2): every cell goes through [str], the
    missing ones too, so that no cell of the result is missing. *)
Definition astype_str (s : Series) : list obj :=
  List.map (fun o => PStr (py_str o)) (values s).

(** [.str.contains(pat, case=False, na=na)]: the pattern is compiled as a
    regular expression; a cell that is not a string gets [na]. *)
Definition str_contains (cells : list obj) (pat : string) (na : bool) : result (list bool) :=
  if re_compiles pat then
    Ok (List.map (fun o => match o with
                           | PStr x => re_search_icase pat x
                           | _ => na
                           end) cells)
  else Raise ReError.

Definition to_float (n : num) : float64 :=
  match n with NInt z => float_of_int z | NFloat f => f end.

Definition is_int (n : num) : bool :=
  match n with NInt _ => true | NFloat _ => false end.

(** One cell under [pd.to_numeric(_, errors="coerce")]: a number stays, a
    string is parsed, whatever is no number becomes NaN. *)
Definition to_numeric_obj (o : obj) : num :=
  match o with
  | PNone => NFloat FNaN
  | PBool b => NInt (Z_of_bool b)
  | PInt z => NInt z
  | PFloat f => NFloat f
  | PStr s => match pd_parse_number s with Some n => n | None => NFloat FNaN end
  end.

(** [pd.to_numeric(s, errors="coerce")]: an [int64] array when every cell is
    an integer, else a [float64] array into which the integers are converted. *)
Definition to_numeric (cells : list obj) : list num :=
  let ns := List.map to_numeric_obj cells in
  if forallb is_int ns then ns else List.map (fun n => NFloat (to_float n)) ns.

(** The array of a column of numeric dtype: its cells are numbers already. *)
Definition numeric_values (s : Series) : list num :=
  List.map to_numeric_obj (values s).

(** Order of a cell of a numeric array and a number: exact on two
    integers, else in floating point. *)
Definition num_cmp (a b : num) : option comparison :=
  match a, b with
  | NInt x, NInt y => Some (Z.compare x y)
  | _, _ => float_cmp (to_float a) (to_float b)
  end.

(** [left OP right] for a numeric array and a scalar.  A missing scalar
    ([None], NaN) makes [!=] hold everywhere and the others nowhere; a string
    is equal to no number, and has no order with one. *)
Definition compare_numeric (op : string) (left_ : list num) (right_ : obj) : result (list bool) :=
  match right_ with
  | PNone => Ok (List.map (fun _ => cmp_holds op None) left_)
  | PBool b => Ok (List.map (fun x => cmp_holds op (num_cmp x (NInt (Z_of_bool b)))) left_)
  | PInt z => Ok (List.map (fun x => cmp_holds op (num_cmp x (NInt z))) left_)
  | PFloat f => Ok (List.map (fun x => cmp_holds op (num_cmp x (NFloat f))) left_)
  | PStr _ =>
      if String.eqb op "==" || String.eqb op "!=" then
        Ok (List.map (fun _ => cmp_holds op None) left_)
      else Raise TypeError
  end.

(** [left OP right] for the strings of [astype(str)] and a string. *)
Definition compare_text (op : string) (left_ : list obj) (right_ : string) : list bool :=
  List.map (fun o => cmp_holds op (Some (str_cmp (py_str o) right_))) left_.

End Pandas.

(** ** Sorting: [nargsort] and the stable sort under it *)

(** The sort value of a cell that is not missing, by the number or the text
    it denotes. *)
Inductive skey :=
| KNegInf
| KNum (q : Q)
| KPosInf
| KStr (s : string).

Definition sort_key (o : obj) : option skey :=
  match o with
  | PNone | PFloat FNaN => None
  | PBool b => Some (KNum (inject_Z (Z_of_bool b)))
  | PInt z => Some (KNum (inject_Z z))
  | PFloat (FInf true) => Some KNegInf
  | PFloat (FInf false) => Some KPosInf
  | PFloat (FFin q) => Some (KNum q)
  | PStr s => Some (KStr s)
  end.

Definition is_text (k : skey) : bool :=
  match k with KStr _ => true | _ => false end.

(** Python orders numbers among themselves and strings among themselves; a
    number and a string have no order ([TypeError]). *)
Definition comparable (ks : list skey) : bool :=
  forallb is_text ks || forallb (fun k => negb (is_text k)) ks.

(** [a <= b] on sort values; numbers are put before strings only to make the
    relation total, the sort never compares the two. *)
Definition skey_le (a b : skey) : bool :=
  match a, b with
  | KStr x, KStr y => match str_cmp x y with Gt => false | _ => true end
  | KStr _, _ => false
  | _, KStr _ => true
  | KNegInf, _ => true
  | _, KNegInf => false
  | _, KPosInf => true
  | KPosInf, _ => false
  | KNum p, KNum q => Qle_bool p q
  end.

Section StableSort.
Context {A : Type} (le : A -> A -> bool).

(** Merge of two sorted runs; on a tie the element of the left run goes
    first. *)
Fixpoint merge (l1 : list A) : list A -> list A :=
  fix merge_right (l2 : list A) : list A :=
    match l1, l2 with
    | [], _ => l2
    | _, [] => l1
    | a :: t1, b :: t2 =>
        if le a b then a :: merge t1 l2 else b :: merge_right t2
    end.

(** Merge sort on halves; [fuel] bounds the depth of the recursion, the
    length of the list is enough. *)
Fixpoint msort (fuel : nat) (l : list A) : list A :=
  match fuel with
  | O => l
  | S fuel' =>
      match l with
      | [] | [_] => l
      | _ :: _ :: _ =>
          let h := Nat.div2 (List.length l) in
          merge (msort fuel' (firstn h l)) (msort fuel' (skipn h l))
      end
  end.

(** [np.argsort(kind="mergesort")]: a stable sort. *)
Definition stable_sort (l : list A) : list A := msort (List.length l) l.

(** Each element is below all the elements after it. *)
Definition sorted_by (l : list A) : Prop :=
  StronglySorted (fun a b => le a b = true) l.

(** The elements that the order does not tell apart from [k]. *)
Definition tied (k x : A) : bool := le k x && le x k.

End StableSort.

(** The cells that are not missing, each with its position, and the
    positions of the missing ones: [idx[~mask]], [items[~mask]] and
    [np.nonzero(mask)[0]]. *)
Fixpoint non_nans (i : nat) (items : list obj) : list (nat * skey) :=
  match items with
  | [] => []
  | o :: t =>
      match sort_key o with
      | Some k => (i, k) :: non_nans (S i) t
      | None => non_nans (S i) t
      end
  end.

Fixpoint nan_idx (i : nat) (items : list obj) : list nat :=
  match items with
  | [] => []
  | o :: t =>
      match sort_key o with
      | Some _ => nan_idx (S i) t
      | None => i :: nan_idx (S i) t
      end
  end.

Definition key_le (a b : nat * skey) : bool := skey_le (snd a) (snd b).

(** [nargsort(items, kind="mergesort", ascending, na_position="last")] *)
Definition nargsort (items : list obj) (ascending : bool) : result (list nat) :=
  let present := non_nans 0 items in
  if comparable (List.map snd present) then
    let present := if ascending then present else List.rev present in
    let indexer := List.map fst (stable_sort key_le present) in
    let indexer := if ascending then indexer else List.rev indexer in
    Ok (indexer ++ nan_idx 0 items)
  else Raise TypeError.

(** Two cells have the same sort value: both are missing, or neither is and
    the order puts neither of them before the other. *)
Definition same_value (a b : obj) : bool :=
  match sort_key a, sort_key b with
  | None, None => true
  | Some x, Some y => tied skey_le x y
  | _, _ => false
  end.

(** The order of a sort in one direction. *)
Definition direction_le (ascending : bool) (a b : skey) : bool :=
  if ascending then skey_le a b else skey_le b a.

(** The direction that the tokens after the column ask for. *)
Definition descending (more : list string) : bool :=
  match more with
  | o :: _ => String.eqb (lower o) "desc"
  | [] => false
  end.

(** [df.sort_values(by=[col], ascending=ascending, kind="mergesort")] *)
Definition sort_values (df : DataFrame) (col : string) (ascending : bool) : result DataFrame :=
  let* s := getitem df col in
  let* indexer := nargsort (values s) ascending in
  Ok (take_rows df indexer).

(** ** Slices *)

(** A bound of a slice over [n] elements: a negative one counts from the
    end, and both are clipped to [0..n]. *)
Definition slice_bound (n b : Z) : Z :=
  if Z.ltb b 0 then Z.max 0 (b + n) else Z.min b n.

(** [l[a:b]] *)
Definition slice {A} (l : list A) (a b : Z) : list A :=
  let n := Z.of_nat (List.length l) in
  let lo := slice_bound n a in
  let hi := slice_bound n b in
  firstn (Z.to_nat (hi - lo)) (skipn (Z.to_nat lo) l).

(** [ceil(n / d)] for a positive [d]. *)
Definition ceil_div (n d : Z) : Z := - ((- n) / d).

(** [df.iloc[a:b]] *)
Definition iloc (df : DataFrame) (a b : Z) : DataFrame :=
  {| schema := schema df; rows := slice (rows df) a b |}.

(** ** The column index *)

(** [{c.lower(): c for c in df.columns}]: of two columns with the same
    lowercase name the later one stays. *)
Definition column_map (df : DataFrame) : gmap string string :=
  foldl (fun m c => <[lower c := c]> m) ∅ (columns df).

(** The operators in the order the parsers try them. *)
Definition OPS : list string := ["=="; "!="; ">="; "<="; ">"; "<"; "~"].

(** Where a condition is split: the first operator of [ops] that occurs in
    [tok], with the text before and after its first occurrence. *)
Fixpoint first_split (ops : list string) (tok : string) : option (string * string * string) :=
  match ops with
  | [] => None
  | op :: rest =>
      match split_once op tok with
      | Some (l, r) => Some (op, l, r)
      | None => first_split rest tok
      end
  end.

Definition quote : ascii := "'"%char.
Definition dquote : ascii := "034"%char.

Fixpoint last_char (s : string) : option ascii :=
  match s with
  | EmptyString => None
  | String c EmptyString => Some c
  | String _ s' => last_char s'
  end.

Fixpoint drop_last (s : string) : string :=
  match s with
  | EmptyString => EmptyString
  | String _ EmptyString => EmptyString
  | String c s' => String c (drop_last s')
  end.

(** A token of two characters or more whose first and last character are
    the same quote, single or double: what is between them, [s[1:-1]]. *)
Definition unquote (s : string) : option string :=
  match s with
  | String c (String _ _ as s') =>
      if (Ascii.eqb c quote || Ascii.eqb c dquote)
         && match last_char s' with Some d => Ascii.eqb c d | None => false end
      then Some (drop_last s') else None
  | _ => None
  end.

(** The characters that a condition or an expression is cut at. *)
Definition operator_char (c : ascii) : bool :=
  existsb (Ascii.eqb c) ["="; ">"; "<"; "~"; ","]%char.

(** A column name that a condition can spell: it is not empty, neither
    starts nor ends with a blank, and holds no character of an operator and
    no comma. *)
Definition spellable (col : string) : bool :=
  match col, last_char col with
  | String c _, Some d =>
      negb (isspace c) && negb (isspace d)
      && all_chars (fun c => negb (operator_char c)) col
  | _, _ => false
  end.

(** The loop of [run_filter] over the conditions: each one is parsed, its
    column is resolved through the column index, and its mask is combined
    with the masks before it.  [parse] and [apply] are the parser and the
    evaluator of the program at hand. *)
Section FilterLoop.
Context (parse : string -> result (string * string * obj))
        (apply : DataFrame -> string -> string -> obj -> result (list bool)).

Fixpoint filter_loop (df : DataFrame) (cmap : gmap string string)
    (toks : list string) (mask : list bool) : result (list bool) :=
  match toks with
  | [] => Ok mask
  | t :: rest =>
      let* cond := parse t in
      let '(col_raw, op, val) := cond in
      match cmap !! lower col_raw with
      | None => Raise (KeyError (UnknownColumn col_raw (columns df)))
      | Some col =>
          let* m := apply df col op val in
          filter_loop df cmap rest (mask_and mask m)
      end
  end.

End FilterLoop.

(** Whether the mask of [run_filter] is a Series of booleans when its loop
    ends.  [pd.Series([True] * len(df))] is one when the table has rows; of
    a table without rows it is an empty Series, whose dtype is [object].
    Each [mask &= ...] with the mask of a condition gives a Series of
    booleans. *)
Definition boolean_mask (df : DataFrame) (toks : list string) : bool :=
  List.fold_left (fun _ _ => true) toks (negb (Nat.eqb (len df) 0)).

(** ** [milestone_3.py] *)

Module M3.
Section WithLibraries.
Context {NUM : PyNumerics} {RE : PyRegex}.

(** [float(t) if "." in t else int(t)]; [None] is [ValueError]. *)
Definition parse_number (t : string) : option obj :=
  if contains "." t then option_map PFloat (py_float t)
  else option_map PInt (py_int t).

Definition coerce_value (text : string) : obj :=
  let t := strip text in
  match unquote t with
  | Some inner => PStr inner
  | None =>
      let low := lower t in
      if String.eqb low "none" || String.eqb low "null" then PNone
      else if String.eqb low "true" || String.eqb low "false" then PBool (String.eqb low "true")
      else match parse_number t with
           | Some v => v
           | None => PStr t
           end
  end.

(** The operators are tried in order; [split_once] answers both
    [op in token] and [token.split(op, 1)]. *)
Fixpoint parse_ops (ops : list string) (token : string) : result (string * string * obj) :=
  match ops with
  | [] => Raise (ValueError (InvalidCondition token))
  | op :: rest =>
      match split_once op token with
      | Some (l, r) =>
          let left_ := strip l in
          let right_ := strip r in
          if is_empty left_ then Raise (ValueError MissingColumn)
          else if negb (String.eqb op "~") && is_empty right_ then Raise (ValueError MissingValue)
          else Ok (left_, op, coerce_value right_)
      | None => parse_ops rest token
      end
  end.

Definition parse_condition (token : string) : result (string * string * obj) :=
  parse_ops ["=="; "!="; ">="; "<="; ">"; "<"; "~"] (strip token).

Definition apply_condition (df : DataFrame) (col op : string) (value : obj) : result (list bool) :=
  let* s := getitem df col in
  if String.eqb op "~" then str_contains (astype_str s) (py_str value) false
  else
    (* [pd.to_numeric] gives an array of numeric dtype, so [left] is numeric
       from here on *)
    let left_ := if is_numeric_dtype (s_dtype s) then numeric_values s
                 else to_numeric (values s) in
    let compare right_ :=
      if is_comparison op then compare_numeric op left_ right_
      else Raise (ValueError (UnknownOperator op)) in
    match value with
    | PStr text =>
        match parse_number text with
        | Some n => compare n
        | None =>
            (* comparing numeric column to non-numeric text: always False *)
            Ok (List.map (fun _ => false) (rows df))
        end
    | _ => compare value
    end.

Definition run_filter (df : DataFrame) (expr : string) : result DataFrame :=
  if is_empty (strip expr) then Raise (ValueError EmptyFilter)
  else
    let cmap := column_map df in
    let toks := tokens expr in
    let mask := List.map (fun _ => true) (rows df) in
    let* mask := filter_loop parse_condition apply_condition df cmap toks mask in
    Ok (getitem_mask df (boolean_mask df toks) mask).

Definition run_sort (df : DataFrame) (expr : string) : result DataFrame :=
  if is_empty (strip expr) then Raise (ValueError EmptySort)
  else
    match tokens expr with
    | [] => Raise IndexError
    | col_raw :: more =>
        let order := match more with o :: _ => lower o | [] => "asc" end in
        if negb (String.eqb order "asc" || String.eqb order "desc")
        then Raise (ValueError InvalidOrder)
        else
          let cmap := column_map df in
          match cmap !! lower col_raw with
          | None => Raise (KeyError (UnknownColumn col_raw (columns df)))
          | Some col => sort_values df col (String.eqb order "asc")
          end
    end.

End WithLibraries.
End M3.

(** ** [milestone_4.py] *)

Module M4.
Section WithLibraries.
Context {NUM : PyNumerics} {RE : PyRegex}.

(** [cmap(df)] *)
Definition cmap (df : DataFrame) : gmap string string := column_map df.

(** [float(s) if "." in s else int(s)]; [None] is the exception that the
    bare [except] catches. *)
Definition parse_number (s : string) : option obj :=
  if contains "." s then option_map PFloat (py_float s)
  else option_map PInt (py_int s).

Definition to_val (s : string) : obj :=
  let s := strip s in
  match unquote s with
  | Some inner => PStr inner
  | None =>
      let low := lower s in
      if String.eqb low "none" || String.eqb low "null" then PNone
      else if String.eqb low "true" || String.eqb low "false" then PBool (String.eqb low "true")
      else match parse_number s with
           | Some v => v
           | None => PStr s
           end
  end.

(** [for op in OPS: if op in tok: ...]; [split_once] answers both
    [op in tok] and [tok.split(op, 1)]. *)
Fixpoint parse_ops (ops : list string) (tok : string) : result (string * string * obj) :=
  match ops with
  | [] => Raise (ValueError (InvalidCondition tok))
  | op :: rest =>
      match split_once op tok with
      | Some (l, r) =>
          let L := strip l in
          let R := strip r in
          if is_empty L then Raise (ValueError MissingColumn)
          else if negb (String.eqb op "~") && String.eqb R "" then Raise (ValueError MissingValue)
          else Ok (L, op, to_val R)
      | None => parse_ops rest tok
      end
  end.

Definition parse_cond (tok : string) : result (string * string * obj) :=
  parse_ops OPS tok.

(** [isinstance(val, (int, float))]; a [bool] is an [int]. *)
Definition is_number (val : obj) : bool :=
  match val with PBool _ | PInt _ | PFloat _ => true | _ => false end.

Definition mask_for (df : DataFrame) (col op : string) (val : obj) : result (list bool) :=
  let* s := getitem df col in
  if String.eqb op "~" then str_contains (astype_str s) (py_str val) false
  else
    (* the six masks of [ops] are computed before [ops[op]] is looked up;
       none of them raises, a missing key does *)
    if is_number val then
      let left_ := if is_numeric_dtype (s_dtype s) then numeric_values s
                   else to_numeric (values s) in
      let* masks := compare_numeric op left_ val in
      if is_comparison op then Ok masks else Raise (KeyError (UnknownOperator op))
    else
      let left_ := astype_str s in
      let right_ := py_str val in
      if is_comparison op then Ok (compare_text op left_ right_)
      else Raise (KeyError (UnknownOperator op)).

Definition run_filter (df : DataFrame) (expr : string) : result DataFrame :=
  let toks := tokens expr in
  let m := cmap df in
  let mask := List.map (fun _ => true) (rows df) in
  let* mask := filter_loop parse_cond mask_for df m toks mask in
  Ok (getitem_mask df (boolean_mask df toks) mask).

Definition run_sort (df : DataFrame) (expr : string) : result DataFrame :=
  match tokens expr with
  | [] => Raise (ValueError EmptySort)
  | col_raw :: more =>
      let order := match more with o :: _ => lower o | [] => "asc" end in
      if negb (String.eqb order "asc" || String.eqb order "desc")
      then Raise (ValueError InvalidOrder)
      else
        let m := cmap df in
        match m !! lower col_raw with
        | None => Raise (KeyError (UnknownColumn col_raw (columns df)))
        | Some col => sort_values df col (String.eqb order "asc")
        end
  end.

End WithLibraries.

(** *** Pagination *)

(** The state of a [Pager]: [self.df], [self.size] and [self.i], the number
    of the current page. *)
Record Pager := { df : DataFrame; size : Z; i : Z }.

(** [Pager(df, size)]: [set_df], then the size, not below one, then page 1. *)
Definition Pager_init (d : DataFrame) (n : Z) : Pager :=
  {| df := d; size := Z.max 1 n; i := 1 |}.

Definition set_df (p : Pager) (d : DataFrame) : Pager :=
  {| df := d; size := size p; i := 1 |}.

(** [max(1, (len(self.df) - 1) // self.size + 1)]; [//] rounds down.  The
    size is never zero: it is set to [max(1, _)] or to 5. *)
Definition pages (p : Pager) : Z :=
  Z.max 1 ((Z.of_nat (len (df p)) - 1) / size p + 1).

Definition view (p : Pager) : DataFrame :=
  let a := (i p - 1) * size p in
  let b := a + size p in
  iloc (df p) a b.

(** What a command of the loop prints, line by line, besides its effect on
    the pager. *)
Inductive printed :=
| Usage (text : string)
| Line (text : string)
| Warning (e : exn).

Definition page_line (pager : Pager) : printed :=
  Line ("Page " ++ str_of_int (i pager) ++ "/" ++ str_of_int (pages pager)).

(** The [pagesize] command of [main]: an argument that is not made of digits
    gets the usage line; else the size is set, not below one, and the page is
    reset.  When [int(arg)] raises, the pager is left as it was and the loop
    prints the exception. *)
Definition cmd_pagesize (pager : Pager) (arg : string) : Pager * list printed :=
  if negb (isdigit arg) then (pager, [Usage "Usage: pagesize N"])
  else match py_int arg with
       | None => (pager, [Warning (ValueError (InvalidLiteral arg))])
       | Some n =>
           let pager := {| df := df pager; size := Z.max 1 n; i := 1 |} in
           (pager, [Line ("Page size: " ++ str_of_int (size pager))])
       end.

(** The [page] command: the page asked for, clamped to [1..pages]. *)
Definition cmd_page (pager : Pager) (arg : string) : Pager * list printed :=
  if negb (isdigit arg) then (pager, [Usage "Usage: page N"])
  else match py_int arg with
       | None => (pager, [Warning (ValueError (InvalidLiteral arg))])
       | Some n =>
           let pager := {| df := df pager; size := size pager;
                           i := Z.max 1 (Z.min n (pages pager)) |} in
           (pager, [page_line pager])
       end.

(** The [next] and [prev] commands. *)
Definition cmd_next (pager : Pager) : Pager * list printed :=
  if Z.leb (pages pager) (i pager) then (pager, [Line "No more pages."; page_line pager])
  else
    let pager := {| df := df pager; size := size pager; i := i pager + 1 |} in
    (pager, [page_line pager]).

Definition cmd_prev (pager : Pager) : Pager * list printed :=
  if Z.leb (i pager) 1 then (pager, [Line "Already at first page."; page_line pager])
  else
    let pager := {| df := df pager; size := size pager; i := i pager - 1 |} in
    (pager, [page_line pager]).

End M4.

(** ** Reference implementations of the library interfaces

    They make the model run on concrete tables.  Numbers are read and shown
    in exact decimal arithmetic, without rounding, overflow or exponents in
    the output; patterns are made of plain characters and dots. *)

Module Reference.

Fixpoint plain_digits (acc : Z) (s : string) : option Z :=
  match s with
  | EmptyString => Some acc
  | String c s' =>
      match ascii_digit c with
      | Some d => plain_digits (10 * acc + d) s'
      | None => None
      end
  end.

Definition exponent (e : string) : option Z :=
  let digits d := if is_empty d then None else plain_digits 0 d in
  match e with
  | String "-" d => option_map Z.opp (digits d)
  | String "+" d => digits d
  | d => digits d
  end.

(** An unsigned decimal literal: digits, a point, digits, an exponent. *)
Definition decimal (s : string) : option Q :=
  let low := lower s in
  let '(mant, ex) :=
    match split_once "e" low with
    | Some (m, e) => (m, exponent e)
    | None => (low, Some 0)
    end in
  let '(ip, fp) :=
    match split_once "." mant with
    | Some p => p
    | None => (mant, EmptyString)
    end in
  if is_empty ip && is_empty fp then None
  else
    match plain_digits 0 ip, plain_digits 0 fp, ex with
    | Some a, Some b, Some k =>
        let scale := 10 ^ Z.of_nat (String.length fp) in
        Some (Qmult (Qmake (a * scale + b) (Z.to_pos scale)) (Qpower (inject_Z 10) k))
    | _, _, _ => None
    end.

Definition unsigned_float (s : string) : option float64 :=
  let low := lower s in
  if String.eqb low "inf" || String.eqb low "infinity" then Some (FInf false)
  else if String.eqb low "nan" then Some FNaN
  else option_map FFin (decimal s).

Definition float_neg (f : float64) : float64 :=
  match f with
  | FNaN => FNaN
  | FInf b => FInf (negb b)
  | FFin q => FFin (Qopp q)
  end.

Definition parse_float (s : string) : option float64 :=
  match strip s with
  | String "-" d => option_map float_neg (unsigned_float d)
  | String "+" d => unsigned_float d
  | d => unsigned_float d
  end.

Definition digit_char (d : Z) : ascii := ascii_of_N (Z.to_N (48 + d)).

Fixpoint fraction (fuel : nat) (r d : Z) : string :=
  match fuel with
  | O => EmptyString
  | S fuel' =>
      let r10 := 10 * r in
      String (digit_char (r10 / d))
             (if Z.eqb (r10 mod d) 0 then EmptyString else fraction fuel' (r10 mod d) d)
  end.

Definition show_float (f : float64) : string :=
  match f with
  | FNaN => "nan"
  | FInf true => "-inf"
  | FInf false => "inf"
  | FFin q =>
      let n := Z.abs (Qnum q) in
      let d := Z.pos (Qden q) in
      (if Z.ltb (Qnum q) 0 then "-" else "")
      ++ str_of_int (n / d) ++ "." ++ fraction 17 (n mod d) d
  end.

Definition parse_number_cell (s : string) : option num :=
  match py_int s with
  | Some z => Some (NInt z)
  | None =>
      match parse_float s with
      | Some f => Some (NFloat f)
      | None => None
      end
  end.

#[export] Instance exact_numerics : PyNumerics := {|
  float_of_int := fun z => FFin (inject_Z z);
  py_float := parse_float;
  float_repr := show_float;
  pd_parse_number := parse_number_cell
|}.

(** Patterns of plain characters and dots. *)
Definition supported (pat : string) : bool :=
  all_chars (fun c => negb (re_special c) || Ascii.eqb c ".") pat.

Fixpoint match_here (pat s : string) : bool :=
  match pat, s with
  | EmptyString, _ => true
  | String p pat', String c s' =>
      (if Ascii.eqb p "." then negb (Ascii.eqb c "010")
       else Ascii.eqb (lower_char p) (lower_char c))
      && match_here pat' s'
  | String _ _, EmptyString => false
  end.

Fixpoint search (pat s : string) : bool :=
  match_here pat s ||
  match s with
  | EmptyString => false
  | String _ s' => search pat s'
  end.

Lemma plain_not_dot c : re_special c = false -> Ascii.eqb c "." = false.
Proof.
  unfold re_special. cbn [existsb]. intros H.
  apply orb_false_iff in H. apply H.
Qed.

Lemma plain_supported pat : plain_pattern pat = true -> supported pat = true.
Proof.
  unfold plain_pattern, supported. induction pat as [|c pat IH]; simpl; [reflexivity|].
  intros H. apply andb_true_iff in H. destruct H as [-> H]. simpl. apply IH, H.
Qed.

Lemma match_here_plain pat : forall s,
  plain_pattern pat = true -> match_here pat s = startswith (lower pat) (lower s).
Proof.
  unfold plain_pattern. induction pat as [|p pat IH]; intros s H; [reflexivity|].
  simpl in H. apply andb_true_iff in H. destruct H as [Hp H].
  apply negb_true_iff, plain_not_dot in Hp.
  destruct s as [|c s]; simpl; [reflexivity|].
  rewrite Hp, (IH s H). reflexivity.
Qed.

Lemma search_plain pat s :
  plain_pattern pat = true -> search pat s = contains (lower pat) (lower s).
Proof.
  intros H. induction s as [|c s IH]; simpl.
  - rewrite (match_here_plain pat "" H). reflexivity.
  - rewrite (match_here_plain pat (String c s) H), IH. reflexivity.
Qed.

Lemma search_dot c s : c <> "010"%char -> search "." (String c s) = true.
Proof.
  intros H. apply Ascii.eqb_neq in H. simpl. rewrite H. reflexivity.
Qed.

#[export] Instance plain_dot_regex : PyRegex := {|
  re_compiles := supported;
  re_search_icase := search;
  re_plain_compiles := plain_supported;
  re_plain := fun pat s H => search_plain pat s H;
  re_dot_compiles := eq_refl;
  re_dot := search_dot
|}.

End Reference.

(** ** Tables of the examples *)

(** [[{Age:20,Dept:"HR"},{Age:30,Dept:"IT"},{Age:40,Dept:"IT"}]] *)
Definition people : DataFrame :=
  {| schema := [("Age", Int64); ("Dept", ObjectDtype)];
     rows := [[PInt 20; PStr "HR"]; [PInt 30; PStr "IT"]; [PInt 40; PStr "IT"]] |}.

(** [[{Name:"Ali"},{Name:"Bob"},{Name:"Khalid"}]] *)
Definition names : DataFrame :=
  {| schema := [("Name", ObjectDtype)];
     rows := [[PStr "Ali"]; [PStr "Bob"]; [PStr "Khalid"]] |}.

(** A column of text in which one cell is missing and one is no number. *)
Definition survey : DataFrame :=
  {| schema := [("Name", ObjectDtype); ("Age", ObjectDtype)];
     rows := [[PNone; PStr "abc"]; [PStr "Bob"; PStr "30"]] |}.

(** [[{A:1,B:"x"},{A:1,B:"y"}]] *)
Definition ties : DataFrame :=
  {| schema := [("A", Int64); ("B", ObjectDtype)];
     rows := [[PInt 1; PStr "x"]; [PInt 1; PStr "y"]] |}.

(** A table with a column whose name holds an operator. *)
Definition ratios : DataFrame :=
  {| schema := [("a>b", Int64)]; rows := [[PInt 1]] |}.

(** ** The two programs side by side *)

Inductive version := Milestone3 | Milestone4.

Section Versions.
Context {NUM : PyNumerics} {RE : PyRegex}.

Definition parser_of (v : version) : string -> result (string * string * obj) :=
  match v with Milestone3 => M3.parse_condition | Milestone4 => M4.parse_cond end.

Definition evaluator_of (v : version) : DataFrame -> string -> string -> obj -> result (list bool) :=
  match v with Milestone3 => M3.apply_condition | Milestone4 => M4.mask_for end.

Definition run_filter_of (v : version) : DataFrame -> string -> result DataFrame :=
  match v with Milestone3 => M3.run_filter | Milestone4 => M4.run_filter end.

Definition run_sort_of (v : version) : DataFrame -> string -> result DataFrame :=
  match v with Milestone3 => M3.run_sort | Milestone4 => M4.run_sort end.

(** The token as the parser of each program scans it: [milestone_3] strips
    it first. *)
Definition scanned (v : version) (tok : string) : string :=
  match v with Milestone3 => strip tok | Milestone4 => tok end.

(** What a parser does once the condition is split. *)
Definition parsed (tok : string) (sp : option (string * string * string)) :
    result (string * string * obj) :=
  match sp with
  | None => Raise (ValueError (InvalidCondition tok))
  | Some (op, l, r) =>
      if is_empty (strip l) then Raise (ValueError MissingColumn)
      else if negb (String.eqb op "~") && is_empty (strip r)
           then Raise (ValueError MissingValue)
           else Ok (strip l, op, M4.to_val (strip r))
  end.

(** Row [idx] of [df] satisfies the condition [tok]: the condition parses,
    its column resolves, and its mask over [df] is true at [idx]. *)
Definition satisfies (v : version) (df : DataFrame) (tok : string) (idx : nat) : Prop :=
  exists col_raw op val col m,
    parser_of v tok = Ok (col_raw, op, val)
    /\ column_map df !! lower col_raw = Some col
    /\ evaluator_of v df col op val = Ok m
    /\ m !! idx = Some true.

End Versions.

(** ** The command loops *)

(** [Path(arg).suffix] *)
Class PyPath := { suffix : string -> string }.

(** What a loop prints or writes, in order.  A table is shown by its
    content; the fixed texts are named. *)
Inductive shown :=
| Text (p : M4.printed)        (* a line, a usage line, or the line of a caught exception *)
| Loaded                       (* the line after the table is loaded *)
| Help                         (* [print(HELP)] *)
| Frame (d : DataFrame)        (* [print(df)] *)
| Dtypes (sch : list (string * dtype))   (* [print(current.dtypes)] *)
| Saved (json : bool) (path : string) (d : DataFrame)
                               (* [to_json] or [to_csv] of [d] at [path], then the line that
                                  says so, or the line of the exception that the write raised *)
| ResetDone                    (* the line after a reset *)
| Bye                          (* the farewell *)
| Unknown.                     (* the line for an unknown command *)

(** The loop of [main] in [milestone_3.py], on the table that [load_data]
    returned and the lines that [input] returns; the end of the lines is the
    end of the input. *)
Module Loop3.
Section WithLibraries.
Context {NUM : PyNumerics} {RE : PyRegex}.

Record session := { original : DataFrame; current : DataFrame }.

Definition start (df : DataFrame) : session := {| original := df; current := df |}.

(** [show_data(df, n)]; [df.head(n)] is [df.iloc[:n]]. *)
Definition show_data (df : DataFrame) (n : Z) : list shown :=
  [Frame (iloc df 0 n); Text (M4.Line "");
   Text (M4.Line ("Total rows: " ++ str_of_int (Z.of_nat (len df))))].

(** [cmd, arg = line.split(" ", 1)] and [arg.strip()] when the line holds a
    space, else the line and the empty string. *)
Definition split_line (line : string) : string * string :=
  match split_once " " line with
  | Some (cmd, arg) => (cmd, strip arg)
  | None => (line, "")
  end.

(** The body of the [try]: the session after the command, what is printed,
    and whether the loop goes on.  An exception leaves the session as it
    was and is printed. *)
Definition command (s : session) (cmd_low arg : string) : session * list shown * bool :=
  if String.eqb cmd_low "help" then (s, [Help], true)
  else if String.eqb cmd_low "show" then
    if is_empty arg then (s, show_data (current s) 5, true)
    else match py_int arg with
         | Some n => (s, show_data (current s) n, true)
         | None => (s, [Text (M4.Warning (ValueError (InvalidLiteral arg)))], true)
         end
  else if String.eqb cmd_low "cols" then
    (s, [Text (M4.Line (String.concat ", " (columns (current s))))], true)
  else if String.eqb cmd_low "dtypes" then (s, [Dtypes (schema (current s))], true)
  else if String.eqb cmd_low "filter" then
    if is_empty arg then (s, [Text (M4.Usage "Usage: filter <cond>[,<cond>...]")], true)
    else match M3.run_filter (current s) arg with
         | Ok d =>
             ({| original := original s; current := d |},
              [Text (M4.Line ("Filtered rows: " ++ str_of_int (Z.of_nat (len d))))], true)
         | Raise e => (s, [Text (M4.Warning e)], true)
         end
  else if String.eqb cmd_low "sort" then
    if is_empty arg then (s, [Text (M4.Usage "Usage: sort <col>[,asc|desc]")], true)
    else match M3.run_sort (current s) arg with
         | Ok d => ({| original := original s; current := d |}, [Text (M4.Line "Sorted.")], true)
         | Raise e => (s, [Text (M4.Warning e)], true)
         end
  else if String.eqb cmd_low "reset" then
    ({| original := original s; current := original s |}, [ResetDone], true)
  else if String.eqb cmd_low "exit" || String.eqb cmd_low "quit" then (s, [Bye], false)
  else (s, [Unknown], true).

(** One turn of the loop on the line that [input] returned. *)
Definition step (s : session) (raw : string) : session * list shown * bool :=
  let line := strip raw in
  if is_empty line then (s, [], true)
  else let '(cmd, arg) := split_line line in command s (lower cmd) arg.

Fixpoint run (s : session) (lines : list string) : session * list shown :=
  match lines with
  | [] => (s, [Text (M4.Line ""); Bye])
  | raw :: rest =>
      let '(s', out, go) := step s raw in
      if go then let '(s'', out') := run s' rest in (s'', out ++ out')
      else (s', out)
  end.

Definition main (df : DataFrame) (lines : list string) : session * list shown :=
  let '(s, out) := run (start df) lines in (s, Loaded :: out).

End WithLibraries.
End Loop3.

(** The loop of [main] in [milestone_4.py]. *)
Module Loop4.
Section WithLibraries.
Context {NUM : PyNumerics} {RE : PyRegex} {PATH : PyPath}.

(** [original], [current] and [pager]; the pager is bound to the table that
    [current] names. *)
Record session := { original : DataFrame; current : DataFrame; pager : M4.Pager }.

Definition start (df : DataFrame) : session :=
  {| original := df; current := df; pager := M4.Pager_init df 5 |}.

(** [show(df, n)]; [df.head(n)] is [df.iloc[:n]]. *)
Definition show (df : DataFrame) (n : Z) : list shown :=
  [Frame (iloc df 0 n); Text (M4.Line "");
   Text (M4.Line ("Rows in view: " ++ str_of_int (Z.of_nat (len df))))].

(** [(line.split(" ", 1) + [""])[:2]] *)
Definition split_line (line : string) : string * string :=
  match split_once " " line with
  | Some (cmd, arg) => (cmd, arg)
  | None => (line, "")
  end.

Definition page_of (pg : M4.Pager) : string :=
  "Page " ++ str_of_int (M4.i pg) ++ "/" ++ str_of_int (M4.pages pg).

(** A command on the pager alone. *)
Definition paging (s : session) (r : M4.Pager * list M4.printed) : session * list shown * bool :=
  ({| original := original s; current := current s; pager := fst r |},
   List.map Text (snd r), true).

(** [out.suffix.lower() == ".json"] chooses [to_json]; else [to_csv]. *)
Definition save (path : string) (d : DataFrame) : shown :=
  Saved (String.eqb (lower (suffix path)) ".json") path d.

(** The body of the [try]: the session after the command, what is printed,
    and whether the loop goes on.  An exception leaves the session as it
    was and is printed. *)
Definition command (s : session) (cmd arg : string) : session * list shown * bool :=
  if String.eqb cmd "help" then (s, [Help], true)
  else if String.eqb cmd "show" then
    if negb (is_empty arg) then
      match py_int arg with
      | Some n => (s, show (current s) n, true)
      | None => (s, [Text (M4.Warning (ValueError (InvalidLiteral arg)))], true)
      end
    else
      (s, [Frame (M4.view (pager s)); Text (M4.Line "");
           Text (M4.Line (page_of (pager s) ++ " | Rows: "
                          ++ str_of_int (Z.of_nat (len (current s)))))], true)
  else if String.eqb cmd "cols" then
    (s, [Text (M4.Line (String.concat ", " (columns (current s))))], true)
  else if String.eqb cmd "dtypes" then (s, [Dtypes (schema (current s))], true)
  else if String.eqb cmd "filter" then
    if is_empty arg then (s, [Text (M4.Usage "Usage: filter <cond>[,<cond>...]")], true)
    else match M4.run_filter (current s) arg with
         | Ok d =>
             let pg := M4.set_df (pager s) d in
             ({| original := original s; current := d; pager := pg |},
              [Text (M4.Line ("Filtered rows: " ++ str_of_int (Z.of_nat (len d))
                              ++ " (" ++ page_of pg ++ ")"))], true)
         | Raise e => (s, [Text (M4.Warning e)], true)
         end
  else if String.eqb cmd "sort" then
    if is_empty arg then (s, [Text (M4.Usage "Usage: sort <col>[,asc|desc]")], true)
    else match M4.run_sort (current s) arg with
         | Ok d =>
             ({| original := original s; current := d; pager := M4.set_df (pager s) d |},
              [Text (M4.Line "Sorted.")], true)
         | Raise e => (s, [Text (M4.Warning e)], true)
         end
  else if String.eqb cmd "pagesize" then paging s (M4.cmd_pagesize (pager s) arg)
  else if String.eqb cmd "page" then paging s (M4.cmd_page (pager s) arg)
  else if String.eqb cmd "next" then paging s (M4.cmd_next (pager s))
  else if String.eqb cmd "prev" then paging s (M4.cmd_prev (pager s))
  else if String.eqb cmd "export" then
    if is_empty arg then (s, [Text (M4.Usage "Usage: export <file>")], true)
    else (s, [save arg (current s)], true)
  else if String.eqb cmd "export_page" then
    if is_empty arg then (s, [Text (M4.Usage "Usage: export_page <file>")], true)
    else (s, [save arg (M4.view (pager s))], true)
  else if String.eqb cmd "reset" then
    ({| original := original s; current := original s;
        pager := {| M4.df := original s; M4.size := 5; M4.i := 1 |} |},
     [ResetDone], true)
  else if String.eqb cmd "exit" || String.eqb cmd "quit" then (s, [Bye], false)
  else (s, [Unknown], true).

(** One turn of the loop on the line that [input] returned. *)
Definition step (s : session) (raw : string) : session * list shown * bool :=
  let line := strip raw in
  if is_empty line then (s, [], true)
  else let '(cmd, arg) := split_line line in command s (strip (lower cmd)) (strip arg).

Fixpoint run (s : session) (lines : list string) : session * list shown :=
  match lines with
  | [] => (s, [Text (M4.Line ""); Bye])
  | raw :: rest =>
      let '(s', out, go) := step s raw in
      if go then let '(s'', out') := run s' rest in (s'', out ++ out')
      else (s', out)
  end.

Definition main (df : DataFrame) (lines : list string) : session * list shown :=
  let '(s, out) := run (start df) lines in (s, Loaded :: out).

End WithLibraries.
End Loop4.

(** A reference for [Path(arg).suffix], for a path that does not end with a
    separator: what follows the last dot of the last component, the dot
    included, when that dot is neither the first nor the last character of
    the component. *)
Module ReferencePath.

Fixpoint after_last (c : ascii) (s : string) : option string :=
  match s with
  | EmptyString => None
  | String x s' =>
      match after_last c s' with
      | Some r => Some r
      | None => if Ascii.eqb x c then Some s' else None
      end
  end.

Definition name (path : string) : string :=
  match after_last "/" path with Some r => r | None => path end.

Definition suffix_of (path : string) : string :=
  match name path with
  | EmptyString => EmptyString
  | String _ rest =>
      match after_last "." rest with
      | Some EmptyString | None => EmptyString
      | Some ext => String "." ext
      end
  end.

#[export] Instance posix_path : PyPath := {| suffix := suffix_of |}.

End ReferencePath.

(** ** Further notions used to state properties *)

(** What [run_filter] returns when its loop is not entered: the table, when
    it has rows; the table without its columns, when it has none. *)
Definition unfiltered (df : DataFrame) : DataFrame :=
  if Nat.eqb (len df) 0 then no_columns df else df.

(** The last column whose lowercase name is [key]. *)
Definition last_named (key : string) (cols : list string) : option string :=
  List.find (fun c => String.eqb (lower c) key) (List.rev cols).

(** A text without any character of an operator and without a comma. *)
Definition plain_text (s : string) : bool :=
  all_chars (fun c => negb (operator_char c)) s.

(** A value text that a condition can spell: it holds no character of an
    operator and no comma, and does not end with a blank. *)
Definition spellable_value (text : string) : bool :=
  plain_text text
  && match last_char text with
     | Some d => negb (isspace d)
     | None => true
     end.

(** The operators that come before [op] in the order of [OPS]. *)
Fixpoint tried_before (op : string) (ops : list string) : list string :=
  match ops with
  | [] => []
  | o :: rest => if String.eqb o op then [] else o :: tried_before op rest
  end.

Section Success.
Context {NUM : PyNumerics} {RE : PyRegex}.

(** A token succeeds on a table: it parses, its column resolves, and its
    mask is computed. *)
Definition succeeds (v : version) (df : DataFrame) (t : string) : Prop :=
  exists col_raw op val col m,
    parser_of v t = Ok (col_raw, op, val)
    /\ column_map df !! lower col_raw = Some col
    /\ evaluator_of v df col op val = Ok m.

End Success.

(** The order that the tokens after the column ask for is [asc] or [desc]. *)
Definition valid_order (more : list string) : Prop :=
  match more with
  | o :: _ => lower o = "asc" \/ lower o = "desc"
  | [] => True
  end.

(** The pager at page [k]. *)
Definition at_page (p : M4.Pager) (k : Z) : M4.Pager :=
  {| M4.df := M4.df p; M4.size := M4.size p; M4.i := k |}.

(** [d] holds rows of [df], each of them at most once, in some order, under
    the columns of [df]; when [d] has no row, it may have no column either. *)
Definition selection (df d : DataFrame) : Prop :=
  (schema d = schema df \/ (schema d = [] /\ rows d = []))
  /\ exists idx : list nat,
       List.NoDup idx
       /\ (forall k, In k idx -> (k < len df)%nat)
       /\ rows d = List.map (fun k => List.nth k (rows df) []) idx.

(** The command of a line, as [milestone_4] reads it. *)
Definition command_of (raw : string) : string :=
  strip (lower (fst (Loop4.split_line (strip raw)))).

(** What every session of [milestone_4] keeps. *)
Definition kept4 (df : DataFrame) (s : Loop4.session) : Prop :=
  Loop4.original s = df
  /\ selection df (Loop4.current s)
  /\ M4.df (Loop4.pager s) = Loop4.current s
  /\ 1 <= M4.size (Loop4.pager s)
  /\ 1 <= M4.i (Loop4.pager s) <= M4.pages (Loop4.pager s).

(** What every session of [milestone_3] keeps. *)
Definition kept3 (df : DataFrame) (s : Loop3.session) : Prop :=
  Loop3.original s = df /\ selection df (Loop3.current s).

(** What is printed tells that the command was refused: a usage line, the
    line of an exception, or the line for an unknown command. *)
Definition refused (out : list shown) : Prop :=
  (exists e, In (Text (M4.Warning e)) out)
  \/ (exists u, In (Text (M4.Usage u)) out)
  \/ In Unknown out.

(** The command of a line, as [milestone_3] reads it. *)
Definition command3_of (raw : string) : string :=
  lower (fst (Loop3.split_line (strip raw))).

(** The value of a condition is compared as a number. *)
Definition reads_number (v : version) {NUM : PyNumerics} (val : obj) : bool :=
  match val with
  | PBool _ | PInt _ | PFloat _ => true
  | PStr text =>
      match v with
      | Milestone3 => match M3.parse_number text with Some _ => true | None => false end
      | Milestone4 => false
      end
  | PNone => false
  end.

Section RowWise.
Context {NUM : PyNumerics} {RE : PyRegex}.

(** The condition of a token is evaluated row by row on the table: it
    searches a text, or its column has a numeric dtype, or its value is not
    compared as a number. *)
Definition row_wise (v : version) (df : DataFrame) (t : string) : Prop :=
  forall c op val col j d,
    parser_of v t = Ok (c, op, val) ->
    column_map df !! lower c = Some col ->
    column_index col (schema df) = Some (j, d) ->
    op = "~" \/ is_numeric_dtype d = true \/ reads_number v val = false.

End RowWise.

(** A text without a comma. *)
Definition no_comma (s : string) : bool := all_chars (fun c => negb (Ascii.eqb c ",")) s.

(** A paging command, [k] times. *)
Fixpoint presses (f : M4.Pager -> M4.Pager * list M4.printed) (k : nat) (p : M4.Pager) :
    M4.Pager :=
  match k with
  | O => p
  | S k' => presses f k' (fst (f p))
  end.

(** ** The conditions as the specification words them *)

Module Spec.


(** The text of a cell or of a value that is a string or an integer. *)
Definition text (o : obj) : option string :=
  match o with
  | PStr s => Some s
  | PInt z => Some (str_of_int z)
  | _ => None
  end.


End Spec.


Section Reach.
Context {NUM : PyNumerics} {RE : PyRegex}.



End Reach.


(** * Properties *)

(** ** Masks and selections *)



Lemma keep_all {A} (l : list A) : keep (List.map (fun _ => true) l) l = l.
Proof. induction l as [|x t IH]; simpl; congruence. Qed.


Lemma mask_and_length (a b : list bool) :
  List.length a = List.length b -> List.length (mask_and a b) = List.length a.
Proof.
  revert b; induction a as [|x a IH]; intros [|y b]; simpl; try congruence.
  intros [= H]. rewrite (IH _ H). reflexivity.
Qed.

Lemma mask_and_lookup (a b : list bool) idx :
  mask_and a b !! idx = Some true <-> a !! idx = Some true /\ b !! idx = Some true.
Proof.
  revert b idx; induction a as [|x a IH]; intros [|y b] idx; simpl.
  - split; [discriminate | intros [? _]; discriminate].
  - split; [discriminate | intros [? _]; discriminate].
  - split; [discriminate | intros [_ ?]; discriminate].
  - destruct idx as [|idx]; simpl.
    + destruct x, y; simpl; split; try discriminate; try tauto;
        intros [? ?]; discriminate.
    + apply IH.
Qed.


(** ** The evaluators return one flag per row *)

Section MaskLength.
Context {NUM : PyNumerics} {RE : PyRegex}.

Lemma getitem_length df col s :
  getitem df col = Ok s -> List.length (values s) = len df.
Proof.
  unfold getitem. destruct (column_index col (schema df)) as [[j d]|]; [|discriminate].
  intros [= <-]. simpl. apply List.length_map.
Qed.

Lemma str_contains_length cells pat na m :
  str_contains cells pat na = Ok m -> List.length m = List.length cells.
Proof.
  unfold str_contains. destruct (re_compiles pat); [|discriminate].
  intros [= <-]. apply List.length_map.
Qed.

Lemma to_numeric_length cells : List.length (to_numeric cells) = List.length cells.
Proof.
  unfold to_numeric. destruct (forallb _ _); rewrite ?List.length_map; reflexivity.
Qed.

Lemma compare_numeric_length op left_ right_ m :
  compare_numeric op left_ right_ = Ok m -> List.length m = List.length left_.
Proof.
  unfold compare_numeric. destruct right_; try (intros [= <-]; apply List.length_map).
  destruct (_ || _); [|discriminate]. intros [= <-]. apply List.length_map.
Qed.

Lemma numeric_left_length (s : Series) :
  List.length (if is_numeric_dtype (s_dtype s) then numeric_values s
               else to_numeric (values s)) = List.length (values s).
Proof.
  destruct (is_numeric_dtype _); [apply List.length_map | apply to_numeric_length].
Qed.

Lemma mask_for_length df col op val m :
  M4.mask_for df col op val = Ok m -> List.length m = len df.
Proof.
  unfold M4.mask_for. destruct (getitem df col) as [s|e] eqn:Hs; [|discriminate].
  apply getitem_length in Hs. simpl.
  destruct (String.eqb op "~").
  - intros H. apply str_contains_length in H. unfold astype_str in H.
    rewrite List.length_map in H. congruence.
  - destruct (M4.is_number val).
    + destruct (compare_numeric _ _ _) as [mk|] eqn:Hc; [|discriminate]. simpl.
      destruct (is_comparison op); [|discriminate]. intros [= <-].
      apply compare_numeric_length in Hc. rewrite Hc, numeric_left_length. exact Hs.
    + destruct (is_comparison op); [|discriminate]. intros [= <-].
      unfold compare_text, astype_str. rewrite !List.length_map. exact Hs.
Qed.

Lemma apply_condition_length df col op value m :
  M3.apply_condition df col op value = Ok m -> List.length m = len df.
Proof.
  unfold M3.apply_condition. destruct (getitem df col) as [s|e] eqn:Hs; [|discriminate].
  apply getitem_length in Hs. simpl.
  destruct (String.eqb op "~").
  - intros H. apply str_contains_length in H. unfold astype_str in H.
    rewrite List.length_map in H. congruence.
  - assert (Hcmp : forall r, (if is_comparison op
        then compare_numeric op
               (if is_numeric_dtype (s_dtype s) then numeric_values s
                else to_numeric (values s)) r
        else Raise (ValueError (UnknownOperator op))) = Ok m ->
        List.length m = len df).
    { intros r. destruct (is_comparison op); [|discriminate]. intros H.
      apply compare_numeric_length in H. rewrite H, numeric_left_length. exact Hs. }
    destruct value; try apply Hcmp.
    destruct (M3.parse_number s0); [apply Hcmp|].
    intros [= <-]. apply List.length_map.
Qed.

Lemma evaluator_length v df col op val m :
  evaluator_of v df col op val = Ok m -> List.length m = len df.
Proof. destruct v; [apply apply_condition_length | apply mask_for_length]. Qed.

End MaskLength.

(** ** [run_filter] keeps the rows that satisfy every condition *)

Lemma fold_true {A} (l : list A) : List.fold_left (fun _ _ => true) l true = true.
Proof. induction l as [|x t IH]; [reflexivity | exact IH]. Qed.

Lemma boolean_mask_true df (toks : list string) :
  toks <> [] \/ rows df <> [] -> boolean_mask df toks = true.
Proof.
  unfold boolean_mask, len. intros [H|H].
  - destruct toks as [|t rest]; [contradiction | apply fold_true].
  - destruct (rows df); [contradiction | apply fold_true].
Qed.

Lemma boolean_mask_false df (toks : list string) :
  boolean_mask df toks = false -> toks = [] /\ rows df = [].
Proof.
  unfold boolean_mask, len. destruct toks as [|t rest]; [|simpl; rewrite fold_true; discriminate].
  destruct (rows df); [auto | discriminate].
Qed.

Section FilterSound.
Context {NUM : PyNumerics} {RE : PyRegex}.

Lemma filter_loop_spec v df toks : forall mask0 mask,
  List.length mask0 = len df ->
  filter_loop (parser_of v) (evaluator_of v) df (column_map df) toks mask0 = Ok mask ->
  List.length mask = len df
  /\ forall idx, mask !! idx = Some true <->
       mask0 !! idx = Some true /\ forall t, In t toks -> satisfies v df t idx.
Proof.
  induction toks as [|t rest IH]; intros mask0 mask Hlen; simpl.
  - intros [= <-]. split; [exact Hlen|]. intros idx. split; [|tauto].
    intros H; split; [exact H | intros ? []].
  - destruct (parser_of v t) as [[[col_raw op] val]|e] eqn:Hp; [|discriminate]. simpl.
    destruct (column_map df !! lower col_raw) as [col|] eqn:Hc; [|discriminate].
    destruct (evaluator_of v df col op val) as [m|e] eqn:Hm; [|discriminate]. simpl.
    intros Hloop.
    assert (Hm_len : List.length m = len df) by (eapply evaluator_length; eauto).
    apply IH in Hloop; [|rewrite mask_and_length; congruence].
    destruct Hloop as [Hl Hiff]. split; [exact Hl|].
    intros idx. rewrite Hiff, mask_and_lookup. split.
    + intros [[H0 Hmi] Hrest]. split; [exact H0|].
      intros t' [<-|Hin]; [|auto].
      exists col_raw, op, val, col, m. auto.
    + intros [H0 Hall]. split; [split; [exact H0|] | intros t' Hin; apply Hall; right; exact Hin].
      destruct (Hall t (or_introl eq_refl)) as (c' & op' & val' & col' & m' & Hp' & Hc' & Hm' & Hi).
      rewrite Hp in Hp'. injection Hp' as <- <- <-.
      rewrite Hc in Hc'. injection Hc' as <-.
      rewrite Hm in Hm'. injection Hm' as <-. exact Hi.
Qed.

Lemma run_filter_loop v df expr df' :
  run_filter_of v df expr = Ok df' ->
  exists mask,
    filter_loop (parser_of v) (evaluator_of v) df (column_map df) (tokens expr)
      (List.map (fun _ => true) (rows df)) = Ok mask
    /\ df' = getitem_mask df (boolean_mask df (tokens expr)) mask.
Proof.
  destruct v; simpl.
  - unfold M3.run_filter. destruct (is_empty (strip expr)); [discriminate|].
    destruct (filter_loop _ _ _ _ _ _) as [mask|]; [|discriminate]. simpl.
    intros [= <-]. eauto.
  - unfold M4.run_filter, M4.cmap.
    destruct (filter_loop _ _ _ _ _ _) as [mask|]; [|discriminate]. simpl.
    intros [= <-]. eauto.
Qed.

(** With a token in the expression, or a row in the table, the mask is a
    Series of booleans and [run_filter] selects rows. *)
Lemma run_filter_rows v df expr df' :
  tokens expr <> [] \/ rows df <> [] ->
  run_filter_of v df expr = Ok df' ->
  exists mask,
    filter_loop (parser_of v) (evaluator_of v) df (column_map df) (tokens expr)
      (List.map (fun _ => true) (rows df)) = Ok mask
    /\ df' = select_rows df mask.
Proof.
  intros Hb H. apply run_filter_loop in H. destruct H as (mask & Hloop & ->).
  exists mask. split; [exact Hloop|]. rewrite (boolean_mask_true df _ Hb). reflexivity.
Qed.

End FilterSound.

(** ** The merge sort is a stable sort *)

Lemma filter_none {A} (f : A -> bool) (l : list A) :
  (forall x, In x l -> f x = false) -> List.filter f l = [].
Proof.
  induction l as [|x t IH]; intros H; simpl; [reflexivity|].
  rewrite (H x (or_introl eq_refl)). apply IH. intros y Hy. apply H. right. exact Hy.
Qed.

Lemma filter_cons_if {A} (f : A -> bool) (x : A) (l : list A) :
  List.filter f (x :: l) = if f x then x :: List.filter f l else List.filter f l.
Proof. reflexivity. Qed.

Section StableSortFacts.
Context {A : Type} (le : A -> A -> bool).
Hypothesis le_total : forall a b, le a b = true \/ le b a = true.
Hypothesis le_trans : forall a b c, le a b = true -> le b c = true -> le a c = true.

Lemma merge_nil_r (l : list A) : merge le l [] = l.
Proof. destruct l; reflexivity. Qed.

Lemma merge_cons a t1 b t2 :
  merge le (a :: t1) (b :: t2) =
  if le a b then a :: merge le t1 (b :: t2) else b :: merge le (a :: t1) t2.
Proof. reflexivity. Qed.

Lemma merge_perm (l1 l2 : list A) : Permutation (merge le l1 l2) (l1 ++ l2).
Proof.
  revert l2; induction l1 as [|a t1 IH1]; intros l2.
  - destruct l2; reflexivity.
  - induction l2 as [|b t2 IH2].
    + rewrite merge_nil_r, app_nil_r. reflexivity.
    + rewrite merge_cons. destruct (le a b).
      * simpl. apply perm_skip. apply IH1.
      * rewrite IH2. apply Permutation_middle.
Qed.

Lemma sorted_by_head a t x : sorted_by le (a :: t) -> In x (a :: t) -> le a x = true.
Proof.
  intros H Hx. inversion H as [|? ? _ Ha]; subst.
  destruct Hx as [<-|Hx].
  - destruct (le_total a a); assumption.
  - rewrite List.Forall_forall in Ha. auto.
Qed.

Lemma merge_sorted (l1 l2 : list A) :
  sorted_by le l1 -> sorted_by le l2 -> sorted_by le (merge le l1 l2).
Proof.
  unfold sorted_by.
  revert l2; induction l1 as [|a t1 IH1]; intros l2 H1 H2.
  - destruct l2; exact H2.
  - induction l2 as [|b t2 IH2].
    + rewrite merge_nil_r. exact H1.
    + rewrite merge_cons. destruct (le a b) eqn:Hab.
      * apply SSorted_cons; [apply IH1; [inversion H1|]; assumption|].
        rewrite List.Forall_forall. intros x Hx.
        apply (Permutation_in _ (merge_perm _ _)) in Hx.
        apply in_app_or in Hx. destruct Hx as [Hx|Hx].
        -- apply (sorted_by_head a t1); [exact H1 | right; exact Hx].
        -- eapply le_trans; [exact Hab|]. apply (sorted_by_head b t2); assumption.
      * assert (Hba : le b a = true) by (destruct (le_total a b); congruence).
        apply SSorted_cons; [apply IH2; inversion H2; assumption|].
        rewrite List.Forall_forall. intros x Hx.
        apply (Permutation_in _ (merge_perm _ _)) in Hx.
        apply in_app_or in Hx. destruct Hx as [Hx|Hx].
        -- eapply le_trans; [exact Hba|]. apply (sorted_by_head a t1); assumption.
        -- apply (sorted_by_head b t2); [exact H2 | right; exact Hx].
Qed.

(** Merging keeps the elements tied with [k] in the order: those of the left
    run, then those of the right run. *)
Lemma merge_stable k (l1 l2 : list A) :
  sorted_by le l1 ->
  List.filter (tied le k) (merge le l1 l2)
  = List.filter (tied le k) l1 ++ List.filter (tied le k) l2.
Proof.
  revert l2; induction l1 as [|a t1 IH1]; intros l2 H1.
  - destruct l2; reflexivity.
  - induction l2 as [|b t2 IH2].
    + rewrite merge_nil_r, app_nil_r. reflexivity.
    + rewrite merge_cons. destruct (le a b) eqn:Hab.
      * rewrite !(filter_cons_if _ a), IH1 by (inversion H1; assumption).
        destruct (tied le k a); reflexivity.
      * rewrite (filter_cons_if _ b), (filter_cons_if _ b t2), IH2.
        destruct (tied le k b) eqn:Hkb; [|reflexivity].
        rewrite (filter_none _ (a :: t1)); [reflexivity|].
        intros x Hx. destruct (tied le k x) eqn:Hkx; [exfalso|reflexivity].
        unfold tied in Hkb, Hkx.
        apply andb_true_iff in Hkb, Hkx. destruct Hkb as [Hkb _], Hkx as [_ Hxk].
        assert (le a b = true); [|congruence].
        eapply le_trans; [apply (sorted_by_head a t1 x H1 Hx)|].
        eapply le_trans; eassumption.
Qed.

Lemma halves_shorter (x y : A) (t : list A) (fuel : nat) :
  (List.length (x :: y :: t) <= S fuel)%nat ->
  let h := Nat.div2 (List.length (x :: y :: t)) in
  (List.length (firstn h (x :: y :: t)) <= fuel)%nat
  /\ (List.length (skipn h (x :: y :: t)) <= fuel)%nat.
Proof.
  intros Hlen h. subst h.
  rewrite List.length_firstn, List.length_skipn, Nat.div2_div.
  remember (List.length (x :: y :: t)) as n eqn:Hn.
  assert (2 <= n)%nat by (subst n; simpl; lia).
  assert (n / 2 < n)%nat by (apply Nat.div_lt; lia).
  assert (1 <= n / 2)%nat by (apply Nat.div_le_lower_bound; lia).
  lia.
Qed.

Lemma msort_perm fuel : forall l, Permutation (msort le fuel l) l.
Proof.
  induction fuel as [|fuel IH]; intros l; [reflexivity|].
  destruct l as [|x [|y t]]; try reflexivity.
  cbn [msort]. rewrite merge_perm, !IH, List.firstn_skipn. reflexivity.
Qed.

Lemma msort_sorted fuel : forall l,
  (List.length l <= fuel)%nat -> sorted_by le (msort le fuel l).
Proof.
  induction fuel as [|fuel IH]; intros l Hlen.
  - destruct l; [constructor | simpl in Hlen; lia].
  - destruct l as [|x [|y t]].
    + constructor.
    + repeat constructor.
    + cbn [msort]. destruct (halves_shorter x y t fuel Hlen).
      apply merge_sorted; apply IH; assumption.
Qed.

Lemma msort_stable k fuel : forall l,
  (List.length l <= fuel)%nat ->
  List.filter (tied le k) (msort le fuel l) = List.filter (tied le k) l.
Proof.
  induction fuel as [|fuel IH]; intros l Hlen; [reflexivity|].
  destruct l as [|x [|y t]]; try reflexivity.
  cbn [msort]. destruct (halves_shorter x y t fuel Hlen) as [H1 H2].
  rewrite merge_stable by (apply msort_sorted; assumption).
  rewrite !IH by assumption.
  rewrite <- List.filter_app, List.firstn_skipn. reflexivity.
Qed.

Lemma stable_sort_perm l : Permutation (stable_sort le l) l.
Proof. apply msort_perm. Qed.

Lemma stable_sort_sorted l : sorted_by le (stable_sort le l).
Proof. apply msort_sorted. unfold stable_sort. lia. Qed.

(** Stability: the elements tied with [k] come out in the order in which
    they went in. *)
Lemma stable_sort_stable k l :
  List.filter (tied le k) (stable_sort le l) = List.filter (tied le k) l.
Proof. apply msort_stable. lia. Qed.

End StableSortFacts.

(** ** The order of sort values is total and transitive *)

Lemma ascii_compare_spec (a b : ascii) :
  CompareSpec (a = b) (N_of_ascii a < N_of_ascii b)%N (N_of_ascii b < N_of_ascii a)%N
              (Ascii.compare a b).
Proof.
  unfold Ascii.compare. destruct (N.compare_spec (N_of_ascii a) (N_of_ascii b)) as [H|H|H];
    constructor; try exact H.
  rewrite <- (ascii_N_embedding a), <- (ascii_N_embedding b), H. reflexivity.
Qed.

Lemma str_cmp_trans (a : string) : forall b c,
  str_cmp a b <> Gt -> str_cmp b c <> Gt -> str_cmp a c <> Gt.
Proof.
  unfold str_cmp.
  induction a as [|x a IH]; intros [|y b] [|z c]; simpl; try congruence.
  destruct (ascii_compare_spec x y), (ascii_compare_spec y z), (ascii_compare_spec x z);
    subst; try congruence; try lia; try apply IH.
Qed.

Lemma str_cmp_total (a b : string) : str_cmp a b <> Gt \/ str_cmp b a <> Gt.
Proof.
  unfold str_cmp. rewrite (String.compare_antisym b a).
  destruct (String.compare a b); simpl; auto; left; discriminate.
Qed.

Lemma skey_le_total (a b : skey) : skey_le a b = true \/ skey_le b a = true.
Proof.
  destruct a as [|p| |x], b as [|q| |y]; simpl; auto.
  - destruct (Qlt_le_dec q p) as [H|H].
    + right. apply Qle_bool_iff, Qlt_le_weak, H.
    + left. apply Qle_bool_iff, H.
  - destruct (str_cmp_total x y) as [H|H]; [left|right];
      destruct (str_cmp _ _); congruence.
Qed.

Lemma skey_le_trans (a b c : skey) :
  skey_le a b = true -> skey_le b c = true -> skey_le a c = true.
Proof.
  destruct a as [|p| |x], b as [|q| |y], c as [|r| |z]; simpl; try congruence; auto.
  - rewrite !Qle_bool_iff. apply Qle_trans.
  - intros H1 H2.
    assert (H : str_cmp x z <> Gt).
    { apply (str_cmp_trans x y z); intros E; rewrite E in *; discriminate. }
    destruct (str_cmp x z); congruence.
Qed.

Lemma key_le_total (a b : nat * skey) : key_le a b = true \/ key_le b a = true.
Proof. apply skey_le_total. Qed.

Lemma key_le_trans (a b c : nat * skey) :
  key_le a b = true -> key_le b c = true -> key_le a c = true.
Proof. apply skey_le_trans. Qed.

(** ** [nargsort] is stable in both directions *)

Lemma filter_all {A} (f : A -> bool) (l : list A) :
  (forall x, In x l -> f x = true) -> List.filter f l = l.
Proof.
  induction l as [|x t IH]; intros H; simpl; [reflexivity|].
  rewrite (H x (or_introl eq_refl)). f_equal. apply IH. intros y Hy. apply H. right. exact Hy.
Qed.

Lemma filter_map_fst {A B} (f : A -> bool) (g : A * B -> bool) (l : list (A * B)) :
  (forall p, In p l -> f (fst p) = g p) ->
  List.filter f (List.map fst l) = List.map fst (List.filter g l).
Proof.
  induction l as [|p t IH]; intros H; simpl; [reflexivity|].
  rewrite (H p (or_introl eq_refl)), IH by (intros q Hq; apply H; right; exact Hq).
  destruct (g p); reflexivity.
Qed.

Lemma filter_map_swap {A B} (f : B -> bool) (g : A -> B) (l : list A) :
  List.filter f (List.map g l) = List.map g (List.filter (fun x => f (g x)) l).
Proof.
  induction l as [|x t IH]; simpl; [reflexivity|].
  rewrite IH. destruct (f (g x)); reflexivity.
Qed.

Lemma map_nth_seq {A} (d : A) (l : list A) :
  List.map (fun i => List.nth i l d) (seq 0 (List.length l)) = l.
Proof.
  induction l as [|x t IH]; [reflexivity|].
  cbn [List.length seq List.map List.nth]. f_equal.
  rewrite <- seq_shift, List.map_map. exact IH.
Qed.

(** A cell that is present is listed with its position and its sort value. *)
Lemma non_nans_spec items : forall i p,
  In p (non_nans i items) ->
  (i <= fst p)%nat /\ sort_key (List.nth (fst p - i) items PNone) = Some (snd p).
Proof.
  induction items as [|o t IH]; intros i p; simpl; [intros []|].
  assert (Htail : In p (non_nans (S i) t) ->
            (i <= fst p)%nat /\
            sort_key (List.nth (fst p - i) (o :: t) PNone) = Some (snd p)).
  { intros Hp. apply IH in Hp. destruct Hp as [Hle Hk]. split; [lia|].
    replace (fst p - i)%nat with (S (fst p - S i)) by lia. exact Hk. }
  destruct (sort_key o) as [k|] eqn:Hk; [|exact Htail].
  intros [<-|Hp]; [|auto]. simpl. rewrite Nat.sub_diag. auto.
Qed.

Lemma nan_idx_spec items : forall i j,
  In j (nan_idx i items) ->
  (i <= j)%nat /\ sort_key (List.nth (j - i) items PNone) = None.
Proof.
  induction items as [|o t IH]; intros i j; simpl; [intros []|].
  assert (Htail : In j (nan_idx (S i) t) ->
            (i <= j)%nat /\ sort_key (List.nth (j - i) (o :: t) PNone) = None).
  { intros Hj. apply IH in Hj. destruct Hj as [Hle Hk]. split; [lia|].
    replace (j - i)%nat with (S (j - S i)) by lia. exact Hk. }
  destruct (sort_key o) as [k|] eqn:Hk; [exact Htail|].
  intros [<-|Hj]; [|auto]. rewrite Nat.sub_diag. auto.
Qed.

Lemma parts_perm items : forall i,
  Permutation (List.map fst (non_nans i items) ++ nan_idx i items)
              (seq i (List.length items)).
Proof.
  induction items as [|o t IH]; intros i; simpl; [reflexivity|].
  destruct (sort_key o); simpl.
  - apply perm_skip, IH.
  - rewrite <- Permutation_middle. apply perm_skip, IH.
Qed.

Lemma seq_tail_filter (f : obj -> bool) o t i :
  List.filter (fun j => f (List.nth (j - i) (o :: t) PNone)) (seq (S i) (List.length t))
  = List.filter (fun j => f (List.nth (j - S i) t PNone)) (seq (S i) (List.length t)).
Proof.
  apply List.filter_ext_in. intros j Hj. apply List.in_seq in Hj.
  replace (j - i)%nat with (S (j - S i)) by lia. reflexivity.
Qed.

Lemma tied_key_le (i : nat) (k : skey) (p : nat * skey) :
  tied key_le (i, k) p = tied skey_le k (snd p).
Proof. reflexivity. Qed.

Lemma filter_seq_present o k items : forall i,
  sort_key o = Some k ->
  List.filter (fun j => same_value o (List.nth (j - i) items PNone)) (seq i (List.length items))
  = List.map fst (List.filter (tied key_le (O, k)) (non_nans i items)).
Proof.
  intros i Ho. revert i.
  induction items as [|x t IH]; intros i; [reflexivity|].
  cbn [List.length seq non_nans]. rewrite filter_cons_if, seq_tail_filter, IH.
  rewrite Nat.sub_diag. cbn [List.nth]. unfold same_value. rewrite Ho.
  destruct (sort_key x) as [y|]; [|reflexivity].
  rewrite filter_cons_if, tied_key_le. cbn [snd].
  destruct (tied skey_le k y); reflexivity.
Qed.

Lemma filter_seq_missing o items : forall i,
  sort_key o = None ->
  List.filter (fun j => same_value o (List.nth (j - i) items PNone)) (seq i (List.length items))
  = nan_idx i items.
Proof.
  intros i Ho. revert i.
  induction items as [|x t IH]; intros i; [reflexivity|].
  cbn [List.length seq nan_idx]. rewrite filter_cons_if, seq_tail_filter, IH.
  rewrite Nat.sub_diag. cbn [List.nth]. unfold same_value. rewrite Ho.
  destruct (sort_key x); reflexivity.
Qed.

Lemma nargsort_shape items ascending indexer :
  nargsort items ascending = Ok indexer ->
  exists sorted,
    Permutation sorted (non_nans O items)
    /\ sorted_by key_le sorted
    /\ (forall k, List.filter (tied key_le k) sorted
                  = List.filter (tied key_le k)
                      (if ascending then non_nans O items else List.rev (non_nans O items)))
    /\ indexer = (if ascending then List.map fst sorted else List.rev (List.map fst sorted))
                 ++ nan_idx O items.
Proof.
  unfold nargsort. destruct (comparable _); [|discriminate]. intros [= <-].
  eexists. split; [|split; [|split; [|reflexivity]]].
  - rewrite stable_sort_perm. destruct ascending; [reflexivity|].
    symmetry. apply Permutation_rev.
  - apply stable_sort_sorted; [apply key_le_total | apply key_le_trans].
  - intros k. apply stable_sort_stable; [apply key_le_total | apply key_le_trans].
Qed.

Lemma nargsort_perm items ascending indexer :
  nargsort items ascending = Ok indexer ->
  Permutation indexer (seq 0 (List.length items)).
Proof.
  intros H. apply nargsort_shape in H. destruct H as (sorted & Hp & _ & _ & ->).
  rewrite <- (parts_perm items 0). apply Permutation_app_tail.
  destruct ascending; [|rewrite <- Permutation_rev]; apply Permutation_map, Hp.
Qed.

(** The positions of the cells with one sort value come out of [nargsort] in
    increasing order, ascending or descending. *)
Lemma nargsort_stable items ascending indexer o :
  nargsort items ascending = Ok indexer ->
  List.filter (fun j => same_value o (List.nth j items PNone)) indexer
  = List.filter (fun j => same_value o (List.nth j items PNone)) (seq 0 (List.length items)).
Proof.
  intros H. apply nargsort_shape in H. destruct H as (sorted & Hp & _ & Hst & ->).
  assert (Hsub : forall f : nat -> bool,
            List.filter f (seq 0 (List.length items))
            = List.filter (fun j => f (j - 0)%nat) (seq 0 (List.length items))).
  { intros f. apply List.filter_ext. intros j. rewrite Nat.sub_0_r. reflexivity. }
  rewrite (Hsub (fun j => same_value o (List.nth j items PNone))).
  assert (Hin : forall p, In p sorted ->
            sort_key (List.nth (fst p) items PNone) = Some (snd p)).
  { intros p Hpin. apply (Permutation_in _ Hp), non_nans_spec in Hpin.
    rewrite Nat.sub_0_r in Hpin. apply Hpin. }
  assert (Hnan : forall j, In j (nan_idx 0 items) ->
            sort_key (List.nth j items PNone) = None).
  { intros j Hj. apply nan_idx_spec in Hj. rewrite Nat.sub_0_r in Hj. apply Hj. }
  rewrite List.filter_app.
  destruct (sort_key o) as [k|] eqn:Ho.
  - rewrite (filter_seq_present o k items 0 Ho).
    rewrite (filter_none _ (nan_idx 0 items)), app_nil_r.
    2:{ intros j Hj. unfold same_value. rewrite Ho, (Hnan j Hj). reflexivity. }
    assert (Hfst : List.filter (fun j => same_value o (List.nth j items PNone))
                     (List.map fst sorted)
                   = List.map fst (List.filter (tied key_le (O, k)) sorted)).
    { apply filter_map_fst. intros p Hpin. unfold same_value.
      rewrite Ho, (Hin p Hpin). reflexivity. }
    destruct ascending.
    + rewrite Hfst, Hst. reflexivity.
    + rewrite List.filter_rev, Hfst, Hst, List.filter_rev, List.map_rev, List.rev_involutive.
      reflexivity.
  - rewrite (filter_seq_missing o items 0 Ho).
    rewrite (filter_all _ (nan_idx 0 items)).
    2:{ intros j Hj. unfold same_value. rewrite Ho, (Hnan j Hj). reflexivity. }
    assert (Hfst : List.filter (fun j => same_value o (List.nth j items PNone))
                     (List.map fst sorted) = []).
    { apply filter_none. intros j Hj. apply List.in_map_iff in Hj.
      destruct Hj as (p & <- & Hpin). unfold same_value.
      rewrite Ho, (Hin p Hpin). reflexivity. }
    destruct ascending; [|rewrite List.filter_rev]; rewrite Hfst; reflexivity.
Qed.

Lemma sublist_pair {A} (l : list A) p q a b :
  l !! p = Some a -> l !! q = Some b -> (p < q)%nat -> sublist [a; b] l.
Proof.
  intros Hp Hq Hlt. rewrite <- (take_drop_middle l p a Hp).
  apply sublist_inserts_l, sublist_skip, singleton_sublist_l.
  apply list_elem_of_lookup. exists (q - S p)%nat.
  rewrite lookup_drop. replace (S p + (q - S p))%nat with q by lia. exact Hq.
Qed.

Lemma filter_sublist {A} (f : A -> bool) (l1 l2 : list A) :
  sublist l1 l2 -> sublist (List.filter f l1) (List.filter f l2).
Proof.
  induction 1 as [|x l1 l2 _ IH|x l1 l2 _ IH]; simpl.
  - constructor.
  - destruct (f x); [apply sublist_skip|]; exact IH.
  - destruct (f x); [apply sublist_cons|]; exact IH.
Qed.

Lemma seq_increasing n : forall i, StronglySorted lt (seq i n).
Proof.
  induction n as [|n IH]; intros i; simpl; constructor; [apply IH|].
  rewrite List.Forall_forall. intros j Hj. apply List.in_seq in Hj. lia.
Qed.

Lemma filter_increasing (f : nat -> bool) (l : list nat) :
  StronglySorted lt l -> StronglySorted lt (List.filter f l).
Proof.
  induction 1 as [|x l Hl IH Hx]; simpl; [constructor|].
  destruct (f x); [|exact IH]. constructor; [exact IH|].
  rewrite List.Forall_forall in *. intros y Hy. apply List.filter_In in Hy. apply Hx, Hy.
Qed.

Lemma sorted_pair {A} (R : A -> A -> Prop) (l : list A) a b :
  StronglySorted R l -> sublist [a; b] l -> R a b.
Proof.
  induction 1 as [|x l Hl IH Hx]; intros Hsub.
  - inversion Hsub.
  - inversion Hsub as [|? ? ? Hs|? ? ? Hs]; subst.
    + apply singleton_sublist_l, list_elem_of_In in Hs.
      rewrite List.Forall_forall in Hx. auto.
    + auto.
Qed.

Lemma same_value_refl (o : obj) : same_value o o = true.
Proof.
  unfold same_value, tied. destruct (sort_key o) as [k|]; [|reflexivity].
  destruct (skey_le_total k k) as [H|H]; rewrite H; reflexivity.
Qed.

(** Of two cells with the same sort value, the one that [nargsort] puts first
    was first in the column. *)
Lemma nargsort_keeps_order items ascending indexer p q a b :
  nargsort items ascending = Ok indexer ->
  (p < q)%nat -> indexer !! p = Some a -> indexer !! q = Some b ->
  same_value (List.nth a items PNone) (List.nth b items PNone) = true ->
  (a < b)%nat.
Proof.
  intros Hsort Hlt Hp Hq Hsame.
  pose (f := fun j => same_value (List.nth a items PNone) (List.nth j items PNone)).
  apply (sorted_pair lt (List.filter f (seq 0 (List.length items)))).
  - apply filter_increasing, seq_increasing.
  - unfold f. rewrite <- (nargsort_stable items ascending indexer _ Hsort). fold f.
    replace [a; b] with (List.filter f [a; b]).
    + apply filter_sublist, (sublist_pair indexer p q); assumption.
    + simpl. unfold f at 1 2. rewrite same_value_refl, Hsame. reflexivity.
Qed.

(** ** [run_sort] is stable *)

Section SortStable.
Context {NUM : PyNumerics} {RE : PyRegex}.

Lemma cell_nil j : cell j [] = PNone.
Proof. destruct j; reflexivity. Qed.

Lemma nth_column j (rws : list (list obj)) a :
  List.nth a (List.map (cell j) rws) PNone = cell j (List.nth a rws []).
Proof. rewrite <- (cell_nil j) at 1. apply List.map_nth. Qed.

Lemma sort_values_inv df col ascending df' :
  sort_values df col ascending = Ok df' ->
  exists j d indexer,
    column_index col (schema df) = Some (j, d)
    /\ nargsort (List.map (cell j) (rows df)) ascending = Ok indexer
    /\ df' = take_rows df indexer.
Proof.
  unfold sort_values, getitem.
  destruct (column_index col (schema df)) as [[j d]|]; [|discriminate]. simpl.
  destruct (nargsort _ _) as [indexer|] eqn:Hn; [|discriminate]. simpl.
  intros [= <-]. exists j, d, indexer. auto.
Qed.

Lemma run_sort_inv v df expr df' :
  run_sort_of v df expr = Ok df' ->
  exists col_raw more col ascending,
    tokens expr = col_raw :: more
    /\ column_map df !! lower col_raw = Some col
    /\ sort_values df col ascending = Ok df'.
Proof.
  destruct v; simpl; [unfold M3.run_sort | unfold M4.run_sort, M4.cmap].
  - destruct (is_empty (strip expr)); [discriminate|].
    destruct (tokens expr) as [|col_raw more]; [discriminate|].
    destruct (negb _); [discriminate|].
    destruct (column_map df !! lower col_raw) as [col|] eqn:Hc; [|discriminate].
    intros H. exists col_raw, more, col. eauto.
  - destruct (tokens expr) as [|col_raw more]; [discriminate|].
    destruct (negb _); [discriminate|].
    destruct (column_map df !! lower col_raw) as [col|] eqn:Hc; [|discriminate].
    intros H. exists col_raw, more, col. eauto.
Qed.

(** C3. Whenever [run_sort] returns a table (in either program, for either
    direction), its rows are the rows of the input in the order of an
    indexer that is a permutation of the row numbers; of two rows with the
    same value in the sort column the one that comes first in the result
    came first in the input; so the rows with any one sort value are, in the
    result, in the order they had in the input. *)
Theorem run_sort_stable v df expr df' :
  run_sort_of v df expr = Ok df' ->
  exists col_raw more col j d indexer,
    tokens expr = col_raw :: more
    /\ column_map df !! lower col_raw = Some col
    /\ column_index col (schema df) = Some (j, d)
    /\ schema df' = schema df
    /\ Permutation indexer (seq 0 (len df))
    /\ rows df' = List.map (fun a => List.nth a (rows df) []) indexer
    /\ (forall p q a b,
          (p < q)%nat -> indexer !! p = Some a -> indexer !! q = Some b ->
          same_value (cell j (List.nth a (rows df) [])) (cell j (List.nth b (rows df) [])) = true ->
          (a < b)%nat)
    /\ (forall o,
          List.filter (fun r => same_value o (cell j r)) (rows df')
          = List.filter (fun r => same_value o (cell j r)) (rows df)).
Proof.
  intros H. apply run_sort_inv in H.
  destruct H as (col_raw & more & col & ascending & Htok & Hcol & H).
  apply sort_values_inv in H. destruct H as (j & d & indexer & Hj & Hsort & ->).
  exists col_raw, more, col, j, d, indexer.
  repeat (split; [first [assumption | reflexivity]|]).
  split; [|split; [reflexivity|split]].
  - apply nargsort_perm in Hsort. rewrite List.length_map in Hsort. exact Hsort.
  - intros p q a b Hlt Hp Hq Hsame.
    apply (nargsort_keeps_order _ _ _ p q a b Hsort Hlt Hp Hq).
    rewrite !nth_column. exact Hsame.
  - intros o. simpl. rewrite filter_map_swap.
    rewrite (List.filter_ext _ (fun a => same_value o (List.nth a (List.map (cell j) (rows df)) PNone)))
      by (intros a; rewrite nth_column; reflexivity).
    rewrite (nargsort_stable _ _ _ o Hsort), List.length_map.
    rewrite (List.filter_ext _ (fun a => same_value o (cell j (List.nth a (rows df) []))))
      by (intros a; rewrite nth_column; reflexivity).
    rewrite <- (filter_map_swap (fun r => same_value o (cell j r))), map_nth_seq.
    reflexivity.
Qed.

End SortStable.

(** ** The paginator *)

Lemma ceil_div_bounds n d :
  0 < d -> (ceil_div n d - 1) * d < n <= ceil_div n d * d.
Proof.
  intros Hd. unfold ceil_div.
  pose proof (Z.div_mod (- n) d ltac:(lia)) as Hdm.
  pose proof (Z.mod_pos_bound (- n) d Hd) as Hb.
  nia.
Qed.

Lemma pages_formula n d : 0 < d -> (n - 1) / d + 1 = ceil_div n d.
Proof.
  intros Hd. unfold ceil_div.
  pose proof (Z.div_mod (n - 1) d ltac:(lia)) as Hdm.
  pose proof (Z.mod_pos_bound (n - 1) d Hd) as Hb.
  assert (H : (- n) / d = - ((n - 1) / d) - 1).
  { symmetry. apply (Z.div_unique_pos _ _ _ (d - 1 - (n - 1) mod d)); lia. }
  lia.
Qed.

Lemma slice_length_le {A} (l : list A) (a b : Z) :
  Z.of_nat (List.length (slice l a b))
  <= Z.max 0 (slice_bound (Z.of_nat (List.length l)) b
              - slice_bound (Z.of_nat (List.length l)) a).
Proof. unfold slice. rewrite length_take, length_drop. lia. Qed.

Lemma slice_lookup {A} (l : list A) (a b : Z) k x :
  slice l a b !! k = Some x ->
  l !! (Z.to_nat (slice_bound (Z.of_nat (List.length l)) a) + k)%nat = Some x.
Proof.
  unfold slice. intros H. apply lookup_take_Some in H. destruct H as [H _].
  rewrite lookup_drop in H. exact H.
Qed.

Lemma slice_bound_range n b : 0 <= n -> 0 <= slice_bound n b <= n.
Proof. unfold slice_bound. destruct (Z.ltb_spec b 0); lia. Qed.

(** C4. For a page size of one or more, whatever the number of rows and the
    page number: the number of pages is [max(1, ceil(rows / size))]; [view]
    returns at most [size] rows; and each row of the view is a row of the
    bound table at an index from [(page - 1) * size] up to the last row,
    consecutive rows of the view at consecutive indices. *)
Theorem pager_invariant (p : M4.Pager) :
  1 <= M4.size p ->
  let n := Z.of_nat (len (M4.df p)) in
  M4.pages p = Z.max 1 (ceil_div n (M4.size p))
  /\ (ceil_div n (M4.size p) - 1) * M4.size p < n <= ceil_div n (M4.size p) * M4.size p
  /\ Z.of_nat (len (M4.view p)) <= M4.size p
  /\ schema (M4.view p) = schema (M4.df p)
  /\ exists start,
       0 <= start
       /\ forall k r, rows (M4.view p) !! k = Some r ->
            let j := start + Z.of_nat k in
            (M4.i p - 1) * M4.size p <= j < n
            /\ rows (M4.df p) !! Z.to_nat j = Some r.
Proof.
  intros Hsize n.
  split; [unfold M4.pages; rewrite pages_formula by lia; reflexivity|].
  split; [apply ceil_div_bounds; lia|].
  set (a := (M4.i p - 1) * M4.size p).
  assert (Hn : 0 <= n) by (subst n; lia).
  pose proof (slice_bound_range n a Hn) as Hlo.
  pose proof (slice_bound_range n (a + M4.size p) Hn) as Hhi.
  assert (Hwidth : slice_bound n (a + M4.size p) - slice_bound n a <= M4.size p).
  { unfold slice_bound in *.
    destruct (Z.ltb_spec a 0), (Z.ltb_spec (a + M4.size p) 0); lia. }
  split.
  { unfold M4.view, iloc, len. cbn [rows]. fold a.
    pose proof (slice_length_le (rows (M4.df p)) a (a + M4.size p)) as H.
    fold (len (M4.df p)) in H. fold n in H. lia. }
  split; [reflexivity|].
  exists (slice_bound n a). split; [lia|].
  intros k r Hk. unfold M4.view, iloc in Hk. cbn [rows] in Hk. fold a in Hk.
  apply slice_lookup in Hk. fold (len (M4.df p)) in Hk. fold n in Hk.
  pose proof (lookup_lt_Some _ _ _ Hk) as Hlt. fold (len (M4.df p)) in Hlt.
  cbv zeta.
  replace (Z.to_nat (slice_bound n a + Z.of_nat k))
    with (Z.to_nat (slice_bound n a) + k)%nat by lia.
  split; [|exact Hk].
  split; [|subst n; lia].
  unfold slice_bound in *. destruct (Z.ltb_spec a 0); subst n; lia.
Qed.

(** ** The condition parser *)

Section Parser.
Context {NUM : PyNumerics} {RE : PyRegex}.

Lemma is_empty_eqb s : is_empty s = String.eqb s "".
Proof. destruct s; reflexivity. Qed.

Lemma is_empty_true s : is_empty s = true <-> s = "".
Proof. destruct s; simpl; split; congruence. Qed.

Lemma is_empty_false s : is_empty s = false <-> s <> "".
Proof. destruct s; simpl; split; congruence. Qed.

Lemma coerce_value_to_val text : M3.coerce_value text = M4.to_val text.
Proof. reflexivity. Qed.

Lemma to_val_empty : M4.to_val "" = PStr "".
Proof. reflexivity. Qed.

Lemma parse_cond_split tok : M4.parse_cond tok = parsed tok (first_split OPS tok).
Proof.
  unfold M4.parse_cond. induction OPS as [|op ops IH]; simpl; [reflexivity|].
  destruct (split_once op tok) as [[l r]|]; [|exact IH].
  simpl. rewrite !is_empty_eqb. reflexivity.
Qed.

Lemma parse_condition_split token :
  M3.parse_condition token = parsed (strip token) (first_split OPS (strip token)).
Proof.
  unfold M3.parse_condition. fold OPS. induction OPS as [|op ops IH]; simpl; [reflexivity|].
  destruct (split_once op (strip token)) as [[l r]|]; [|exact IH]. reflexivity.
Qed.

Lemma parser_split v tok :
  parser_of v tok = parsed (scanned v tok) (first_split OPS (scanned v tok)).
Proof. destruct v; [apply parse_condition_split | apply parse_cond_split]. Qed.

(** C7, as the programs have it. The parser (of either program) fails with
    "missing value" exactly when the left side of the split token is not
    empty after trimming, its right side is empty after trimming, and the
    operator is not [~]; a condition with the operator [~], a left side
    that is not empty and an empty right side is accepted, its value being
    the empty string. *)
Theorem missing_value_iff v tok :
  (parser_of v tok = Raise (ValueError MissingValue) <->
   exists op l r,
     first_split OPS (scanned v tok) = Some (op, l, r)
     /\ strip l <> "" /\ strip r = "" /\ op <> "~")
  /\ (forall l r,
        first_split OPS (scanned v tok) = Some ("~", l, r) ->
        strip l <> "" -> strip r = "" ->
        parser_of v tok = Ok (strip l, "~", PStr "")).
Proof.
  rewrite parser_split. split.
  - destruct (first_split OPS (scanned v tok)) as [[[op l] r]|]; simpl.
    + destruct (is_empty (strip l)) eqn:Hl.
      * split; [discriminate|]. intros (op' & l' & r' & [= <- <- <-] & Hne & _).
        apply is_empty_true in Hl. contradiction.
      * apply is_empty_false in Hl.
        destruct (String.eqb_spec op "~") as [->|Hop]; simpl.
        -- split; [discriminate|]. intros (op' & l' & r' & [= <- <- <-] & _ & _ & Hne).
           contradiction.
        -- destruct (is_empty (strip r)) eqn:Hr.
           ++ apply is_empty_true in Hr. split; [|reflexivity].
              intros _. exists op, l, r. auto.
           ++ apply is_empty_false in Hr. split; [discriminate|].
              intros (op' & l' & r' & [= <- <- <-] & _ & He & _). contradiction.
    + split; [discriminate|]. intros (op' & l' & r' & [=] & _).
  - intros l r -> Hl Hr. simpl.
    apply is_empty_false in Hl. rewrite Hl, Hr. reflexivity.
Qed.

End Parser.


(** ** The evaluators on cells that are no numbers *)

Section Evaluator.
Context {NUM : PyNumerics} {RE : PyRegex}.

Lemma cmp_holds_unordered op : cmp_holds op None = String.eqb op "!=".
Proof.
  unfold cmp_holds.
  destruct (String.eqb op "==") eqn:E; [apply String.eqb_eq in E; subst; reflexivity|].
  repeat (match goal with |- context [String.eqb op ?x] => destruct (String.eqb op x) end;
          try reflexivity).
Qed.

Lemma comparison_not_contains op : is_comparison op = true -> String.eqb op "~" = false.
Proof.
  intros H. destruct (String.eqb_spec op "~") as [->|]; [discriminate H | reflexivity].
Qed.

(** The cell that is coerced to NaN is NaN in the array that is compared. *)
Lemma numeric_left_nan (s : Series) idx o :
  values s !! idx = Some o -> to_numeric_obj o = NFloat FNaN ->
  (if is_numeric_dtype (s_dtype s) then numeric_values s else to_numeric (values s))
    !! idx = Some (NFloat FNaN).
Proof.
  intros Ho Hnan.
  assert (H : List.map to_numeric_obj (values s) !! idx = Some (NFloat FNaN)).
  { rewrite list_lookup_fmap, Ho. simpl. rewrite Hnan. reflexivity. }
  destruct (is_numeric_dtype _); [exact H|].
  unfold to_numeric. destruct (forallb _ _); [exact H|].
  rewrite list_lookup_fmap, H. reflexivity.
Qed.

Lemma compare_numeric_nan op left_ val idx :
  M4.is_number val = true -> left_ !! idx = Some (NFloat FNaN) ->
  exists m, compare_numeric op left_ val = Ok m
            /\ m !! idx = Some (String.eqb op "!=").
Proof.
  intros Hnum Hidx.
  destruct val; try discriminate Hnum; simpl; eexists; (split; [reflexivity|]);
    rewrite list_lookup_fmap, Hidx;
    change (Some (cmp_holds op None) = Some (String.eqb op "!="));
    rewrite cmp_holds_unordered; reflexivity.
Qed.

(** C5, as the programs have it. Under a comparison with a number, a cell
    that [to_numeric] coerces to NaN (a text that is no number, a missing
    value) makes the mask false at its row for [==], [>], [>=], [<] and
    [<=], and true for [!=]; the evaluator (of either program) does not
    raise. *)
Theorem unparsed_cell_mask v df col op val s idx o :
  is_comparison op = true ->
  M4.is_number val = true ->
  getitem df col = Ok s ->
  values s !! idx = Some o ->
  to_numeric_obj o = NFloat FNaN ->
  exists m, evaluator_of v df col op val = Ok m
            /\ m !! idx = Some (String.eqb op "!=").
Proof.
  intros Hop Hnum Hs Ho Hnan.
  pose proof (comparison_not_contains op Hop) as Hne.
  pose proof (numeric_left_nan s idx o Ho Hnan) as Hleft.
  destruct (compare_numeric_nan op _ val idx Hnum Hleft) as (m & Hm & Hidx).
  exists m. split; [|exact Hidx].
  destruct v; simpl; [unfold M3.apply_condition | unfold M4.mask_for];
    rewrite Hs; simpl; rewrite Hne.
  - destruct val; try discriminate Hnum; rewrite Hop; exact Hm.
  - rewrite Hnum, Hm. simpl. rewrite Hop. reflexivity.
Qed.

(** [milestone_3]: a text that is no number, compared with any column,
    selects no row. *)
Lemma apply_condition_text df col op text s :
  getitem df col = Ok s ->
  String.eqb op "~" = false ->
  M3.parse_number text = None ->
  M3.apply_condition df col op (PStr text) = Ok (List.map (fun _ => false) (rows df)).
Proof.
  intros Hs Hop Hp. unfold M3.apply_condition. rewrite Hs. simpl.
  rewrite Hop, Hp. reflexivity.
Qed.

(** [milestone_4]: such a text is compared with the text of the cells. *)
Lemma mask_for_text df col op text s :
  getitem df col = Ok s ->
  is_comparison op = true ->
  M4.mask_for df col op (PStr text) = Ok (compare_text op (astype_str s) text).
Proof.
  intros Hs Hop. unfold M4.mask_for. rewrite Hs. simpl.
  rewrite (comparison_not_contains op Hop), Hop. reflexivity.
Qed.

(** C1 at [Age<abc] on a column of integers: [milestone_3] selects no row,
    [milestone_4] compares texts and selects every row. *)
Theorem text_against_numbers :
  M3.apply_condition people "Age" "<" (PStr "abc") = Ok [false; false; false]
  /\ M4.mask_for people "Age" "<" (PStr "abc") = Ok [true; true; true]
  /\ M4.mask_for people "Age" "!=" (PStr "abc") = Ok [true; true; true]
  /\ M4.run_filter people "Age<abc" = Ok people
  /\ M3.run_filter people "Age<abc" = Ok {| schema := schema people; rows := [] |}.
Proof. repeat split; vm_compute; reflexivity. Qed.

(** The mask of [~] on the text of a pattern without operators: the cells
    whose text holds the pattern, letter case aside. *)
Lemma contains_plain v df col val s :
  getitem df col = Ok s ->
  plain_pattern (py_str val) = true ->
  evaluator_of v df col "~" val
  = Ok (List.map (fun o => contains (lower (py_str val)) (lower (py_str o))) (values s)).
Proof.
  intros Hs Hplain.
  assert (H : str_contains (astype_str s) (py_str val) false
              = Ok (List.map (fun o => contains (lower (py_str val)) (lower (py_str o)))
                      (values s))).
  { unfold str_contains, astype_str. rewrite (re_plain_compiles _ Hplain), List.map_map.
    f_equal. apply List.map_ext. intros o. apply re_plain, Hplain. }
  destruct v; simpl; [unfold M3.apply_condition | unfold M4.mask_for];
    rewrite Hs; simpl; exact H.
Qed.

(** C6 at [Name~.] and at [Name~non]: the value is searched as a pattern,
    so that [.] selects the three names, none of which holds a dot; and the
    missing cell, turned into the text [None], is selected by [non]. *)
Theorem contains_searches_a_pattern v :
  evaluator_of v names "Name" "~" (PStr ".") = Ok [true; true; true]
  /\ contains "." (lower "Ali") = false
  /\ contains "." (lower "Bob") = false
  /\ contains "." (lower "Khalid") = false
  /\ evaluator_of v survey "Name" "~" (PStr "non") = Ok [true; false]
  /\ isna PNone = true.
Proof.
  split.
  { destruct v; simpl; [unfold M3.apply_condition | unfold M4.mask_for]; simpl;
      unfold str_contains; rewrite re_dot_compiles; simpl;
      rewrite !re_dot by discriminate; reflexivity. }
  repeat (split; [reflexivity|]).
  split; [|reflexivity].
  rewrite (contains_plain v survey "Name" (PStr "non")
             {| s_dtype := ObjectDtype; values := [PNone; PStr "Bob"] |});
    reflexivity.
Qed.

End Evaluator.

(** ** Expressions without a condition *)

Lemma rstrip_empty s : rstrip s = "" -> all_chars isspace s = true.
Proof.
  induction s as [|c s IH]; simpl; [reflexivity|].
  destruct (rstrip s) eqn:Hr; [|discriminate].
  destruct (isspace c); [|discriminate]. intros _. apply IH. reflexivity.
Qed.

Lemma lstrip_spaces s : all_chars isspace (lstrip s) = true -> all_chars isspace s = true.
Proof.
  induction s as [|c s IH]; simpl; [reflexivity|].
  destruct (isspace c) eqn:Hc; simpl; [exact IH|]. rewrite Hc. discriminate.
Qed.

Lemma strip_empty s : strip s = "" -> all_chars isspace s = true.
Proof. intros H. apply lstrip_spaces, rstrip_empty, H. Qed.

Lemma split_comma_spaces s : all_chars isspace s = true -> split_comma s = [s].
Proof.
  induction s as [|c s IH]; simpl; [reflexivity|].
  intros H. apply andb_true_iff in H. destruct H as [Hc Hs].
  destruct (Ascii.eqb_spec c ",") as [->|_]; [discriminate Hc|].
  rewrite (IH Hs). reflexivity.
Qed.

(** A blank expression has no token. *)
Lemma tokens_blank expr : strip expr = "" -> tokens expr = [].
Proof.
  intros H. unfold tokens. rewrite (split_comma_spaces expr (strip_empty expr H)).
  simpl. rewrite H. reflexivity.
Qed.

Section NoCondition.
Context {NUM : PyNumerics} {RE : PyRegex}.

Lemma select_all df : select_rows df (List.map (fun _ => true) (rows df)) = df.
Proof. destruct df as [sch rws]. unfold select_rows. simpl. rewrite keep_all. reflexivity. Qed.

Lemma unfiltered_cases df :
  (rows df <> [] -> unfiltered df = df)
  /\ (rows df = [] -> unfiltered df = {| schema := []; rows := [] |}).
Proof.
  unfold unfiltered, len, no_columns. destruct (rows df) as [|r t]; simpl; split; congruence.
Qed.

(** With no token left, the loop of [run_filter] is not entered and the
    initial mask selects: every row of a table that has rows, and no column
    of a table that has none; [milestone_3] raises before that on a blank
    expression only. *)
Lemma run_filter_no_tokens df expr :
  tokens expr = [] ->
  M4.run_filter df expr = Ok (unfiltered df)
  /\ (strip expr <> "" -> M3.run_filter df expr = Ok (unfiltered df))
  /\ (strip expr = "" -> M3.run_filter df expr = Raise (ValueError EmptyFilter)).
Proof.
  intros Ht.
  assert (Hsel : getitem_mask df (boolean_mask df []) (List.map (fun _ => true) (rows df))
                 = unfiltered df).
  { unfold getitem_mask, boolean_mask, unfiltered. simpl.
    destruct (Nat.eqb (len df) 0); simpl; [reflexivity | apply select_all]. }
  unfold M4.run_filter, M3.run_filter. rewrite Ht. simpl.
  rewrite Hsel. split; [reflexivity|].
  split; intros H.
  - apply is_empty_false in H. rewrite H. reflexivity.
  - rewrite H. reflexivity.
Qed.

(** C8 at the expressions [,] and blank: on a lone comma neither program
    raises, both return the table as it is when it has rows (and without
    its columns when it has none, the mask being no Series of booleans
    then); on an empty or blank expression [milestone_3] raises "empty
    filter expression" and [milestone_4] returns the table likewise. *)
Theorem run_filter_without_condition df :
  M3.run_filter df "," = Ok (unfiltered df)
  /\ M4.run_filter df "," = Ok (unfiltered df)
  /\ M4.run_filter df " , ," = Ok (unfiltered df)
  /\ M4.run_filter df "" = Ok (unfiltered df)
  /\ M4.run_filter df "  " = Ok (unfiltered df)
  /\ M3.run_filter df "" = Raise (ValueError EmptyFilter)
  /\ M3.run_filter df "  " = Raise (ValueError EmptyFilter)
  /\ (rows df <> [] -> unfiltered df = df)
  /\ (rows df = [] -> unfiltered df = {| schema := []; rows := [] |}).
Proof.
  repeat match goal with |- _ /\ _ => split end;
    first [ apply (run_filter_no_tokens df); reflexivity
          | apply (run_filter_no_tokens df); [reflexivity | discriminate]
          | apply unfiltered_cases ].
Qed.

End NoCondition.

(** ** The page size *)

(** C9, as the program has it. The [pagesize] command never fails with
    "invalid size": for an argument made of digits whose value is [n] it
    sets the size to [max(1, n)], which is [n] when [n >= 1] and one when
    [n < 1], and resets the page to one; an argument that is not made of
    digits (a negative number, say) leaves the pager as it was and gets the
    usage line.  [Pager(df, n)] clamps the size in the same way. *)
Theorem pagesize_clamps (pager : M4.Pager) (arg : string) :
  (isdigit arg = false ->
   M4.cmd_pagesize pager arg = (pager, [M4.Usage "Usage: pagesize N"]))
  /\ (forall n, isdigit arg = true -> py_int arg = Some n ->
        M4.cmd_pagesize pager arg
        = ({| M4.df := M4.df pager; M4.size := Z.max 1 n; M4.i := 1 |},
           [M4.Line ("Page size: " ++ str_of_int (Z.max 1 n))])
        /\ (1 <= n -> Z.max 1 n = n)
        /\ (n < 1 -> Z.max 1 n = 1))
  /\ (forall d n, M4.Pager_init d n = {| M4.df := d; M4.size := Z.max 1 n; M4.i := 1 |}).
Proof.
  unfold M4.cmd_pagesize. split; [intros ->; reflexivity|].
  split; [|reflexivity].
  intros n -> ->. simpl. split; [reflexivity|]. lia.
Qed.

(** ** Conditions on a column whose name can be spelled *)

Lemma append_cons c (a b : string) : (String c a ++ b)%string = String c (a ++ b).
Proof. reflexivity. Qed.

Lemma all_chars_app p (a b : string) :
  all_chars p (a ++ b) = all_chars p a && all_chars p b.
Proof.
  induction a as [|c a IH]; [reflexivity|].
  rewrite append_cons. simpl. rewrite IH. apply andb_assoc.
Qed.

Lemma all_chars_weaken (p q : ascii -> bool) s :
  (forall c, p c = true -> q c = true) -> all_chars p s = true -> all_chars q s = true.
Proof.
  intros Hpq. induction s as [|c s IH]; simpl; [reflexivity|].
  intros H. apply andb_true_iff in H. destruct H as [Hc Hs].
  rewrite (Hpq c Hc), (IH Hs). reflexivity.
Qed.

Lemma startswith_drop sep : forall s,
  startswith sep s = true -> s = (sep ++ drop_chars (String.length sep) s)%string.
Proof.
  induction sep as [|a sep IH]; intros [|b s]; simpl; try reflexivity; try discriminate.
  intros H. apply andb_true_iff in H. destruct H as [Hab Hs].
  apply Ascii.eqb_eq in Hab. subst b.
  change (String a s = String a (sep ++ drop_chars (String.length sep) s)).
  f_equal. apply IH, Hs.
Qed.

(** [split_once] cuts the string around an occurrence of the separator. *)
Lemma split_once_app sep : forall s l r,
  split_once sep s = Some (l, r) -> s = (l ++ sep ++ r)%string.
Proof.
  induction s as [|c s IH]; intros l r; simpl.
  - destruct (startswith sep "") eqn:Hs; [|discriminate].
    intros [= <- <-]. apply (startswith_drop sep "" Hs).
  - destruct (startswith sep (String c s)) eqn:Hs.
    + intros [= <- <-]. apply (startswith_drop sep (String c s) Hs).
    + destruct (split_once sep s) as [[l' r']|]; [|discriminate].
      intros [= <- <-]. rewrite append_cons. f_equal. apply IH. reflexivity.
Qed.

Lemma split_once_absent p sep s :
  all_chars p s = true -> all_chars p sep = false -> split_once sep s = None.
Proof.
  intros Hs Hsep. destruct (split_once sep s) as [[l r]|] eqn:H; [|reflexivity].
  apply split_once_app in H. subst s.
  rewrite !all_chars_app, Hsep, andb_false_r in Hs. discriminate.
Qed.


Lemma last_char_app col c : last_char (col ++ String c "") = Some c.
Proof.
  induction col as [|x col IH]; [reflexivity|].
  simpl. rewrite IH. destruct (col ++ String c "")%string eqn:E; [|reflexivity].
  destruct col; discriminate E.
Qed.

Lemma rstrip_fixed s d : last_char s = Some d -> isspace d = false -> rstrip s = s.
Proof.
  induction s as [|c s IH]; [discriminate|].
  destruct s as [|c' s].
  - simpl. intros [= ->] ->. reflexivity.
  - intros Hl Hd. change (last_char (String c (String c' s)))
      with (last_char (String c' s)) in Hl.
    specialize (IH Hl Hd). change (rstrip (String c (String c' s)))
      with (match rstrip (String c' s) with
            | EmptyString => if isspace c then EmptyString else String c EmptyString
            | r => String c r
            end).
    rewrite IH. reflexivity.
Qed.

Lemma strip_fixed c s d :
  isspace c = false -> last_char (String c s) = Some d -> isspace d = false ->
  strip (String c s) = String c s.
Proof.
  intros Hc Hl Hd. unfold strip. simpl lstrip. rewrite Hc.
  apply (rstrip_fixed _ d Hl Hd).
Qed.

Lemma split_comma_none s :
  all_chars (fun c => negb (Ascii.eqb c ",")) s = true -> split_comma s = [s].
Proof.
  induction s as [|c s IH]; simpl; [reflexivity|].
  intros H. apply andb_true_iff in H. destruct H as [Hc Hs].
  apply negb_true_iff in Hc. rewrite Hc, (IH Hs). reflexivity.
Qed.

Lemma spellable_inv col :
  spellable col = true ->
  exists c s d,
    col = String c s /\ isspace c = false
    /\ last_char col = Some d /\ isspace d = false
    /\ all_chars (fun c => negb (operator_char c)) col = true.
Proof.
  unfold spellable. destruct col as [|c s]; [discriminate|].
  destruct (last_char (String c s)) as [d|]; [|discriminate].
  intros H. apply andb_true_iff in H. destruct H as [H Hall].
  apply andb_true_iff in H. destruct H as [Hc Hd].
  apply negb_true_iff in Hc, Hd. exists c, s, d. auto.
Qed.

Lemma operator_char_cases c :
  operator_char c = false ->
  Ascii.eqb c "=" = false /\ Ascii.eqb c ">" = false /\ Ascii.eqb c "<" = false
  /\ Ascii.eqb c "~" = false /\ Ascii.eqb c "," = false.
Proof.
  unfold operator_char. cbn [existsb]. rewrite !orb_false_iff. tauto.
Qed.





(** ** The contains operator with an empty right side *)

Section EmptyContains.
Context {NUM : PyNumerics} {RE : PyRegex}.

Lemma column_index_In col sch :
  In col (List.map fst sch) -> exists j d, column_index col sch = Some (j, d).
Proof.
  induction sch as [|[c d] t IH]; simpl; [intros []|].
  destruct (String.eqb_spec c col) as [->|Hne]; [eauto|].
  intros [H|H]; [contradiction|].
  destruct (IH H) as (j & d' & ->). eauto.
Qed.

Lemma getitem_In df col :
  In col (columns df) ->
  exists j d, getitem df col = Ok {| s_dtype := d; values := List.map (cell j) (rows df) |}.
Proof.
  intros H. destruct (column_index_In col (schema df) H) as (j & d & Hj).
  exists j, d. unfold getitem. rewrite Hj. reflexivity.
Qed.

Lemma foldl_insert_lookup (cols : list string) : forall (m : gmap string string) key col,
  foldl (fun m c => <[lower c := c]> m) m cols !! key = Some col ->
  m !! key = Some col \/ In col cols.
Proof.
  induction cols as [|c t IH]; intros m key col; simpl; [auto|].
  intros H. apply IH in H. destruct H as [H|H]; [|auto].
  destruct (decide (lower c = key)) as [<-|Hne].
  - rewrite lookup_insert_eq in H. injection H as <-. auto.
  - rewrite lookup_insert_ne in H by exact Hne. auto.
Qed.

(** The column index maps to columns of the table. *)
Lemma column_map_In df key col : column_map df !! key = Some col -> In col (columns df).
Proof.
  intros H. apply foldl_insert_lookup in H. destruct H as [H|H]; [|exact H].
  rewrite lookup_empty in H. discriminate.
Qed.







End EmptyContains.

(** ** [run_sort] sorts *)

Lemma sorted_by_app {A} (le : A -> A -> bool) (l1 l2 : list A) :
  sorted_by le l1 -> sorted_by le l2 ->
  (forall a b, In a l1 -> In b l2 -> le a b = true) ->
  sorted_by le (l1 ++ l2).
Proof.
  unfold sorted_by. induction l1 as [|x t IH]; intros H1 H2 Hcross; [exact H2|].
  inversion H1 as [|? ? Ht Hx]; subst. simpl. constructor.
  - apply IH; [exact Ht | exact H2 |]. intros a b Ha Hb. apply Hcross; [right|]; assumption.
  - rewrite List.Forall_forall in *. intros y Hy. apply in_app_or in Hy.
    destruct Hy as [Hy|Hy]; [auto|]. apply Hcross; [left; reflexivity | exact Hy].
Qed.

Lemma sorted_by_rev {A} (le : A -> A -> bool) (l : list A) :
  sorted_by le l -> sorted_by (fun a b => le b a) (List.rev l).
Proof.
  unfold sorted_by. induction 1 as [|x t Ht IH Hx]; simpl; [constructor|].
  apply (sorted_by_app (fun a b => le b a)); [exact IH | repeat constructor |].
  intros a b Ha Hb. destruct Hb as [<-|Hb]; [|destruct Hb]. apply List.in_rev in Ha.
  rewrite List.Forall_forall in Hx. auto.
Qed.

Lemma sorted_by_keys (l : list (nat * skey)) :
  sorted_by key_le l -> sorted_by skey_le (List.map snd l).
Proof.
  unfold sorted_by. induction 1 as [|x t Ht IH Hx]; simpl; constructor; [exact IH|].
  rewrite List.Forall_forall in *. intros k Hk. apply List.in_map_iff in Hk.
  destruct Hk as (p & <- & Hp). apply (Hx p Hp).
Qed.

Lemma map_missing (g : nat -> option skey) (l : list nat) :
  (forall j, In j l -> g j = None) -> List.map g l = List.repeat None (List.length l).
Proof.
  induction l as [|j t IH]; intros H; simpl; [reflexivity|].
  rewrite (H j (or_introl eq_refl)), IH by (intros k Hk; apply H; right; exact Hk).
  reflexivity.
Qed.

(** The sort values along the indexer of [nargsort]: those of the cells that
    are present, in the order of the direction, then the missing ones. *)
Lemma nargsort_sorted items ascending indexer :
  nargsort items ascending = Ok indexer ->
  exists ks m,
    List.map (fun j => sort_key (List.nth j items PNone)) indexer
    = List.map Some ks ++ List.repeat None m
    /\ sorted_by (direction_le ascending) ks.
Proof.
  intros H. apply nargsort_shape in H. destruct H as (sorted & Hp & Hs & _ & ->).
  assert (Hin : List.map (fun j => sort_key (List.nth j items PNone)) (List.map fst sorted)
                = List.map Some (List.map snd sorted)).
  { rewrite !List.map_map. apply List.map_ext_in. intros p Hpin.
    apply (Permutation_in _ Hp), non_nans_spec in Hpin.
    rewrite Nat.sub_0_r in Hpin. apply Hpin. }
  assert (Hnan : List.map (fun j => sort_key (List.nth j items PNone)) (nan_idx 0 items)
                 = List.repeat None (List.length (nan_idx 0 items))).
  { apply map_missing. intros j Hj. apply nan_idx_spec in Hj.
    rewrite Nat.sub_0_r in Hj. apply Hj. }
  apply sorted_by_keys in Hs.
  destruct ascending.
  - exists (List.map snd sorted), (List.length (nan_idx 0 items)).
    rewrite List.map_app, Hin, Hnan. split; [reflexivity | exact Hs].
  - exists (List.rev (List.map snd sorted)), (List.length (nan_idx 0 items)).
    rewrite List.map_app, List.map_rev, Hin, Hnan, <- List.map_rev.
    split; [reflexivity|]. apply (sorted_by_rev skey_le), Hs.
Qed.

Section SortSorted.
Context {NUM : PyNumerics} {RE : PyRegex}.

Lemma run_sort_direction v df expr df' :
  run_sort_of v df expr = Ok df' ->
  exists col_raw more col,
    tokens expr = col_raw :: more
    /\ column_map df !! lower col_raw = Some col
    /\ sort_values df col (negb (descending more)) = Ok df'.
Proof.
  assert (Hdir : forall more : list string,
            negb (String.eqb (match more with o :: _ => lower o | [] => "asc" end) "asc"
                  || String.eqb (match more with o :: _ => lower o | [] => "asc" end) "desc")
            = false ->
            String.eqb (match more with o :: _ => lower o | [] => "asc" end) "asc"
            = negb (descending more)).
  { intros [|o more]; simpl; [reflexivity|].
    destruct (String.eqb_spec (lower o) "asc") as [->|_]; [reflexivity|].
    destruct (String.eqb (lower o) "desc"); [reflexivity | discriminate]. }
  destruct v; simpl; [unfold M3.run_sort | unfold M4.run_sort, M4.cmap].
  - destruct (is_empty (strip expr)); [discriminate|].
    destruct (tokens expr) as [|col_raw more]; [discriminate|].
    destruct (negb _) eqn:Ho; [discriminate|].
    destruct (column_map df !! lower col_raw) as [col|] eqn:Hc; [|discriminate].
    rewrite (Hdir more Ho). intros H. exists col_raw, more, col. auto.
  - destruct (tokens expr) as [|col_raw more]; [discriminate|].
    destruct (negb _) eqn:Ho; [discriminate|].
    destruct (column_map df !! lower col_raw) as [col|] eqn:Hc; [|discriminate].
    rewrite (Hdir more Ho). intros H. exists col_raw, more, col. auto.
Qed.

(** Whenever [run_sort] returns a table, the sort column of the result holds
    the values that are present first, ascending, or descending when the
    second token is [desc], and the missing values after them. *)
Theorem run_sort_sorted v df expr df' :
  run_sort_of v df expr = Ok df' ->
  exists col_raw more col j d ks m,
    tokens expr = col_raw :: more
    /\ column_map df !! lower col_raw = Some col
    /\ column_index col (schema df) = Some (j, d)
    /\ List.map (fun r => sort_key (cell j r)) (rows df')
       = List.map Some ks ++ List.repeat None m
    /\ sorted_by (direction_le (negb (descending more))) ks.
Proof.
  intros H. apply run_sort_direction in H.
  destruct H as (col_raw & more & col & Htok & Hcol & H).
  apply sort_values_inv in H. destruct H as (j & d & indexer & Hj & Hsort & ->).
  apply nargsort_sorted in Hsort. destruct Hsort as (ks & m & Hks & Hsorted).
  exists col_raw, more, col, j, d, ks, m.
  repeat (split; [assumption|]). split; [|exact Hsorted].
  simpl. rewrite List.map_map, <- Hks. apply List.map_ext.
  intros a. rewrite nth_column. reflexivity.
Qed.

End SortSorted.

(** ** [run_sort] returns *)

(** The cells that [nargsort] puts last are the ones that [isna] marks. *)
Lemma sort_key_isna (o : obj) : sort_key o = None <-> isna o = true.
Proof.
  destruct o as [|b|z|[|[|]|q]|s]; simpl; split; congruence.
Qed.

Section SortReturns.
Context {NUM : PyNumerics} {RE : PyRegex}.

(** [run_sort] (of either program) returns a table whenever the first token
    resolves to a column, the second token, if there is one, is [asc] or
    [desc] in any letter case, and the values of the column that are present
    are all numbers or all strings. *)
Theorem run_sort_returns v df expr col_raw more col s :
  tokens expr = col_raw :: more ->
  match more with
  | o :: _ => lower o = "asc" \/ lower o = "desc"
  | [] => True
  end ->
  column_map df !! lower col_raw = Some col ->
  getitem df col = Ok s ->
  comparable (List.map snd (non_nans 0 (values s))) = true ->
  exists df', run_sort_of v df expr = Ok df'.
Proof.
  intros Ht Hdir Hc Hs Hcmp.
  assert (Horder : negb (String.eqb (match more with o :: _ => lower o | [] => "asc" end) "asc"
                         || String.eqb (match more with o :: _ => lower o | [] => "asc" end) "desc")
                   = false).
  { destruct more as [|o more]; [reflexivity|].
    destruct Hdir as [-> | ->]; reflexivity. }
  assert (Hsort : forall ascending, exists df', sort_values df col ascending = Ok df').
  { intros ascending. unfold sort_values. rewrite Hs. simpl.
    unfold nargsort. rewrite Hcmp. simpl. eauto. }
  destruct v; simpl; [unfold M3.run_sort | unfold M4.run_sort, M4.cmap].
  - destruct (is_empty (strip expr)) eqn:He.
    + apply is_empty_true, tokens_blank in He. rewrite He in Ht. discriminate.
    + rewrite Ht, Horder, Hc. apply Hsort.
  - rewrite Ht, Horder, Hc. apply Hsort.
Qed.

End SortReturns.

(** ** The page stays within the pages *)

Lemma pages_positive (p : M4.Pager) : 1 <= M4.pages p.
Proof. unfold M4.pages. lia. Qed.

(** Every command that moves the pager leaves the page between one and the
    number of pages, and binding a table or setting the size puts it at
    one. *)
Theorem page_stays_in_range (p : M4.Pager) (arg : string) (d : DataFrame) :
  1 <= M4.i p <= M4.pages p ->
  (forall p', p' = fst (M4.cmd_page p arg) \/ p' = fst (M4.cmd_next p)
              \/ p' = fst (M4.cmd_prev p) \/ p' = fst (M4.cmd_pagesize p arg)
              \/ p' = M4.set_df p d ->
     1 <= M4.i p' <= M4.pages p')
  /\ M4.i (M4.set_df p d) = 1
  /\ M4.size (M4.set_df p d) = M4.size p.
Proof.
  intros Hi. split; [|split; reflexivity].
  intros p' [-> | [-> | [-> | [-> | ->]]]].
  - unfold M4.cmd_page. destruct (negb (isdigit arg)); [exact Hi|].
    destruct (py_int arg) as [n|]; [|exact Hi]. simpl.
    change (M4.pages {| M4.df := M4.df p; M4.size := M4.size p;
                        M4.i := Z.max 1 (Z.min n (M4.pages p)) |})
      with (M4.pages p).
    pose proof (pages_positive p). lia.
  - unfold M4.cmd_next. destruct (Z.leb_spec (M4.pages p) (M4.i p)); [exact Hi|]. simpl.
    change (M4.pages {| M4.df := M4.df p; M4.size := M4.size p; M4.i := M4.i p + 1 |})
      with (M4.pages p). lia.
  - unfold M4.cmd_prev. destruct (Z.leb_spec (M4.i p) 1); [exact Hi|]. simpl.
    change (M4.pages {| M4.df := M4.df p; M4.size := M4.size p; M4.i := M4.i p - 1 |})
      with (M4.pages p). lia.
  - unfold M4.cmd_pagesize. destruct (negb (isdigit arg)); [exact Hi|].
    destruct (py_int arg) as [n|]; [|exact Hi]. simpl.
    match goal with |- _ <= _ <= M4.pages ?q => pose proof (pages_positive q) end. lia.
  - simpl. pose proof (pages_positive (M4.set_df p d)). unfold M4.set_df in *. lia.
Qed.


(** ** The column index *)

Lemma column_map_last_named df key :
  column_map df !! key = last_named key (columns df).
Proof.
  unfold column_map, last_named.
  induction (columns df) as [|c cols IH] using List.rev_ind; [apply lookup_empty|].
  rewrite foldl_app, List.rev_app_distr. simpl.
  destruct (String.eqb_spec (lower c) key) as [->|Hne].
  - apply lookup_insert_eq.
  - rewrite lookup_insert_ne by exact Hne. exact IH.
Qed.

Lemma map_injective_on {A B} (f : A -> B) (l : list A) a b :
  List.NoDup (List.map f l) -> In a l -> In b l -> f a = f b -> a = b.
Proof.
  induction l as [|x t IH]; simpl; [intros _ []|].
  intros Hnd Ha Hb Hab. inversion Hnd as [|? ? Hx Ht]; subst.
  destruct Ha as [->|Ha], Hb as [->|Hb]; auto.
  - exfalso. apply Hx. rewrite Hab. apply List.in_map, Hb.
  - exfalso. apply Hx. rewrite <- Hab. apply List.in_map, Ha.
Qed.

(** The column index ([cmap], [column_map]) maps a lowercase name to the
    last column of the table that has it; a name is missing from it exactly
    when no column has it; every column is found under its own lowercase
    name, and is found itself when no two columns differ by letter case
    only. *)
Theorem column_index_lookup df key :
  column_map df !! key = last_named key (columns df)
  /\ (forall col, column_map df !! key = Some col ->
        In col (columns df) /\ lower col = key)
  /\ (column_map df !! key = None <->
      forall col, In col (columns df) -> lower col <> key)
  /\ (forall col, In col (columns df) ->
        exists col', column_map df !! lower col = Some col' /\ lower col' = lower col)
  /\ (List.NoDup (List.map lower (columns df)) ->
      forall col, In col (columns df) -> column_map df !! lower col = Some col).
Proof.
  assert (Hsome : forall k col, column_map df !! k = Some col ->
            In col (columns df) /\ lower col = k).
  { intros k col. rewrite column_map_last_named. unfold last_named. intros H.
    apply List.find_some in H. destruct H as [Hin Heq].
    split; [apply List.in_rev, Hin | apply String.eqb_eq, Heq]. }
  assert (Hfound : forall col, In col (columns df) ->
            exists col', column_map df !! lower col = Some col' /\ lower col' = lower col).
  { intros col Hin. destruct (column_map df !! lower col) as [col'|] eqn:E.
    - exists col'. split; [reflexivity | apply (Hsome _ _ E)].
    - exfalso. rewrite column_map_last_named in E. unfold last_named in E.
      pose proof (List.find_none _ _ E col (proj1 (List.in_rev _ _) Hin)) as H.
      simpl in H. rewrite String.eqb_refl in H. discriminate. }
  split; [apply column_map_last_named|].
  split; [apply Hsome|]. split; [|split; [exact Hfound|]].
  - split.
    + intros Hnone col Hin Heq. destruct (Hfound col Hin) as (col' & Hc & _).
      rewrite Heq, Hnone in Hc. discriminate.
    + intros Hall. destruct (column_map df !! key) as [col|] eqn:E; [|reflexivity].
      destruct (Hsome _ _ E) as [Hin Heq]. exfalso. apply (Hall col Hin Heq).
  - intros Hnd col Hin. destruct (Hfound col Hin) as (col' & Hc & Heq).
    rewrite Hc. f_equal. destruct (Hsome _ _ Hc) as [Hin' _].
    apply (map_injective_on lower (columns df)); assumption.
Qed.

(** ** What the parsers accept *)

Lemma startswith_app sep r : startswith sep (sep ++ r) = true.
Proof.
  induction sep as [|a sep IH]; [reflexivity|].
  rewrite append_cons. simpl. rewrite Ascii.eqb_refl. exact IH.
Qed.

Lemma split_once_none sep : forall s, split_once sep s = None -> contains sep s = false.
Proof.
  induction s as [|c s IH]; simpl.
  - destruct (startswith sep ""); [discriminate | reflexivity].
  - destruct (startswith sep (String c s)); [discriminate|].
    destruct (split_once sep s) as [[l r]|]; [discriminate|].
    intros _. apply IH. reflexivity.
Qed.

(** [split_once] cuts at the first occurrence. *)
Lemma split_once_first sep : forall s l r,
  split_once sep s = Some (l, r) ->
  forall l' r', s = (l' ++ sep ++ r')%string -> (String.length l <= String.length l')%nat.
Proof.
  induction s as [|c s IH]; intros l r; simpl.
  - destruct (startswith sep ""); [|discriminate]. intros [= <- <-] l' r' _. simpl. lia.
  - destruct (startswith sep (String c s)) eqn:Hs.
    + intros [= <- <-] l' r' _. simpl. lia.
    + destruct (split_once sep s) as [[l1 r1]|] eqn:Hsp; [|discriminate].
      intros [= <- <-] l' r' Heq. destruct l' as [|c' l'].
      * change (String c s = (sep ++ r')%string) in Heq.
        rewrite Heq, startswith_app in Hs. discriminate.
      * rewrite append_cons in Heq. injection Heq as <- Heq.
        simpl. apply le_n_S. apply (IH l1 r1 eq_refl l' r' Heq).
Qed.

Lemma first_split_spec ops tok op l r :
  first_split ops tok = Some (op, l, r) ->
  split_once op tok = Some (l, r)
  /\ In op ops
  /\ forall op', In op' (tried_before op ops) -> split_once op' tok = None.
Proof.
  induction ops as [|o rest IH]; simpl; [discriminate|].
  destruct (split_once o tok) as [[l' r']|] eqn:Ho.
  - intros [= <- <- <-]. rewrite String.eqb_refl. split; [exact Ho|].
    split; [left; reflexivity | intros ? []].
  - intros H. destruct (IH H) as (Hs & Hin & Hbefore).
    split; [exact Hs|]. split; [right; exact Hin|].
    destruct (String.eqb o op); [intros ? []|].
    intros op' [<-|Hop']; [exact Ho | apply Hbefore, Hop'].
Qed.

Section ParserSound.
Context {NUM : PyNumerics} {RE : PyRegex}.

(** A token that a parser (of either program) accepts is a left side, an
    operator and a right side, where the operator is the first of [==],
    [!=], [>=], [<=], [>], [<], [~] that occurs in the token, cut at its
    first occurrence; the column is the left side without the blanks around
    it and is not empty, the value is the right side coerced, and the right
    side is not blank unless the operator is [~]. *)
Theorem parser_cuts_at_first_operator v tok col op val :
  parser_of v tok = Ok (col, op, val) ->
  exists l r,
    scanned v tok = (l ++ op ++ r)%string
    /\ In op OPS
    /\ (forall op', In op' (tried_before op OPS) -> contains op' (scanned v tok) = false)
    /\ (forall l' r', scanned v tok = (l' ++ op ++ r')%string ->
          (String.length l <= String.length l')%nat)
    /\ col = strip l /\ col <> ""
    /\ val = M4.to_val (strip r)
    /\ (op <> "~" -> strip r <> "").
Proof.
  rewrite parser_split. unfold parsed.
  destruct (first_split OPS (scanned v tok)) as [[[op' l] r]|] eqn:Hsp; [|discriminate].
  destruct (is_empty (strip l)) eqn:Hl; [discriminate|].
  destruct (negb (String.eqb op' "~") && is_empty (strip r)) eqn:Hr; [discriminate|].
  intros [= <- <- <-]. apply first_split_spec in Hsp. destruct Hsp as (Hs & Hin & Hbefore).
  exists l, r.
  split; [apply (split_once_app _ _ _ _ Hs)|]. split; [exact Hin|].
  split; [intros o Ho; apply split_once_none, Hbefore, Ho|].
  split; [apply (split_once_first _ _ _ _ Hs)|].
  split; [reflexivity|]. split; [apply is_empty_false, Hl|]. split; [reflexivity|].
  intros Hop. apply is_empty_false.
  apply andb_false_iff in Hr. destruct Hr as [Hr|Hr]; [|exact Hr].
  apply negb_false_iff, String.eqb_eq in Hr. contradiction.
Qed.

End ParserSound.

(** ** Conditions that are spelled out *)

Lemma rstrip_idem s : rstrip (rstrip s) = rstrip s.
Proof.
  induction s as [|c s IH]; [reflexivity|].
  simpl. destruct (rstrip s) as [|x r] eqn:E.
  - destruct (isspace c) eqn:Hc; [reflexivity|]. simpl. rewrite Hc. reflexivity.
  - change (rstrip (String c (String x r)))
      with (match rstrip (String x r) with
            | EmptyString => if isspace c then EmptyString else String c EmptyString
            | r0 => String c r0
            end).
    rewrite IH. reflexivity.
Qed.

Lemma rstrip_cons c s : isspace c = false -> rstrip (String c s) = String c (rstrip s).
Proof. intros Hc. simpl. rewrite Hc. destruct (rstrip s); reflexivity. Qed.

Lemma lstrip_head s :
  lstrip s = "" \/ exists c t, lstrip s = String c t /\ isspace c = false.
Proof.
  induction s as [|c s IH]; [left; reflexivity|].
  simpl. destruct (isspace c) eqn:Hc; [exact IH|]. right. eauto.
Qed.

Lemma strip_idem s : strip (strip s) = strip s.
Proof.
  unfold strip. destruct (lstrip_head s) as [->|(c & t & -> & Hc)]; [reflexivity|].
  rewrite (rstrip_cons c t Hc). simpl lstrip. rewrite Hc.
  rewrite (rstrip_cons c _ Hc), rstrip_idem. reflexivity.
Qed.

Lemma drop_last_app s c : drop_last (s ++ String c "") = s.
Proof.
  induction s as [|x s IH]; [reflexivity|].
  rewrite append_cons. simpl. rewrite IH.
  destruct (s ++ String c "")%string eqn:E; [|reflexivity].
  destruct s; discriminate E.
Qed.

Lemma last_char_none s : last_char s = None -> s = "".
Proof.
  induction s as [|c s IH]; [reflexivity|].
  simpl. destruct s; [discriminate|]. intros H. discriminate (IH H).
Qed.

Lemma last_char_append (a b : string) :
  last_char (a ++ b) = match last_char b with Some d => Some d | None => last_char a end.
Proof.
  induction a as [|x a IH].
  - change ("" ++ b)%string with b. destruct (last_char b); reflexivity.
  - rewrite append_cons. destruct (a ++ b)%string as [|y r] eqn:E.
    + destruct a; [|discriminate E]. change ("" ++ b)%string with b in E. subst b. reflexivity.
    + change (last_char (String x (String y r))) with (last_char (String y r)).
      rewrite IH. destruct (last_char b) eqn:Hb; [reflexivity|].
      apply last_char_none in Hb. subst b.
      destruct a; [discriminate E | reflexivity].
Qed.

(** A string of two characters or more is what is before its last character,
    then that character. *)
Lemma drop_last_last s d : last_char s = Some d -> s = (drop_last s ++ String d "")%string.
Proof.
  induction s as [|c s IH]; [discriminate|].
  destruct s as [|c' s]; [intros [= ->]; reflexivity|].
  intros H. change (last_char (String c (String c' s))) with (last_char (String c' s)) in H.
  change (drop_last (String c (String c' s))) with (String c (drop_last (String c' s))).
  rewrite append_cons. f_equal. apply IH, H.
Qed.

Lemma unquote_quoted q inner :
  q = quote \/ q = dquote ->
  unquote (String q (inner ++ String q "")) = Some inner.
Proof.
  intros Hq. unfold unquote.
  destruct (inner ++ String q "")%string as [|x r] eqn:E; [destruct inner; discriminate E|].
  rewrite <- E, last_char_app, drop_last_app, Ascii.eqb_refl.
  destruct Hq as [-> | ->]; reflexivity.
Qed.

Lemma unquote_inv s inner :
  unquote s = Some inner ->
  exists q, (q = quote \/ q = dquote) /\ s = String q (inner ++ String q "").
Proof.
  unfold unquote. destruct s as [|c [|c' s]]; try discriminate.
  destruct (last_char (String c' s)) as [d|] eqn:Hl; [|rewrite andb_false_r; discriminate].
  destruct (Ascii.eqb c quote || Ascii.eqb c dquote) eqn:Hq; [|discriminate].
  destruct (Ascii.eqb_spec c d) as [<-|]; [|discriminate].
  intros [= <-]. exists c. split.
  - apply orb_true_iff in Hq. destruct Hq as [Hq|Hq]; apply Ascii.eqb_eq in Hq; auto.
  - f_equal. apply drop_last_last, Hl.
Qed.

Lemma split_once_cons sep c s :
  startswith sep (String c s) = false ->
  split_once sep (String c s)
  = match split_once sep s with
    | Some (l, r) => Some (String c l, r)
    | None => None
    end.
Proof. intros H. simpl. rewrite H. reflexivity. Qed.

Lemma split_once_start sep s :
  startswith sep s = true -> split_once sep s = Some ("", drop_chars (String.length sep) s).
Proof. intros H. destruct s; simpl; rewrite H; reflexivity. Qed.

Lemma startswith_cons a p c s :
  startswith (String a p) (String c s) = Ascii.eqb a c && startswith p s.
Proof. reflexivity. Qed.

Lemma startswith_other a sep c s :
  Ascii.eqb c a = false -> startswith (String a sep) (String c s) = false.
Proof. intros H. simpl. rewrite Ascii.eqb_sym, H. reflexivity. Qed.

Lemma plain_text_head a sep s :
  operator_char a = true -> plain_text s = true -> startswith (String a sep) s = false.
Proof.
  destruct s as [|c s]; [reflexivity|]. intros Ha H. apply andb_true_iff in H.
  destruct H as [Hc _]. apply negb_true_iff in Hc.
  apply startswith_other. destruct (Ascii.eqb_spec c a); [congruence | reflexivity].
Qed.

(** A character that belongs to no operator, in front of a condition: the
    condition is split where it was, unless the character is [!] in front
    of an [=] that is no part of [==]. *)
Lemma first_split_cons c s op l r :
  operator_char c = false ->
  first_split OPS s = Some (op, l, r) ->
  startswith "!=" (String c s) = false \/ op = "==" ->
  first_split OPS (String c s) = Some (op, String c l, r).
Proof.
  intros Hc H Hbang. destruct (operator_char_cases c Hc) as (E1 & E2 & E3 & E4 & _).
  unfold OPS in *. cbn [first_split] in *.
  rewrite (split_once_cons "==" c s (startswith_other _ _ _ _ E1)).
  destruct (split_once "==" s) as [[l1 r1]|]; [injection H as <- <- <-; reflexivity|].
  assert (Hb : startswith "!=" (String c s) = false).
  { destruct Hbang as [Hb | ->]; [exact Hb|]. exfalso.
    repeat match type of H with
           | match ?x with _ => _ end = _ => destruct x as [[? ?]|]
           end; discriminate H. }
  rewrite (split_once_cons "!=" c s Hb).
  destruct (split_once "!=" s) as [[l1 r1]|]; [injection H as <- <- <-; reflexivity|].
  rewrite (split_once_cons ">=" c s (startswith_other _ _ _ _ E2)).
  destruct (split_once ">=" s) as [[l1 r1]|]; [injection H as <- <- <-; reflexivity|].
  rewrite (split_once_cons "<=" c s (startswith_other _ _ _ _ E3)).
  destruct (split_once "<=" s) as [[l1 r1]|]; [injection H as <- <- <-; reflexivity|].
  rewrite (split_once_cons ">" c s (startswith_other _ _ _ _ E2)).
  destruct (split_once ">" s) as [[l1 r1]|]; [injection H as <- <- <-; reflexivity|].
  rewrite (split_once_cons "<" c s (startswith_other _ _ _ _ E3)).
  destruct (split_once "<" s) as [[l1 r1]|]; [injection H as <- <- <-; reflexivity|].
  rewrite (split_once_cons "~" c s (startswith_other _ _ _ _ E4)).
  destruct (split_once "~" s) as [[l1 r1]|]; [injection H as <- <- <-; reflexivity|].
  discriminate H.
Qed.

(** An operator in front of a text without operator characters. *)
Lemma first_split_operator op text :
  In op OPS -> plain_text text = true ->
  first_split OPS (op ++ text) = Some (op, "", text).
Proof.
  intros Hop Ht.
  assert (Heq : startswith "=" text = false) by (apply plain_text_head; [reflexivity | exact Ht]).
  assert (Habs : forall e, plain_text e = false -> split_once e text = None)
    by (intros e; apply split_once_absent, Ht).
  unfold OPS in *. cbn [first_split].
  repeat (destruct Hop as [<- | Hop]; [|]); [..|destruct Hop].
  all: cbv [String.append].
  all: repeat (rewrite split_once_cons by (rewrite ?startswith_cons, ?Heq; reflexivity)).
  all: rewrite ?Habs by reflexivity.
  all: rewrite split_once_start by reflexivity; reflexivity.
Qed.

Lemma first_split_spelled col : forall op text,
  plain_text col = true -> In op OPS -> plain_text text = true ->
  first_split OPS (col ++ op ++ text) = Some (op, col, text).
Proof.
  induction col as [|c col IH]; intros op text Hcol Hop Ht.
  - exact (first_split_operator op text Hop Ht).
  - apply andb_true_iff in Hcol. destruct Hcol as [Hc Hcol]. apply negb_true_iff in Hc.
    rewrite append_cons. apply first_split_cons; [exact Hc | apply IH; assumption |].
    cbn [startswith]. destruct col as [|c' col'].
    + unfold OPS in Hop.
      repeat (destruct Hop as [<- | Hop]; [|]); [..|destruct Hop]; cbn;
        rewrite ?andb_false_r; auto.
    + left. apply andb_true_iff in Hcol. destruct Hcol as [Hc' _]. apply negb_true_iff in Hc'.
      destruct (operator_char_cases c' Hc') as (E1 & _).
      rewrite append_cons. cbn [startswith]. rewrite (Ascii.eqb_sym "=" c'), E1.
      rewrite andb_false_r. reflexivity.
Qed.

Lemma plain_text_no_comma s :
  plain_text s = true -> all_chars (fun c => negb (Ascii.eqb c ",")) s = true.
Proof.
  apply all_chars_weaken. intros x Hx. apply negb_true_iff in Hx.
  destruct (operator_char_cases x Hx) as (_ & _ & _ & _ & ->). reflexivity.
Qed.

(** The condition [col op text] of a column name and a value text that can
    be spelled is one token, stripped already, and is split at [op]. *)
Lemma spelled_token col op text :
  spellable col = true -> In op OPS -> spellable_value text = true ->
  strip col = col
  /\ strip (col ++ op ++ text) = (col ++ op ++ text)%string
  /\ tokens (col ++ op ++ text) = [(col ++ op ++ text)%string]
  /\ first_split OPS (col ++ op ++ text) = Some (op, col, text).
Proof.
  intros Hcol Hop Htext.
  destruct (spellable_inv col Hcol) as (c & s & d & -> & Hc & Hl & Hd & Hall).
  apply andb_true_iff in Htext. destruct Htext as [Hplain Hlast].
  assert (Hstrip : strip (String c s ++ op ++ text) = (String c s ++ op ++ text)%string).
  { rewrite append_cons.
    assert (Hend : exists e, last_char (String c (s ++ op ++ text)) = Some e /\ isspace e = false).
    { rewrite <- append_cons, !last_char_append.
      destruct (last_char text) as [e|]; [exists e; split; [reflexivity|apply negb_true_iff, Hlast]|].
      unfold OPS in Hop.
      repeat (destruct Hop as [<- | Hop]; [eexists; split; [reflexivity|reflexivity]|]).
      destruct Hop. }
    destruct Hend as (e & He & Hsp). apply (strip_fixed c _ e Hc He Hsp). }
  split; [apply (strip_fixed c s d Hc Hl Hd)|].
  split; [exact Hstrip|]. split.
  - unfold tokens. rewrite split_comma_none.
    + simpl List.map. rewrite Hstrip. reflexivity.
    + rewrite !all_chars_app. rewrite (plain_text_no_comma _ Hall), (plain_text_no_comma _ Hplain).
      unfold OPS in Hop.
      repeat (destruct Hop as [<- | Hop]; [reflexivity|]). destruct Hop.
  - apply first_split_spelled; assumption.
Qed.

Section RoundTrip.
Context {NUM : PyNumerics} {RE : PyRegex}.

Lemma to_val_strip s : M4.to_val (strip s) = M4.to_val s.
Proof. unfold M4.to_val. rewrite strip_idem. reflexivity. Qed.

Lemma spelled_parses v col op text :
  spellable col = true -> In op OPS -> spellable_value text = true ->
  parser_of v (col ++ op ++ text)
  = if negb (String.eqb op "~") && is_empty (strip text)
    then Raise (ValueError MissingValue)
    else Ok (col, op, M4.to_val text).
Proof.
  intros Hcol Hop Htext.
  destruct (spelled_token col op text Hcol Hop Htext) as (Hc & Hs & Ht & Hf).
  rewrite parser_split.
  assert (Hscan : scanned v (col ++ op ++ text) = (col ++ op ++ text)%string)
    by (destruct v; [exact Hs | reflexivity]).
  rewrite Hscan, Hf. unfold parsed. rewrite Hc.
  destruct (is_empty col) eqn:He.
  { apply is_empty_true in He. subst col. discriminate Hcol. }
  destruct (negb (String.eqb op "~") && is_empty (strip text)); [reflexivity|].
  rewrite to_val_strip. reflexivity.
Qed.

(** A condition written as a column name, an operator and a value text is
    read back as that name, that operator and the value of that text, by
    the parser of either program, and is one token of an expression; this
    holds for every name and every text that hold no operator character and
    no comma, the name without a blank at its ends, the text without a blank
    at its end.  Only a blank text after an operator other than [~] is
    refused. *)
Theorem spelled_condition_round_trip v col op text :
  spellable col = true -> In op OPS -> spellable_value text = true ->
  tokens (col ++ op ++ text) = [(col ++ op ++ text)%string]
  /\ parser_of v (col ++ op ++ text)
     = if negb (String.eqb op "~") && is_empty (strip text)
       then Raise (ValueError MissingValue)
       else Ok (col, op, M4.to_val text).
Proof.
  intros Hcol Hop Htext. split.
  - apply (spelled_token col op text Hcol Hop Htext).
  - apply spelled_parses; assumption.
Qed.

(** How a value text is read: the blanks around it do not count, and both
    programs read it alike; a text in quotes, single or double, is the text
    between them, whatever it looks like; a text value is the stripped text
    as it is written or what is between its quotes; the value is [None]
    exactly for the words [none] and [null], in any letter case. *)
Theorem to_val_reads (s : string) :
  M4.to_val (strip s) = M4.to_val s
  /\ M3.coerce_value s = M4.to_val s
  /\ (forall q inner, q = quote \/ q = dquote ->
        strip s = String q (inner ++ String q "") -> M4.to_val s = PStr inner)
  /\ (forall t, M4.to_val s = PStr t ->
        t = strip s
        \/ exists q, (q = quote \/ q = dquote) /\ strip s = String q (t ++ String q ""))
  /\ (M4.to_val s = PNone <-> lower (strip s) = "none" \/ lower (strip s) = "null").
Proof.
  split; [apply to_val_strip|]. split; [reflexivity|]. split; [|split].
  - intros q inner Hq Hs. unfold M4.to_val. rewrite Hs, (unquote_quoted q inner Hq). reflexivity.
  - intros t. unfold M4.to_val.
    destruct (unquote (strip s)) as [inner|] eqn:Hu.
    + intros [= <-]. right. apply unquote_inv, Hu.
    + destruct (String.eqb (lower (strip s)) "none" || String.eqb (lower (strip s)) "null");
        [discriminate|].
      destruct (String.eqb (lower (strip s)) "true" || String.eqb (lower (strip s)) "false");
        [discriminate|].
      unfold M4.parse_number.
      destruct (contains "." (strip s)).
      * destruct (py_float (strip s)); simpl; [discriminate | intros [= <-]; auto].
      * destruct (py_int (strip s)); simpl; [discriminate | intros [= <-]; auto].
  - unfold M4.to_val. split.
    + destruct (unquote (strip s)) as [inner|]; [discriminate|].
      destruct (String.eqb (lower (strip s)) "none") eqn:E1;
        [intros _; left; apply String.eqb_eq, E1|].
      destruct (String.eqb (lower (strip s)) "null") eqn:E2;
        [intros _; right; apply String.eqb_eq, E2|].
      simpl. destruct (String.eqb (lower (strip s)) "true" || String.eqb (lower (strip s)) "false");
        [discriminate|].
      unfold M4.parse_number.
      destruct (contains "." (strip s)).
      * destruct (py_float (strip s)); simpl; discriminate.
      * destruct (py_int (strip s)); simpl; discriminate.
    + intros H.
      assert (Hu : unquote (strip s) = None).
      { destruct (unquote (strip s)) as [inner|] eqn:Hu; [|reflexivity].
        apply unquote_inv in Hu. destruct Hu as (q & Hq & Hs). rewrite Hs in H.
        destruct Hq as [-> | ->], H as [H|H]; discriminate H. }
      rewrite Hu. destruct H as [-> | ->]; reflexivity.
Qed.

End RoundTrip.

(** ** What a filter keeps, and what it raises *)

Lemma keep_map_filter {A} (f : A -> bool) (l : list A) :
  keep (List.map f l) l = List.filter f l.
Proof. induction l as [|x t IH]; simpl; [reflexivity|]. rewrite IH. reflexivity. Qed.

Lemma mask_and_true_l {A} (l : list A) : forall m,
  List.length m = List.length l -> mask_and (List.map (fun _ => true) l) m = m.
Proof.
  induction l as [|x t IH]; intros [|b m]; simpl; try discriminate; [reflexivity|].
  intros [= H]. rewrite (IH m H). reflexivity.
Qed.

Lemma mask_ext (a b : list bool) :
  List.length a = List.length b ->
  (forall idx, a !! idx = Some true <-> b !! idx = Some true) ->
  a = b.
Proof.
  revert b. induction a as [|x a IH]; intros [|y b]; simpl; try discriminate; [reflexivity|].
  intros [= Hlen] H. f_equal.
  - specialize (H O). simpl in H. destruct x, y; try reflexivity.
    + destruct H as [H _]. specialize (H eq_refl). discriminate.
    + destruct H as [_ H]. specialize (H eq_refl). discriminate.
  - apply IH; [exact Hlen|]. intros idx. apply (H (S idx)).
Qed.

Section FilterFacts.
Context {NUM : PyNumerics} {RE : PyRegex}.

Lemma filter_loop_succeeds v df toks : forall mask0 mask,
  filter_loop (parser_of v) (evaluator_of v) df (column_map df) toks mask0 = Ok mask ->
  forall t, In t toks -> succeeds v df t.
Proof.
  induction toks as [|t rest IH]; intros mask0 mask; simpl; [intros _ ? []|].
  destruct (parser_of v t) as [[[col_raw op] val]|e] eqn:Hp; [|discriminate]. simpl.
  destruct (column_map df !! lower col_raw) as [col|] eqn:Hc; [|discriminate].
  destruct (evaluator_of v df col op val) as [m|e] eqn:Hm; [|discriminate]. simpl.
  intros Hloop t' [<-|Hin]; [|eapply IH; eauto].
  exists col_raw, op, val, col, m. auto.
Qed.

Lemma filter_loop_returns v df toks :
  (forall t, In t toks -> succeeds v df t) ->
  forall mask0, exists mask,
    filter_loop (parser_of v) (evaluator_of v) df (column_map df) toks mask0 = Ok mask.
Proof.
  induction toks as [|t rest IH]; intros H mask0; simpl; [eauto|].
  destruct (H t (or_introl eq_refl)) as (c & op & val & col & m & Hp & Hc & Hm).
  rewrite Hp. simpl. rewrite Hc, Hm. simpl. apply IH. intros t' Hin. apply H. right. exact Hin.
Qed.

Lemma run_filter_of_loop v df expr mask :
  tokens expr <> [] ->
  filter_loop (parser_of v) (evaluator_of v) df (column_map df) (tokens expr)
    (List.map (fun _ => true) (rows df)) = Ok mask ->
  run_filter_of v df expr = Ok (select_rows df mask).
Proof.
  intros Hne Hloop. pose proof (boolean_mask_true df _ (or_introl Hne)) as Hb.
  destruct v; cbn [parser_of evaluator_of run_filter_of] in *.
  - unfold M3.run_filter. destruct (is_empty (strip expr)) eqn:He.
    + apply is_empty_true, tokens_blank in He. contradiction.
    + rewrite Hloop, Hb. reflexivity.
  - unfold M4.run_filter, M4.cmap. rewrite Hloop, Hb. reflexivity.
Qed.

Lemma run_filter_single v df expr t col_raw op val col m :
  tokens expr = [t] ->
  parser_of v t = Ok (col_raw, op, val) ->
  column_map df !! lower col_raw = Some col ->
  evaluator_of v df col op val = Ok m ->
  run_filter_of v df expr = Ok (select_rows df m).
Proof.
  intros Ht Hp Hc Hm. apply run_filter_of_loop; [rewrite Ht; discriminate|].
  rewrite Ht. simpl. rewrite Hp. simpl. rewrite Hc, Hm. simpl.
  rewrite mask_and_true_l; [reflexivity|].
  apply (evaluator_length v df col op val m Hm).
Qed.

(** The order of the conditions of a filter and their repetition do not
    count: when [run_filter] returns a table on an expression, it returns
    the same table on every expression with the same conditions. *)
Theorem run_filter_any_order v df e1 e2 d :
  (forall t, In t (tokens e1) <-> In t (tokens e2)) ->
  tokens e1 <> [] ->
  run_filter_of v df e1 = Ok d ->
  run_filter_of v df e2 = Ok d.
Proof.
  intros Hsame Hne H1. apply (run_filter_rows v df e1 d (or_introl Hne)) in H1.
  destruct H1 as (m1 & Hl1 & ->).
  assert (Hne2 : tokens e2 <> []).
  { destruct (tokens e1) as [|t ts] eqn:E1; [contradiction|].
    intros E2. rewrite E2 in Hsame. apply (Hsame t). left. reflexivity. }
  destruct (filter_loop_returns v df (tokens e2)
              (fun t Hin => filter_loop_succeeds v df _ _ _ Hl1 t (proj2 (Hsame t) Hin))
              (List.map (fun _ => true) (rows df))) as (m2 & Hl2).
  rewrite (run_filter_of_loop v df e2 m2 Hne2 Hl2). do 2 f_equal.
  apply filter_loop_spec in Hl1; [|apply List.length_map].
  apply filter_loop_spec in Hl2; [|apply List.length_map].
  destruct Hl1 as [Hlen1 Hiff1], Hl2 as [Hlen2 Hiff2].
  apply mask_ext; [congruence|]. intros idx. rewrite Hiff1, Hiff2.
  split; intros [H0 H]; (split; [exact H0|]); intros t Hin; apply H, Hsame, Hin.
Qed.


Lemma compare_numeric_number op left_ val :
  (forall s, val <> PStr s) -> exists m, compare_numeric op left_ val = Ok m.
Proof. destruct val; intros H; simpl; eauto. exfalso. apply (H s). reflexivity. Qed.

Lemma parse_number_cases text n :
  M3.parse_number text = Some n -> forall s, n <> PStr s.
Proof.
  unfold M3.parse_number. destruct (contains "." text).
  - destruct (py_float text); simpl; [|discriminate]. intros [= <-] s. discriminate.
  - destruct (py_int text); simpl; [|discriminate]. intros [= <-] s. discriminate.
Qed.

Lemma operator_is_comparison op : In op OPS -> op <> "~" -> is_comparison op = true.
Proof.
  unfold OPS. intros H Hne.
  repeat (destruct H as [<- | H]; [reflexivity || contradiction|]). destruct H.
Qed.

(** On a column of the table and an operator of [OPS], the evaluators raise
    only on a pattern that does not compile. *)
Lemma evaluator_raises v df col op val e :
  In col (columns df) -> In op OPS ->
  evaluator_of v df col op val = Raise e ->
  op = "~" /\ re_compiles (py_str val) = false /\ e = ReError.
Proof.
  intros Hcol Hop. destruct (getitem_In df col Hcol) as (j & d & Hs).
  assert (Hre : forall cells, str_contains cells (py_str val) false = Raise e ->
                  re_compiles (py_str val) = false /\ e = ReError).
  { intros cells. unfold str_contains. destruct (re_compiles (py_str val)); [discriminate|].
    intros [= <-]. auto. }
  destruct v; cbn [evaluator_of]; [unfold M3.apply_condition | unfold M4.mask_for];
    rewrite Hs; cbn [bind].
  - destruct (String.eqb_spec op "~") as [->|Hne]; [intros H; split; [reflexivity | eapply Hre, H]|].
    rewrite (operator_is_comparison op Hop Hne).
    destruct val as [|b|z|f|text]; try (intros H; simpl in H; discriminate H).
    destruct (M3.parse_number text) as [n|] eqn:Hn; [|discriminate].
    destruct (compare_numeric_number op
                (if is_numeric_dtype (s_dtype {| s_dtype := d; values := List.map (cell j) (rows df) |})
                 then numeric_values {| s_dtype := d; values := List.map (cell j) (rows df) |}
                 else to_numeric (values {| s_dtype := d; values := List.map (cell j) (rows df) |}))
                n (parse_number_cases text n Hn)) as (m & ->).
    discriminate.
  - destruct (String.eqb_spec op "~") as [->|Hne]; [intros H; split; [reflexivity | eapply Hre, H]|].
    rewrite (operator_is_comparison op Hop Hne).
    destruct (M4.is_number val) eqn:Hnum; [|discriminate].
    destruct (compare_numeric_number op
                (if is_numeric_dtype (s_dtype {| s_dtype := d; values := List.map (cell j) (rows df) |})
                 then numeric_values {| s_dtype := d; values := List.map (cell j) (rows df) |}
                 else to_numeric (values {| s_dtype := d; values := List.map (cell j) (rows df) |}))
                val) as (m & ->); [|discriminate].
    intros s ->. discriminate Hnum.
Qed.

Lemma parser_operator v tok col op val :
  parser_of v tok = Ok (col, op, val) -> In op OPS.
Proof.
  rewrite parser_split. unfold parsed.
  destruct (first_split OPS (scanned v tok)) as [[[op' l] r]|] eqn:Hsp; [|discriminate].
  destruct (is_empty (strip l)); [discriminate|].
  destruct (negb (String.eqb op' "~") && is_empty (strip r)); [discriminate|].
  intros [= _ <- _]. apply (first_split_spec _ _ _ _ _ Hsp).
Qed.

Lemma parser_raises v tok e :
  parser_of v tok = Raise e ->
  e = ValueError MissingColumn \/ e = ValueError MissingValue
  \/ e = ValueError (InvalidCondition (scanned v tok)).
Proof.
  rewrite parser_split. unfold parsed.
  destruct (first_split OPS (scanned v tok)) as [[[op' l] r]|]; [|intros [= <-]; auto].
  destruct (is_empty (strip l)); [intros [= <-]; auto|].
  destruct (negb (String.eqb op' "~") && is_empty (strip r)); [intros [= <-]; auto|].
  discriminate.
Qed.

(** The loop stops at the first token that fails. *)
Lemma filter_loop_raises v df toks e : forall mask0,
  filter_loop (parser_of v) (evaluator_of v) df (column_map df) toks mask0 = Raise e ->
  exists before t after,
    toks = before ++ t :: after
    /\ (forall t', In t' before -> succeeds v df t')
    /\ (parser_of v t = Raise e
        \/ (exists col_raw op val,
              parser_of v t = Ok (col_raw, op, val)
              /\ column_map df !! lower col_raw = None
              /\ e = KeyError (UnknownColumn col_raw (columns df)))
        \/ (exists col_raw op val col,
              parser_of v t = Ok (col_raw, op, val)
              /\ column_map df !! lower col_raw = Some col
              /\ evaluator_of v df col op val = Raise e)).
Proof.
  induction toks as [|t rest IH]; intros mask0; simpl; [discriminate|].
  destruct (parser_of v t) as [[[col_raw op] val]|e'] eqn:Hp; simpl.
  - destruct (column_map df !! lower col_raw) as [col|] eqn:Hc.
    + destruct (evaluator_of v df col op val) as [m|e'] eqn:Hm; simpl.
      * intros H. apply IH in H. destruct H as (before & t' & after & -> & Hb & Ht).
        exists (t :: before), t', after. split; [reflexivity|]. split; [|exact Ht].
        intros x [<-|Hx]; [|auto]. exists col_raw, op, val, col, m. auto.
      * intros [= <-]. exists [], t, rest. split; [reflexivity|]. split; [intros ? []|].
        right. right. exists col_raw, op, val, col. auto.
    + intros [= <-]. exists [], t, rest. split; [reflexivity|]. split; [intros ? []|].
      right. left. exists col_raw, op, val. auto.
  - intros [= <-]. exists [], t, rest. split; [reflexivity|]. split; [intros ? []|].
    left. rewrite Hp. reflexivity.
Qed.

(** What [run_filter] raises: the error of the first condition that fails,
    all the conditions before it having succeeded on the table; this error
    tells that the condition has no column, no value or no operator, that
    its column is unknown, or that its pattern does not compile.  The cells
    of the table cause no error.  [milestone_3] also refuses a blank
    expression. *)
Theorem run_filter_raises v df expr e :
  run_filter_of v df expr = Raise e ->
  (v = Milestone3 /\ strip expr = "" /\ e = ValueError EmptyFilter)
  \/ exists before t after,
       tokens expr = before ++ t :: after
       /\ (forall t', In t' before -> succeeds v df t')
       /\ ((parser_of v t = Raise e
            /\ (e = ValueError MissingColumn \/ e = ValueError MissingValue
                \/ e = ValueError (InvalidCondition (scanned v t))))
           \/ (exists col_raw op val,
                 parser_of v t = Ok (col_raw, op, val)
                 /\ column_map df !! lower col_raw = None
                 /\ e = KeyError (UnknownColumn col_raw (columns df)))
           \/ (exists col_raw val col,
                 parser_of v t = Ok (col_raw, "~", val)
                 /\ column_map df !! lower col_raw = Some col
                 /\ re_compiles (py_str val) = false
                 /\ e = ReError)).
Proof.
  intros H.
  assert (Hloop : (v = Milestone3 /\ strip expr = "" /\ e = ValueError EmptyFilter)
                  \/ filter_loop (parser_of v) (evaluator_of v) df (column_map df) (tokens expr)
                       (List.map (fun _ => true) (rows df)) = Raise e).
  { destruct v; cbn [run_filter_of parser_of evaluator_of] in *.
    - unfold M3.run_filter in H. destruct (is_empty (strip expr)) eqn:He.
      + injection H as <-. apply is_empty_true in He. auto.
      + right. destruct (filter_loop _ _ _ _ _ _); [discriminate H | simpl in H; injection H as <-; reflexivity].
    - right. unfold M4.run_filter, M4.cmap in H.
      destruct (filter_loop _ _ _ _ _ _); [discriminate H | simpl in H; injection H as <-; reflexivity]. }
  destruct Hloop as [Hblank|Hloop]; [left; exact Hblank|]. right.
  apply filter_loop_raises in Hloop.
  destruct Hloop as (before & t & after & Htok & Hb & Ht).
  exists before, t, after. split; [exact Htok|]. split; [exact Hb|].
  destruct Ht as [Hp | [Hk | (c & op & val & col & Hp & Hc & Hm)]].
  - left. split; [exact Hp | apply (parser_raises v t e Hp)].
  - right. left. exact Hk.
  - right. right.
    destruct (evaluator_raises v df col op val e (column_map_In df _ _ Hc)
                (parser_operator v t c op val Hp) Hm) as (-> & Hre & ->).
    exists c, val, col. auto.
Qed.


(** [run_filter] on one spelled condition whose value is not blank. *)
Lemma run_filter_spelled v df col_raw op text col m :
  spellable col_raw = true -> In op OPS -> spellable_value text = true ->
  (op = "~" \/ strip text <> "") ->
  column_map df !! lower col_raw = Some col ->
  evaluator_of v df col op (M4.to_val text) = Ok m ->
  run_filter_of v df (col_raw ++ op ++ text) = Ok (select_rows df m).
Proof.
  intros Hcol Hop Htext Hval Hmap Hm.
  destruct (spelled_token col_raw op text Hcol Hop Htext) as (_ & _ & Ht & _).
  apply (run_filter_single v df _ _ col_raw op (M4.to_val text) col m Ht); try assumption.
  rewrite (spelled_parses v col_raw op text Hcol Hop Htext).
  destruct Hval as [-> | Hval]; [reflexivity|].
  apply is_empty_false in Hval. rewrite Hval, andb_false_r. reflexivity.
Qed.

Lemma to_val_blank text : strip text = "" -> M4.to_val text = PStr "".
Proof. intros H. unfold M4.to_val. rewrite H. reflexivity. Qed.

Lemma to_numeric_ints cells :
  (forall o, In o cells -> exists x, o = PInt x) ->
  to_numeric cells = List.map to_numeric_obj cells.
Proof.
  intros H. unfold to_numeric.
  assert (Hall : forallb is_int (List.map to_numeric_obj cells) = true).
  { apply forallb_forall. intros n Hn. apply List.in_map_iff in Hn.
    destruct Hn as (o & <- & Ho). destruct (H o Ho) as (x & ->). reflexivity. }
  rewrite Hall. reflexivity.
Qed.

(** A condition that compares a column of integers with an integer keeps
    the rows whose cell stands in that relation to it, in their order; the
    column is named in any letter case.  Both programs. *)
Theorem filter_by_integer v df col_raw op text z col j d :
  spellable col_raw = true -> In op OPS -> op <> "~" -> spellable_value text = true ->
  M4.to_val text = PInt z ->
  column_map df !! lower col_raw = Some col ->
  column_index col (schema df) = Some (j, d) ->
  (forall row, In row (rows df) -> exists x, cell j row = PInt x) ->
  run_filter_of v df (col_raw ++ op ++ text)
  = Ok {| schema := schema df;
          rows := List.filter
                    (fun row => match cell j row with
                                | PInt x => cmp_holds op (Some (Z.compare x z))
                                | _ => false
                                end) (rows df) |}.
Proof.
  intros Hcol Hop Hne Htext Hval Hmap Hidx Hcells.
  rewrite <- keep_map_filter.
  apply (run_filter_spelled v df col_raw op text col); try assumption.
  { right. intros Hb. rewrite (to_val_blank text Hb) in Hval. discriminate. }
  rewrite Hval.
  assert (Hleft : forall s : Series,
            s = {| s_dtype := d; values := List.map (cell j) (rows df) |} ->
            List.map (fun x => cmp_holds op (num_cmp x (NInt z)))
              (if is_numeric_dtype (s_dtype s) then numeric_values s else to_numeric (values s))
            = List.map (fun row => match cell j row with
                                   | PInt x => cmp_holds op (Some (Z.compare x z))
                                   | _ => false
                                   end) (rows df)).
  { intros s ->. cbn [s_dtype values]. unfold numeric_values. cbn [values].
    rewrite to_numeric_ints.
    - destruct (is_numeric_dtype d); rewrite !List.map_map; apply List.map_ext_in;
        intros row Hrow; destruct (Hcells row Hrow) as (x & ->); reflexivity.
    - intros o Ho. apply List.in_map_iff in Ho. destruct Ho as (row & <- & Hrow).
      apply Hcells, Hrow. }
  pose proof (operator_is_comparison op Hop Hne) as Hcmp.
  pose proof (comparison_not_contains op Hcmp) as Htilde.
  destruct v; cbn [evaluator_of]; [unfold M3.apply_condition | unfold M4.mask_for];
    unfold getitem; rewrite Hidx; cbn [bind]; rewrite Htilde.
  - rewrite Hcmp. cbn [compare_numeric]. f_equal. apply Hleft. reflexivity.
  - cbn [M4.is_number compare_numeric bind]. rewrite Hcmp. f_equal. apply Hleft. reflexivity.
Qed.

(** In [milestone_4], a condition whose value is no number compares the
    text of each cell with the text of the value, character by character,
    whatever the column holds. *)
Theorem filter_by_text df col_raw op text col j d :
  spellable col_raw = true -> In op OPS -> op <> "~" -> spellable_value text = true ->
  strip text <> "" ->
  M4.is_number (M4.to_val text) = false ->
  column_map df !! lower col_raw = Some col ->
  column_index col (schema df) = Some (j, d) ->
  M4.run_filter df (col_raw ++ op ++ text)
  = Ok {| schema := schema df;
          rows := List.filter
                    (fun row => cmp_holds op
                                  (Some (str_cmp (py_str (cell j row))
                                                 (py_str (M4.to_val text)))))
                    (rows df) |}.
Proof.
  intros Hcol Hop Hne Htext Hb Hval Hmap Hidx.
  rewrite <- keep_map_filter.
  apply (run_filter_spelled Milestone4 df col_raw op text col); try assumption; [auto|].
  pose proof (operator_is_comparison op Hop Hne) as Hcmp.
  pose proof (comparison_not_contains op Hcmp) as Htilde.
  cbn [evaluator_of]. unfold M4.mask_for, getitem. rewrite Hidx. cbn [bind].
  rewrite Htilde, Hval, Hcmp. f_equal.
  unfold compare_text, astype_str. cbn [values]. rewrite !List.map_map. reflexivity.
Qed.

(** A condition with [~] searches the text of the value, as [str] shows the
    value that the text is read as, in the text of each cell, letter case
    aside, when that text holds no operator of the pattern language.  Both
    programs. *)
Theorem filter_by_pattern v df col_raw text col j d :
  spellable col_raw = true -> spellable_value text = true ->
  plain_pattern (py_str (M4.to_val text)) = true ->
  column_map df !! lower col_raw = Some col ->
  column_index col (schema df) = Some (j, d) ->
  run_filter_of v df (col_raw ++ "~" ++ text)
  = Ok {| schema := schema df;
          rows := List.filter
                    (fun row => contains (lower (py_str (M4.to_val text)))
                                         (lower (py_str (cell j row))))
                    (rows df) |}.
Proof.
  intros Hcol Htext Hplain Hmap Hidx.
  rewrite <- keep_map_filter.
  apply (run_filter_spelled v df col_raw "~" text col); try assumption.
  { unfold OPS. simpl. tauto. }
  { left. reflexivity. }
  rewrite (contains_plain v df col (M4.to_val text)
             {| s_dtype := d; values := List.map (cell j) (rows df) |}); [| |exact Hplain].
  - cbn [values]. rewrite List.map_map. reflexivity.
  - unfold getitem. rewrite Hidx. reflexivity.
Qed.

End FilterFacts.

(** ** Sorting what is sorted, and what a sort raises *)

Section SortedInput.
Context {A : Type} (le : A -> A -> bool).

Lemma merge_cross (l1 l2 : list A) :
  (forall a b, In a l1 -> In b l2 -> le a b = true) -> merge le l1 l2 = (l1 ++ l2)%list.
Proof.
  revert l2. induction l1 as [|a t1 IH]; intros l2 H; [destruct l2; reflexivity|].
  destruct l2 as [|b t2]; [rewrite merge_nil_r, List.app_nil_r; reflexivity|].
  rewrite merge_cons, (H a b (or_introl eq_refl) (or_introl eq_refl)).
  simpl. f_equal. apply IH. intros x y Hx Hy. apply H; [right|]; assumption.
Qed.

Lemma sorted_by_app_inv (l1 l2 : list A) :
  sorted_by le (l1 ++ l2) ->
  sorted_by le l1 /\ sorted_by le l2
  /\ forall a b, In a l1 -> In b l2 -> le a b = true.
Proof.
  unfold sorted_by. induction l1 as [|x t IH]; simpl; intros H.
  - split; [constructor|]. split; [exact H|]. intros ? ? [].
  - inversion H as [|? ? Ht Hx]; subst. destruct (IH Ht) as (H1 & H2 & Hc).
    rewrite List.Forall_forall in Hx.
    split; [constructor; [exact H1|]|].
    + rewrite List.Forall_forall. intros y Hy. apply Hx, List.in_or_app. left. exact Hy.
    + split; [exact H2|]. intros a b [<-|Ha] Hb; [|auto].
      apply Hx, List.in_or_app. right. exact Hb.
Qed.

Lemma msort_of_sorted fuel : forall l, sorted_by le l -> msort le fuel l = l.
Proof.
  induction fuel as [|fuel IH]; intros l Hs; [reflexivity|].
  destruct l as [|x [|y t]]; try reflexivity.
  cbn [msort]. set (h := Nat.div2 (List.length (x :: y :: t))).
  rewrite <- (List.firstn_skipn h (x :: y :: t)) in Hs.
  apply sorted_by_app_inv in Hs. destruct Hs as (H1 & H2 & Hc).
  rewrite (IH _ H1), (IH _ H2), (merge_cross _ _ Hc). apply List.firstn_skipn.
Qed.

Lemma stable_sort_of_sorted l : sorted_by le l -> stable_sort le l = l.
Proof. apply msort_of_sorted. Qed.

End SortedInput.

Lemma forallb_perm {A} (f : A -> bool) (l l' : list A) :
  Permutation l l' -> forallb f l = forallb f l'.
Proof.
  induction 1 as [|x l l' _ IH|x y l|l l' l'' _ IH1 _ IH2]; simpl.
  - reflexivity.
  - rewrite IH. reflexivity.
  - destruct (f x), (f y); reflexivity.
  - congruence.
Qed.

Lemma comparable_perm (a b : list skey) : Permutation a b -> comparable a = comparable b.
Proof.
  intros H. unfold comparable.
  rewrite (forallb_perm is_text a b H), (forallb_perm (fun k => negb (is_text k)) a b H).
  reflexivity.
Qed.

(** A column whose present cells come first: their positions and sort
    values, and the positions of the missing cells. *)
Lemma sorted_column_parts ks m : forall items i,
  List.map sort_key items = (List.map Some ks ++ List.repeat None m)%list ->
  non_nans i items = List.combine (seq i (List.length ks)) ks
  /\ nan_idx i items = seq (i + List.length ks) m.
Proof.
  induction ks as [|k ks IH]; intros items i; simpl.
  - rewrite Nat.add_0_r. revert items i.
    induction m as [|m IHm]; intros [|o t] i; simpl; try discriminate; [auto|].
    intros [= Ho Ht]. rewrite Ho. destruct (IHm t (S i) Ht) as [-> ->]. auto.
  - destruct items as [|o t]; simpl; [discriminate|].
    intros [= Ho Ht]. rewrite Ho. destruct (IH t (S i) Ht) as [-> ->].
    rewrite Nat.add_succ_r. auto.
Qed.

Lemma map_fst_combine {A B} (a : list A) (b : list B) :
  List.length a = List.length b -> List.map fst (List.combine a b) = a.
Proof.
  revert b. induction a as [|x a IH]; intros [|y b]; simpl; try discriminate; [reflexivity|].
  intros [= H]. rewrite (IH b H). reflexivity.
Qed.

Lemma map_snd_combine {A B} (a : list A) (b : list B) :
  List.length a = List.length b -> List.map snd (List.combine a b) = b.
Proof.
  revert b. induction a as [|x a IH]; intros [|y b]; simpl; try discriminate; [reflexivity|].
  intros [= H]. rewrite (IH b H). reflexivity.
Qed.

Lemma sorted_by_map {A B} (le : B -> B -> bool) (g : A -> B) (l : list A) :
  sorted_by le (List.map g l) -> sorted_by (fun a b => le (g a) (g b)) l.
Proof.
  unfold sorted_by. induction l as [|x t IH]; simpl; intros H; [constructor|].
  inversion H as [|? ? Ht Hx]; subst. constructor; [apply IH, Ht|].
  rewrite List.Forall_forall in *. intros y Hy. apply Hx, List.in_map, Hy.
Qed.

(** [nargsort] leaves a column that is in order as it is. *)
Lemma nargsort_of_sorted items ascending ks m :
  List.map sort_key items = (List.map Some ks ++ List.repeat None m)%list ->
  comparable ks = true ->
  sorted_by (direction_le ascending) ks ->
  nargsort items ascending = Ok (seq 0 (List.length items)).
Proof.
  intros Hitems Hcmp Hs.
  destruct (sorted_column_parts ks m items 0%nat Hitems) as [Hp Hn].
  assert (Hlen : List.length items = (List.length ks + m)%nat).
  { rewrite <- (List.length_map sort_key items), Hitems, List.length_app,
      List.length_map, List.repeat_length. reflexivity. }
  assert (Hseq : List.length (seq 0 (List.length ks)) = List.length ks) by apply List.length_seq.
  unfold nargsort. rewrite Hp, Hn, (map_snd_combine _ _ Hseq), Hcmp, Hlen.
  rewrite List.seq_app. simpl. do 2 f_equal.
  destruct ascending.
  - rewrite stable_sort_of_sorted; [apply (map_fst_combine _ _ Hseq)|].
    apply (sorted_by_map skey_le snd). rewrite (map_snd_combine _ _ Hseq). exact Hs.
  - rewrite stable_sort_of_sorted.
    + rewrite List.map_rev, List.rev_involutive. apply (map_fst_combine _ _ Hseq).
    + apply (sorted_by_rev (fun a b => key_le b a)).
      apply (sorted_by_map (fun a b => skey_le b a) snd).
      rewrite (map_snd_combine _ _ Hseq). exact Hs.
Qed.

(** The sort values along the indexer of [nargsort], which can be compared
    with each other. *)
Lemma nargsort_keys items ascending indexer :
  nargsort items ascending = Ok indexer ->
  exists ks m,
    List.map (fun j => sort_key (List.nth j items PNone)) indexer
    = (List.map Some ks ++ List.repeat None m)%list
    /\ sorted_by (direction_le ascending) ks
    /\ comparable ks = true.
Proof.
  intros H.
  assert (Hcmp : comparable (List.map snd (non_nans 0 items)) = true).
  { unfold nargsort in H. destruct (comparable _); [reflexivity | discriminate]. }
  apply nargsort_shape in H. destruct H as (sorted & Hp & Hs & _ & ->).
  assert (Hin : List.map (fun j => sort_key (List.nth j items PNone)) (List.map fst sorted)
                = List.map Some (List.map snd sorted)).
  { rewrite !List.map_map. apply List.map_ext_in. intros p Hpin.
    apply (Permutation_in _ Hp), non_nans_spec in Hpin.
    rewrite Nat.sub_0_r in Hpin. apply Hpin. }
  assert (Hnan : List.map (fun j => sort_key (List.nth j items PNone)) (nan_idx 0 items)
                 = List.repeat None (List.length (nan_idx 0 items))).
  { apply map_missing. intros j Hj. apply nan_idx_spec in Hj.
    rewrite Nat.sub_0_r in Hj. apply Hj. }
  assert (Hk : comparable (List.map snd sorted) = true).
  { rewrite (comparable_perm _ _ (Permutation_map snd Hp)). exact Hcmp. }
  apply sorted_by_keys in Hs.
  destruct ascending.
  - exists (List.map snd sorted), (List.length (nan_idx 0 items)).
    rewrite List.map_app, Hin, Hnan. auto.
  - exists (List.rev (List.map snd sorted)), (List.length (nan_idx 0 items)).
    rewrite List.map_app, List.map_rev, Hin, Hnan, <- List.map_rev.
    split; [reflexivity|]. split; [apply (sorted_by_rev skey_le), Hs|].
    rewrite <- (comparable_perm _ _ (Permutation_rev _)). exact Hk.
Qed.

Lemma take_all_rows df : take_rows df (seq 0 (len df)) = df.
Proof.
  destruct df as [sch rws]. unfold take_rows, len. simpl. f_equal. apply map_nth_seq.
Qed.

Section SortFixed.
Context {NUM : PyNumerics} {RE : PyRegex}.

(** [run_sort] on an expression with a column that resolves and a valid
    order is [sort_values] on that column. *)
Lemma run_sort_of_sort_values v df expr col_raw more col :
  tokens expr = col_raw :: more ->
  valid_order more ->
  column_map df !! lower col_raw = Some col ->
  run_sort_of v df expr = sort_values df col (negb (descending more)).
Proof.
  intros Ht Hdir Hc.
  assert (Horder : negb (String.eqb (match more with o :: _ => lower o | [] => "asc" end) "asc"
                         || String.eqb (match more with o :: _ => lower o | [] => "asc" end) "desc")
                   = false
                   /\ String.eqb (match more with o :: _ => lower o | [] => "asc" end) "asc"
                      = negb (descending more)).
  { destruct more as [|o more]; [split; reflexivity|].
    simpl. destruct Hdir as [-> | ->]; split; reflexivity. }
  destruct Horder as [Horder Hasc].
  destruct v; simpl; [unfold M3.run_sort | unfold M4.run_sort, M4.cmap].
  - destruct (is_empty (strip expr)) eqn:He.
    + apply is_empty_true, tokens_blank in He. rewrite He in Ht. discriminate.
    + rewrite Ht, Horder, Hc, Hasc. reflexivity.
  - rewrite Ht, Horder, Hc, Hasc. reflexivity.
Qed.

Lemma sort_values_of_sorted df col ascending j d ks m :
  column_index col (schema df) = Some (j, d) ->
  List.map (fun r => sort_key (cell j r)) (rows df)
  = (List.map Some ks ++ List.repeat None m)%list ->
  comparable ks = true ->
  sorted_by (direction_le ascending) ks ->
  sort_values df col ascending = Ok df.
Proof.
  intros Hj Hk Hcmp Hs. unfold sort_values, getitem. rewrite Hj. cbn [bind values].
  rewrite (nargsort_of_sorted _ ascending ks m); [| |exact Hcmp|exact Hs].
  - cbn [bind]. rewrite List.length_map. fold (len df). rewrite take_all_rows. reflexivity.
  - rewrite List.map_map. exact Hk.
Qed.

(** A table whose sort column is in order already (the present values in
    the order of the direction, the missing ones after them) comes back
    from [run_sort] as it is; so sorting the result of [run_sort] again by
    the same expression changes nothing. *)
Theorem run_sort_fixed v df expr :
  (forall col_raw more col j d ks m,
     tokens expr = col_raw :: more ->
     valid_order more ->
     column_map df !! lower col_raw = Some col ->
     column_index col (schema df) = Some (j, d) ->
     List.map (fun r => sort_key (cell j r)) (rows df)
     = (List.map Some ks ++ List.repeat None m)%list ->
     comparable ks = true ->
     sorted_by (direction_le (negb (descending more))) ks ->
     run_sort_of v df expr = Ok df)
  /\ (forall df', run_sort_of v df expr = Ok df' -> run_sort_of v df' expr = Ok df').
Proof.
  split.
  - intros col_raw more col j d ks m Ht Hdir Hc Hj Hk Hcmp Hs.
    rewrite (run_sort_of_sort_values v df expr col_raw more col Ht Hdir Hc).
    apply (sort_values_of_sorted df col _ j d ks m); assumption.
  - intros df' H.
    assert (Hdir : exists col_raw more col,
              tokens expr = col_raw :: more
              /\ valid_order more
              /\ column_map df !! lower col_raw = Some col).
    { destruct v; simpl in H; [unfold M3.run_sort in H | unfold M4.run_sort, M4.cmap in H].
      - destruct (is_empty (strip expr)); [discriminate|].
        destruct (tokens expr) as [|col_raw more]; [discriminate|].
        destruct (negb _) eqn:Ho; [discriminate|].
        destruct (column_map df !! lower col_raw) as [col|] eqn:Hc; [|discriminate].
        exists col_raw, more, col. split; [reflexivity|]. split; [|exact Hc].
        destruct more as [|o more]; [exact I|].
        apply negb_false_iff, orb_true_iff in Ho.
        destruct Ho as [Ho|Ho]; apply String.eqb_eq in Ho; simpl; auto.
      - destruct (tokens expr) as [|col_raw more]; [discriminate|].
        destruct (negb _) eqn:Ho; [discriminate|].
        destruct (column_map df !! lower col_raw) as [col|] eqn:Hc; [|discriminate].
        exists col_raw, more, col. split; [reflexivity|]. split; [|exact Hc].
        destruct more as [|o more]; [exact I|].
        apply negb_false_iff, orb_true_iff in Ho.
        destruct Ho as [Ho|Ho]; apply String.eqb_eq in Ho; simpl; auto. }
    destruct Hdir as (col_raw & more & col & Ht & Hdir & Hc).
    rewrite (run_sort_of_sort_values v df expr col_raw more col Ht Hdir Hc) in H.
    apply sort_values_inv in H. destruct H as (j & d & indexer & Hj & Hsort & ->).
    apply nargsort_keys in Hsort. destruct Hsort as (ks & m & Hk & Hs & Hcmp).
    rewrite (run_sort_of_sort_values v (take_rows df indexer) expr col_raw more col Ht Hdir Hc).
    apply (sort_values_of_sorted _ col _ j d ks m); [exact Hj | | exact Hcmp | exact Hs].
    cbn [take_rows rows]. rewrite List.map_map, <- Hk. apply List.map_ext.
    intros a. rewrite nth_column. reflexivity.
Qed.

End SortFixed.

Section SortErrors.
Context {NUM : PyNumerics} {RE : PyRegex}.

Lemma order_check more :
  (negb (String.eqb (match more with o :: _ => lower o | [] => "asc" end) "asc"
         || String.eqb (match more with o :: _ => lower o | [] => "asc" end) "desc") = false
   /\ valid_order more)
  \/ (negb (String.eqb (match more with o :: _ => lower o | [] => "asc" end) "asc"
            || String.eqb (match more with o :: _ => lower o | [] => "asc" end) "desc") = true
      /\ ~ valid_order more).
Proof.
  destruct more as [|o more]; [left; split; [reflexivity | exact I]|]. simpl.
  destruct (String.eqb_spec (lower o) "asc") as [Ha|Ha]; [left; auto|].
  destruct (String.eqb_spec (lower o) "desc") as [Hd|Hd]; [left; auto|].
  right. split; [reflexivity|]. intros [H|H]; contradiction.
Qed.

(** [run_sort] after its checks of the expression. *)
Lemma run_sort_cases v df expr :
  match tokens expr with
  | [] => run_sort_of v df expr
          = Raise (match v with
                   | Milestone3 => if is_empty (strip expr) then ValueError EmptySort
                                   else IndexError
                   | Milestone4 => ValueError EmptySort
                   end)
  | col_raw :: more =>
      (~ valid_order more /\ run_sort_of v df expr = Raise (ValueError InvalidOrder))
      \/ (valid_order more
          /\ run_sort_of v df expr
             = match column_map df !! lower col_raw with
               | None => Raise (KeyError (UnknownColumn col_raw (columns df)))
               | Some col => sort_values df col (negb (descending more))
               end)
  end.
Proof.
  destruct (tokens expr) as [|col_raw more] eqn:Ht.
  - destruct v; simpl; [unfold M3.run_sort | unfold M4.run_sort]; rewrite Ht; [|reflexivity].
    destruct (is_empty (strip expr)); reflexivity.
  - assert (Hne : is_empty (strip expr) = false).
    { destruct (is_empty (strip expr)) eqn:He; [|reflexivity].
      apply is_empty_true, tokens_blank in He. rewrite He in Ht. discriminate. }
    assert (Hasc : valid_order more ->
              String.eqb (match more with o :: _ => lower o | [] => "asc" end) "asc"
              = negb (descending more)).
    { destruct more as [|o more]; [reflexivity|]. simpl. intros [-> | ->]; reflexivity. }
    destruct (order_check more) as [[Ho Hv]|[Ho Hv]].
    + right. split; [exact Hv|].
      destruct v; simpl; [unfold M3.run_sort | unfold M4.run_sort, M4.cmap];
        rewrite ?Hne, Ht, Ho, (Hasc Hv); reflexivity.
    + left. split; [exact Hv|].
      destruct v; simpl; [unfold M3.run_sort | unfold M4.run_sort, M4.cmap];
        rewrite ?Hne, Ht, Ho; reflexivity.
Qed.

(** What [run_sort] raises, in the order of its checks: no token (a blank
    expression, or commas only, which [milestone_3] answers with an index
    error); an order that is neither [asc] nor [desc], whether the column
    exists or not; an unknown column; and, from the sort itself, a column
    that mixes numbers and strings. *)
Theorem run_sort_raises v df expr e :
  run_sort_of v df expr = Raise e ->
  (tokens expr = []
   /\ (e = ValueError EmptySort /\ (v = Milestone3 -> strip expr = "")
       \/ e = IndexError /\ v = Milestone3 /\ strip expr <> ""))
  \/ exists col_raw more,
       tokens expr = col_raw :: more
       /\ ((~ valid_order more /\ e = ValueError InvalidOrder)
           \/ (valid_order more
               /\ column_map df !! lower col_raw = None
               /\ e = KeyError (UnknownColumn col_raw (columns df)))
           \/ (valid_order more
               /\ exists col s,
                    column_map df !! lower col_raw = Some col
                    /\ getitem df col = Ok s
                    /\ comparable (List.map snd (non_nans 0 (values s))) = false
                    /\ e = TypeError)).
Proof.
  intros H. pose proof (run_sort_cases v df expr) as Hc.
  destruct (tokens expr) as [|col_raw more].
  - left. split; [reflexivity|]. rewrite H in Hc. injection Hc as ->.
    destruct v; [|left; split; [reflexivity | discriminate]].
    destruct (is_empty (strip expr)) eqn:He.
    + left. split; [reflexivity|]. intros _. apply is_empty_true, He.
    + right. split; [reflexivity|]. split; [reflexivity|]. apply is_empty_false, He.
  - right. exists col_raw, more. split; [reflexivity|].
    destruct Hc as [[Hv Hr]|[Hv Hr]]; rewrite H in Hr.
    + left. injection Hr as ->. auto.
    + right. destruct (column_map df !! lower col_raw) as [col|] eqn:Hm.
      * right. split; [exact Hv|].
        destruct (getitem_In df col (column_map_In df _ _ Hm)) as (j & d & Hs).
        exists col, {| s_dtype := d; values := List.map (cell j) (rows df) |}.
        split; [reflexivity|]. split; [exact Hs|].
        unfold sort_values in Hr. rewrite Hs in Hr. cbn [bind values] in Hr.
        unfold nargsort in Hr. cbn [values].
        destruct (comparable _); [discriminate Hr|].
        cbn [bind] in Hr. injection Hr as ->. auto.
      * left. injection Hr as ->. auto.
Qed.

(** [run_sort] reads two tokens, letter case aside: two expressions whose
    first tokens are the same in lowercase, and whose second tokens are the
    same in lowercase or are both absent, sort alike, whatever follows. *)
Theorem run_sort_reads v df e1 e2 c1 m1 c2 m2 d :
  tokens e1 = c1 :: m1 -> tokens e2 = c2 :: m2 ->
  lower c1 = lower c2 ->
  option_map lower (List.head m1) = option_map lower (List.head m2) ->
  run_sort_of v df e1 = Ok d ->
  run_sort_of v df e2 = Ok d.
Proof.
  intros H1 H2 Hc Ho H.
  pose proof (run_sort_cases v df e1) as C1. pose proof (run_sort_cases v df e2) as C2.
  rewrite H1 in C1. rewrite H2 in C2.
  assert (Hd : descending m1 = descending m2 /\ (valid_order m1 -> valid_order m2)).
  { destruct m1 as [|o1 m1], m2 as [|o2 m2]; try discriminate Ho; [auto|].
    simpl in Ho. injection Ho as Ho. simpl. rewrite Ho. auto. }
  destruct Hd as [Hd Hv].
  destruct C1 as [[_ Hr]|[Hv1 Hr]]; rewrite H in Hr; [discriminate Hr|].
  destruct C2 as [[Hn _]|[_ ->]]; [contradiction (Hn (Hv Hv1))|].
  rewrite <- Hc, <- Hd.
  destruct (column_map df !! lower c1); [symmetry; exact Hr | discriminate Hr].
Qed.

End SortErrors.

(** ** The pages of a table *)

(** A slice between two bounds that are not negative. *)
Lemma slice_nonneg {A} (l : list A) (a b : Z) :
  0 <= a <= b ->
  slice l a b = firstn (Z.to_nat (b - a)) (skipn (Z.to_nat a) l).
Proof.
  intros H. unfold slice, slice_bound.
  destruct (Z.ltb_spec a 0); [lia|]. destruct (Z.ltb_spec b 0); [lia|].
  destruct (Z.le_gt_cases (Z.of_nat (List.length l)) a) as [Hge|Hlt].
  - rewrite !List.skipn_all2 by lia. rewrite !List.firstn_nil. reflexivity.
  - replace (Z.min a (Z.of_nat (List.length l))) with a by lia.
    destruct (Z.le_gt_cases b (Z.of_nat (List.length l))) as [Hb|Hb].
    + replace (Z.min b (Z.of_nat (List.length l))) with b by lia. reflexivity.
    + replace (Z.min b (Z.of_nat (List.length l))) with (Z.of_nat (List.length l)) by lia.
      rewrite !List.firstn_all2; [reflexivity | |]; rewrite List.length_skipn; lia.
Qed.

Lemma view_rows (p : M4.Pager) :
  1 <= M4.size p -> 1 <= M4.i p ->
  rows (M4.view p)
  = firstn (Z.to_nat (M4.size p))
      (skipn (Z.to_nat (M4.i p - 1) * Z.to_nat (M4.size p)) (rows (M4.df p))).
Proof.
  intros Hs Hi. unfold M4.view, iloc. cbn [rows].
  rewrite slice_nonneg by nia. f_equal; [f_equal; lia|]. f_equal. nia.
Qed.

Lemma firstn_add {A} (a b : nat) (l : list A) :
  firstn (a + b) l = (firstn a l ++ firstn b (skipn a l))%list.
Proof.
  revert l. induction a as [|a IH]; intros l; [reflexivity|].
  destruct l as [|x l]; simpl; [rewrite List.firstn_nil; reflexivity|].
  rewrite IH. reflexivity.
Qed.

Lemma chunks_concat {A} (s : nat) (l : list A) (m : nat) :
  List.concat (List.map (fun k => firstn s (skipn (k * s) l)) (seq 0 m)) = firstn (m * s) l.
Proof.
  induction m as [|m IH]; [reflexivity|].
  rewrite List.seq_S, List.map_app, List.concat_app, IH. simpl.
  rewrite List.app_nil_r, <- firstn_add. f_equal. lia.
Qed.

Lemma pages_reach (p : M4.Pager) :
  1 <= M4.size p ->
  Z.of_nat (len (M4.df p)) <= M4.pages p * M4.size p
  /\ (0 < Z.of_nat (len (M4.df p)) -> (M4.pages p - 1) * M4.size p < Z.of_nat (len (M4.df p))).
Proof.
  intros Hs. unfold M4.pages. set (n := Z.of_nat (len (M4.df p))).
  assert (Hn : 0 <= n) by (subst n; lia).
  pose proof (Z.mul_succ_div_gt (n - 1) (M4.size p) ltac:(lia)) as Hgt.
  destruct (Z.eq_dec n 0) as [Hz|Hz].
  - rewrite Hz. replace ((0 - 1) / M4.size p) with (-1); [lia|].
    apply Z.div_unique with (r := M4.size p - 1); lia.
  - pose proof (Z.mul_div_le (n - 1) (M4.size p) ltac:(lia)) as Hle.
    pose proof (Z.div_pos (n - 1) (M4.size p) ltac:(lia) ltac:(lia)) as Hpos.
    replace (Z.max 1 ((n - 1) / M4.size p + 1)) with ((n - 1) / M4.size p + 1) by lia.
    split; [lia|]. intros _. lia.
Qed.

(** The pages, one after the other, are the table: no row is left out, none
    is shown twice, and the order is kept. *)
Theorem pages_cover (p : M4.Pager) :
  1 <= M4.size p ->
  List.concat
    (List.map (fun k => rows (M4.view (at_page p (Z.of_nat k))))
       (seq 1 (Z.to_nat (M4.pages p))))
  = rows (M4.df p).
Proof.
  intros Hs. rewrite <- List.seq_shift, List.map_map.
  rewrite (List.map_ext _ (fun k => firstn (Z.to_nat (M4.size p))
                                     (skipn (k * Z.to_nat (M4.size p)) (rows (M4.df p))))).
  - rewrite chunks_concat. apply List.firstn_all2.
    destruct (pages_reach p Hs) as [Hr _]. unfold len in Hr. nia.
  - intros k. rewrite view_rows; cbn [at_page M4.size M4.i M4.df]; [|lia|lia].
    do 3 f_equal. lia.
Qed.

(** The number of rows on a page: all the pages before the last are full,
    the last one holds what remains, and no page of a table that has rows
    is empty. *)
Theorem view_length (p : M4.Pager) :
  1 <= M4.size p -> 1 <= M4.i p <= M4.pages p ->
  let n := Z.of_nat (len (M4.df p)) in
  Z.of_nat (len (M4.view p)) = Z.min (M4.size p) (n - (M4.i p - 1) * M4.size p)
  /\ (M4.i p < M4.pages p -> Z.of_nat (len (M4.view p)) = M4.size p)
  /\ (0 < n -> 0 < Z.of_nat (len (M4.view p))).
Proof.
  intros Hs Hi n. destruct (pages_reach p Hs) as [Hr Hl]. fold n in Hr, Hl.
  assert (Hv : len (M4.view p)
               = Nat.min (Z.to_nat (M4.size p))
                   (len (M4.df p) - Z.to_nat (M4.i p - 1) * Z.to_nat (M4.size p))).
  { unfold len at 1. rewrite view_rows by lia.
    rewrite List.length_firstn, List.length_skipn. reflexivity. }
  assert (Hlen : (0 < n /\ Z.of_nat (len (M4.view p))
                           = Z.min (M4.size p) (n - (M4.i p - 1) * M4.size p))
                 \/ (n = 0 /\ len (M4.view p) = 0%nat)).
  { destruct (Z.eq_dec n 0) as [Hz|Hz]; [right; split; [exact Hz|subst n; lia]|].
    left. split; [subst n; lia|]. specialize (Hl ltac:(lia)).
    assert (Hk : (M4.i p - 1) * M4.size p <= (M4.pages p - 1) * M4.size p) by nia.
    rewrite Hv, Nat2Z.inj_min, Nat2Z.inj_sub_max, Nat2Z.inj_mul, !Z2Nat.id by lia.
    fold n. lia. }
  assert (Hn : 0 <= n) by (subst n; lia).
  destruct Hlen as [[Hpos Hlen]|Hzv].
  - specialize (Hl Hpos). split; [exact Hlen|]. split.
    + intros Hlt. rewrite Hlen. nia.
    + intros _. rewrite Hlen. nia.
  - clear Hv. assert (Hp : M4.pages p = 1).
    { destruct Hzv as [Hz _]. unfold M4.pages. fold n. rewrite Hz.
      replace ((0 - 1) / M4.size p) with (-1); [lia|].
      apply Z.div_unique with (r := M4.size p - 1); lia. }
    destruct Hzv as [Hz Hv]. rewrite Hv, Hz. split; [nia|]. split; lia.
Qed.

(** ** The command loops *)

Lemma keep_map {A B} (f : A -> B) (mask : list bool) (l : list A) :
  keep mask (List.map f l) = List.map f (keep mask l).
Proof.
  revert l. induction mask as [|b m IH]; intros [|x t]; simpl; try reflexivity.
  destruct b; simpl; rewrite IH; reflexivity.
Qed.

Lemma keep_In {A} (mask : list bool) (l : list A) x : In x (keep mask l) -> In x l.
Proof.
  revert l. induction mask as [|b m IH]; intros [|y t]; simpl; try tauto.
  destruct b; simpl; intros H; [destruct H as [H|H]; [auto|] |]; right; apply IH, H.
Qed.

Lemma keep_NoDup {A} (mask : list bool) (l : list A) : List.NoDup l -> List.NoDup (keep mask l).
Proof.
  revert l. induction mask as [|b m IH]; intros [|y t] H; simpl; try constructor.
  inversion H as [|? ? Hy Ht]; subst. destruct b; [|apply IH, Ht].
  constructor; [|apply IH, Ht]. intros Hin. apply Hy, (keep_In _ _ _ Hin).
Qed.

Lemma selection_refl df : selection df df.
Proof.
  split; [left; reflexivity|]. exists (seq 0 (len df)).
  split; [apply List.seq_NoDup|]. split.
  - intros k Hk. apply List.in_seq in Hk. lia.
  - symmetry. apply map_nth_seq.
Qed.

Lemma selection_keep df d mask :
  selection df d -> selection df (select_rows d mask).
Proof.
  intros [Hs (idx & Hnd & Hlt & Hr)]. split.
  { destruct Hs as [Hs|[Hs He]]; [left; exact Hs|]. right. split; [exact Hs|].
    simpl. rewrite He. destruct mask; reflexivity. }
  exists (keep mask idx). split; [apply keep_NoDup, Hnd|]. split.
  - intros k Hk. apply Hlt, (keep_In _ _ _ Hk).
  - simpl. rewrite Hr. apply keep_map.
Qed.

Lemma selection_take df d indexer :
  selection df d -> Permutation indexer (seq 0 (len d)) ->
  selection df (take_rows d indexer).
Proof.
  intros [Hs (idx & Hnd & Hlt & Hr)] Hp. split.
  { destruct Hs as [Hs|[Hs He]]; [left; exact Hs|]. right. split; [exact Hs|].
    unfold len in Hp. rewrite He in Hp. apply Permutation_sym, Permutation_nil in Hp.
    rewrite Hp. reflexivity. }
  exists (List.map (fun a => List.nth a idx (len df)) indexer).
  assert (Hlen : len d = List.length idx).
  { unfold len. rewrite Hr. apply List.length_map. }
  assert (Hperm : Permutation (List.map (fun a => List.nth a idx (len df)) indexer) idx).
  { rewrite (Permutation_map _ Hp), Hlen. rewrite map_nth_seq. reflexivity. }
  split; [apply (Permutation_NoDup (Permutation_sym Hperm)), Hnd|]. split.
  - intros k Hk. apply Hlt, (Permutation_in _ Hperm), Hk.
  - simpl. rewrite List.map_map. apply List.map_ext. intros a. rewrite Hr.
    rewrite <- (List.nth_overflow (rows df) [] (le_n (len df))) at 1.
    apply (List.map_nth (fun k => List.nth k (rows df) [])).
Qed.

Section Sessions.
Context {NUM : PyNumerics} {RE : PyRegex} {PATH : PyPath}.

Lemma selection_filter v df d expr d' :
  selection df d -> run_filter_of v d expr = Ok d' -> selection df d'.
Proof.
  intros Hsel H. apply run_filter_loop in H. destruct H as (mask & _ & ->).
  unfold getitem_mask. destruct (boolean_mask d (tokens expr)) eqn:Hb;
    [apply selection_keep, Hsel|].
  apply boolean_mask_false in Hb. destruct Hb as [_ He].
  split; [right; unfold no_columns; rewrite He; split; reflexivity|].
  exists []. split; [constructor|]. split; [intros k []|].
  unfold no_columns. rewrite He. reflexivity.
Qed.

Lemma selection_sort v df d expr d' :
  selection df d -> run_sort_of v d expr = Ok d' -> selection df d'.
Proof.
  intros Hsel H. apply run_sort_inv in H.
  destruct H as (col_raw & more & col & asc & _ & _ & H).
  apply sort_values_inv in H. destruct H as (j & dt & indexer & _ & Hn & ->).
  apply selection_take; [exact Hsel|].
  apply nargsort_perm in Hn. rewrite List.length_map in Hn. exact Hn.
Qed.

Lemma pages_ge_1 (p : M4.Pager) : 1 <= M4.pages p.
Proof. unfold M4.pages. lia. Qed.

Lemma paging_kept (p : M4.Pager) (arg : string) (r : M4.Pager * list M4.printed) :
  r = M4.cmd_pagesize p arg \/ r = M4.cmd_page p arg
  \/ r = M4.cmd_next p \/ r = M4.cmd_prev p ->
  1 <= M4.size p -> 1 <= M4.i p <= M4.pages p ->
  M4.df (fst r) = M4.df p
  /\ 1 <= M4.size (fst r)
  /\ 1 <= M4.i (fst r) <= M4.pages (fst r).
Proof.
  intros Hr Hs Hi. destruct Hr as [-> | [-> | [-> | ->]]].
  - unfold M4.cmd_pagesize. destruct (negb (isdigit arg)); [auto|].
    destruct (py_int arg) as [n|]; [|auto]. cbn [fst M4.df M4.size M4.i].
    split; [reflexivity|]. split; [lia|].
    match goal with |- _ <= _ <= M4.pages ?q => pose proof (pages_ge_1 q) end. lia.
  - unfold M4.cmd_page. destruct (negb (isdigit arg)); [auto|].
    destruct (py_int arg) as [n|]; [|auto]. cbn [fst M4.df M4.size M4.i].
    split; [reflexivity|]. split; [exact Hs|].
    change (M4.pages {| M4.df := M4.df p; M4.size := M4.size p;
                        M4.i := Z.max 1 (Z.min n (M4.pages p)) |})
      with (M4.pages p).
    pose proof (pages_ge_1 p). lia.
  - unfold M4.cmd_next. destruct (Z.leb_spec (M4.pages p) (M4.i p)); [auto|].
    cbn [fst M4.df M4.size M4.i]. split; [reflexivity|]. split; [exact Hs|].
    change (M4.pages {| M4.df := M4.df p; M4.size := M4.size p; M4.i := M4.i p + 1 |})
      with (M4.pages p). lia.
  - unfold M4.cmd_prev. destruct (Z.leb_spec (M4.i p) 1); [auto|].
    cbn [fst M4.df M4.size M4.i]. split; [reflexivity|]. split; [exact Hs|].
    change (M4.pages {| M4.df := M4.df p; M4.size := M4.size p; M4.i := M4.i p - 1 |})
      with (M4.pages p). lia.
Qed.

Lemma set_df_kept (p : M4.Pager) (d : DataFrame) :
  1 <= M4.size p ->
  M4.df (M4.set_df p d) = d
  /\ 1 <= M4.size (M4.set_df p d)
  /\ 1 <= M4.i (M4.set_df p d) <= M4.pages (M4.set_df p d).
Proof.
  intros Hs. split; [reflexivity|]. split; [exact Hs|].
  pose proof (pages_ge_1 (M4.set_df p d)). simpl in *. lia.
Qed.

Lemma command_kept4 df s cmd arg :
  kept4 df s -> kept4 df (fst (fst (Loop4.command s cmd arg))).
Proof.
  intros Hk. pose proof Hk as (Ho & Hsel & Hdf & Hs & Hi). unfold Loop4.command.
  repeat match goal with
         | |- context [if String.eqb cmd ?c then _ else _] => destruct (String.eqb cmd c)
         | |- context [if String.eqb cmd ?c || _ then _ else _] =>
             destruct (String.eqb cmd c || String.eqb cmd "quit")
         end; try exact Hk.
  - destruct (negb (is_empty arg)); [destruct (py_int arg)|]; exact Hk.
  - destruct (is_empty arg); [exact Hk|].
    destruct (M4.run_filter (Loop4.current s) arg) as [d|e] eqn:Hf; [|exact Hk].
    unfold kept4. cbn [fst Loop4.original Loop4.current Loop4.pager].
    split; [exact Ho|]. split; [apply (selection_filter Milestone4 df _ arg d Hsel Hf)|].
    apply set_df_kept, Hs.
  - destruct (is_empty arg); [exact Hk|].
    destruct (M4.run_sort (Loop4.current s) arg) as [d|e] eqn:Hf; [|exact Hk].
    unfold kept4. cbn [fst Loop4.original Loop4.current Loop4.pager].
    split; [exact Ho|]. split; [apply (selection_sort Milestone4 df _ arg d Hsel Hf)|].
    apply set_df_kept, Hs.
  - unfold kept4, Loop4.paging. cbn [fst Loop4.original Loop4.current Loop4.pager].
    destruct (paging_kept _ arg (M4.cmd_pagesize (Loop4.pager s) arg)
                ltac:(auto) Hs Hi) as (H1 & H2 & H3).
    split; [exact Ho|]. split; [exact Hsel|]. split; [congruence|]. split; [exact H2 | exact H3].
  - unfold kept4, Loop4.paging. cbn [fst Loop4.original Loop4.current Loop4.pager].
    destruct (paging_kept _ arg (M4.cmd_page (Loop4.pager s) arg)
                ltac:(auto) Hs Hi) as (H1 & H2 & H3).
    split; [exact Ho|]. split; [exact Hsel|]. split; [congruence|]. split; [exact H2 | exact H3].
  - unfold kept4, Loop4.paging. cbn [fst Loop4.original Loop4.current Loop4.pager].
    destruct (paging_kept _ arg (M4.cmd_next (Loop4.pager s))
                ltac:(auto) Hs Hi) as (H1 & H2 & H3).
    split; [exact Ho|]. split; [exact Hsel|]. split; [congruence|]. split; [exact H2 | exact H3].
  - unfold kept4, Loop4.paging. cbn [fst Loop4.original Loop4.current Loop4.pager].
    destruct (paging_kept _ arg (M4.cmd_prev (Loop4.pager s))
                ltac:(auto) Hs Hi) as (H1 & H2 & H3).
    split; [exact Ho|]. split; [exact Hsel|]. split; [congruence|]. split; [exact H2 | exact H3].
  - destruct (is_empty arg); exact Hk.
  - destruct (is_empty arg); exact Hk.
  - unfold kept4. cbn [fst Loop4.original Loop4.current Loop4.pager M4.df M4.size M4.i].
    split; [exact Ho|]. split; [rewrite Ho; apply selection_refl|].
    split; [reflexivity|]. split; [lia|].
    match goal with |- _ <= _ <= M4.pages ?q => pose proof (pages_ge_1 q) end. lia.
Qed.


Lemma step_kept4 df s raw : kept4 df s -> kept4 df (fst (fst (Loop4.step s raw))).
Proof.
  intros Hk. unfold Loop4.step. destruct (is_empty (strip raw)); [exact Hk|].
  destruct (Loop4.split_line (strip raw)) as [cmd arg]. apply command_kept4, Hk.
Qed.

Lemma run_kept4 df lines : forall s, kept4 df s -> kept4 df (fst (Loop4.run s lines)).
Proof.
  induction lines as [|raw rest IH]; intros s Hk; [exact Hk|].
  cbn [Loop4.run]. pose proof (step_kept4 df s raw Hk) as Hstep.
  destruct (Loop4.step s raw) as [[s' out] go]. cbn [fst] in Hstep.
  destruct go; [|exact Hstep].
  specialize (IH s' Hstep). destruct (Loop4.run s' rest) as [s'' out']. exact IH.
Qed.

Lemma start_kept4 df : kept4 df (Loop4.start df).
Proof.
  split; [reflexivity|]. split; [apply selection_refl|]. split; [reflexivity|].
  split; [simpl; lia|].
  pose proof (pages_ge_1 (Loop4.pager (Loop4.start df))). simpl in *. lia.
Qed.

(** Whatever lines a session of [milestone_4] is given: the original table
    stays the loaded one; the current table holds rows of the loaded table,
    none of them twice, under the columns of the loaded table, or, when it
    has no row, possibly under no column ([filter ,] on a table without
    rows selects no column); the pager is bound to the current table, its
    size is one or more, and its page is one of its pages. *)
Theorem loop4_keeps df lines : kept4 df (fst (Loop4.main df lines)).
Proof.
  unfold Loop4.main. pose proof (run_kept4 df lines _ (start_kept4 df)) as H.
  destruct (Loop4.run (Loop4.start df) lines) as [s out]. exact H.
Qed.

Lemma command_stops s cmd arg :
  snd (Loop4.command s cmd arg) = false -> cmd = "exit" \/ cmd = "quit".
Proof.
  unfold Loop4.command.
  repeat match goal with
         | |- context [if String.eqb cmd ?c then _ else _] =>
             destruct (String.eqb_spec cmd c)
         end;
    try (cbn [Loop4.paging snd]; discriminate);
    try (destruct (negb (is_empty arg)); [destruct (py_int arg)|]; discriminate);
    try (destruct (is_empty arg); [discriminate|];
         match goal with
         | |- context [match ?r with Ok _ => _ | Raise _ => _ end] => destruct r
         end; discriminate);
    try (destruct (is_empty arg); discriminate).
  destruct (String.eqb_spec cmd "exit"); [auto|].
  destruct (String.eqb_spec cmd "quit"); [auto|]. discriminate.
Qed.

Lemma step_command s raw :
  strip raw <> "" ->
  Loop4.step s raw
  = Loop4.command s (command_of raw) (strip (snd (Loop4.split_line (strip raw)))).
Proof.
  intros H. unfold Loop4.step, command_of. apply is_empty_false in H. rewrite H.
  destruct (Loop4.split_line (strip raw)) as [cmd arg]. reflexivity.
Qed.

Lemma step_goes_on s raw :
  command_of raw <> "exit" -> command_of raw <> "quit" -> snd (Loop4.step s raw) = true.
Proof.
  intros He Hq. destruct (is_empty (strip raw)) eqn:Hb.
  - unfold Loop4.step. rewrite Hb. reflexivity.
  - rewrite step_command by (apply is_empty_false, Hb).
    destruct (snd (Loop4.command s _ _)) eqn:Hs; [reflexivity|].
    apply command_stops in Hs. tauto.
Qed.

(** After [reset], whatever was done before, the session is the one that
    the program started with: the loaded table, page size five, page one. *)
Theorem loop4_reset df before raw :
  (forall l, In l before -> command_of l <> "exit" /\ command_of l <> "quit") ->
  command_of raw = "reset" ->
  fst (Loop4.run (Loop4.start df) (before ++ [raw])) = Loop4.start df.
Proof.
  intros Hb Hr.
  assert (H : forall s, kept4 df s -> fst (Loop4.run s (before ++ [raw])) = Loop4.start df).
  { induction before as [|l rest IH]; intros s Hk.
    - cbn [List.app Loop4.run].
      assert (Hne : strip raw <> "").
      { intros E. unfold command_of in Hr. rewrite E in Hr. discriminate Hr. }
      rewrite (step_command s raw Hne), Hr. unfold Loop4.command. cbn.
      destruct Hk as (-> & _). reflexivity.
    - cbn [List.app Loop4.run].
      pose proof (step_kept4 df s l Hk) as Hstep.
      destruct (Hb l (or_introl eq_refl)) as [He Hq].
      pose proof (step_goes_on s l He Hq) as Hgo.
      destruct (Loop4.step s l) as [[s' out] go]. cbn [fst snd] in *. subst go.
      specialize (IH (fun x Hx => Hb x (or_intror Hx)) s' Hstep).
      destruct (Loop4.run s' (rest ++ [raw])) as [s'' out']. exact IH. }
  apply H, start_kept4.
Qed.


Ltac open_branches :=
  repeat match goal with
         | |- context [if ?b then _ else _] => destruct b eqn:?
         | |- context [match ?r with Ok _ => _ | Raise _ => _ end] => destruct r eqn:?
         | |- context [match ?r with Some _ => _ | None => _ end] => destruct r eqn:?
         end.

Ltac not_refused H :=
  exfalso; destruct H as [(? & H) | [(? & H) | H]]; simpl in H;
  repeat (destruct H as [H|H]; [discriminate H|]); exact H.

Ltac effect :=
  cbn [fst snd Loop4.original Loop4.current Loop4.pager Loop4.paging];
  split; [let H := fresh in intros H; first [split; reflexivity | not_refused H] |];
  split; [reflexivity|];
  split; (let H := fresh in
          intros H; first [exfalso; apply H; reflexivity | tauto]).

Lemma command_effect s cmd arg :
  (refused (snd (fst (Loop4.command s cmd arg))) ->
   fst (fst (Loop4.command s cmd arg)) = s /\ snd (Loop4.command s cmd arg) = true)
  /\ Loop4.original (fst (fst (Loop4.command s cmd arg))) = Loop4.original s
  /\ (Loop4.current (fst (fst (Loop4.command s cmd arg))) <> Loop4.current s ->
      cmd = "filter" \/ cmd = "sort" \/ cmd = "reset")
  /\ (Loop4.pager (fst (fst (Loop4.command s cmd arg))) <> Loop4.pager s ->
      cmd = "filter" \/ cmd = "sort" \/ cmd = "reset" \/ cmd = "pagesize"
      \/ cmd = "page" \/ cmd = "next" \/ cmd = "prev").
Proof.
  destruct s as [o c p]. unfold Loop4.command.
  cbn [Loop4.original Loop4.current Loop4.pager].
  repeat match goal with
         | |- context [if String.eqb cmd ?x then _ else _] =>
             destruct (String.eqb_spec cmd x); [subst cmd|]
         end.
  all: unfold M4.cmd_pagesize, M4.cmd_page, M4.cmd_next, M4.cmd_prev, Loop4.show.
  all: open_branches.
  all: effect.
Qed.

(** A command that is refused (a usage line, an exception, an unknown
    command) leaves the session as it was, and the loop goes on; no command
    changes the original table; only [filter], [sort] and [reset] change
    the current table; only they and the four paging commands change the
    pager. *)
Theorem loop4_effects s raw :
  (refused (snd (fst (Loop4.step s raw))) ->
   fst (fst (Loop4.step s raw)) = s /\ snd (Loop4.step s raw) = true)
  /\ Loop4.original (fst (fst (Loop4.step s raw))) = Loop4.original s
  /\ (Loop4.current (fst (fst (Loop4.step s raw))) <> Loop4.current s ->
      command_of raw = "filter" \/ command_of raw = "sort" \/ command_of raw = "reset")
  /\ (Loop4.pager (fst (fst (Loop4.step s raw))) <> Loop4.pager s ->
      command_of raw = "filter" \/ command_of raw = "sort" \/ command_of raw = "reset"
      \/ command_of raw = "pagesize" \/ command_of raw = "page"
      \/ command_of raw = "next" \/ command_of raw = "prev").
Proof.
  destruct (is_empty (strip raw)) eqn:Hb.
  - unfold Loop4.step. rewrite Hb. cbn [fst snd].
    split; [auto|]. split; [reflexivity|]. split; intros H; contradiction H; reflexivity.
  - rewrite step_command by (apply is_empty_false, Hb). apply command_effect.
Qed.


Lemma command_kept3 df s cmd arg :
  kept3 df s -> kept3 df (fst (fst (Loop3.command s cmd arg))).
Proof.
  intros Hk. pose proof Hk as (Ho & Hsel). unfold Loop3.command.
  repeat match goal with
         | |- context [if String.eqb cmd ?c then _ else _] => destruct (String.eqb cmd c)
         | |- context [if String.eqb cmd ?c || _ then _ else _] =>
             destruct (String.eqb cmd c || String.eqb cmd "quit")
         end; try exact Hk.
  - destruct (is_empty arg); [|destruct (py_int arg)]; exact Hk.
  - destruct (is_empty arg); [exact Hk|].
    destruct (M3.run_filter (Loop3.current s) arg) as [d|e] eqn:Hf; [|exact Hk].
    split; [exact Ho|]. apply (selection_filter Milestone3 df _ arg d Hsel Hf).
  - destruct (is_empty arg); [exact Hk|].
    destruct (M3.run_sort (Loop3.current s) arg) as [d|e] eqn:Hf; [|exact Hk].
    split; [exact Ho|]. apply (selection_sort Milestone3 df _ arg d Hsel Hf).
  - split; [exact Ho|]. cbn [fst Loop3.current]. rewrite Ho. apply selection_refl.
Qed.

Lemma step_kept3 df s raw : kept3 df s -> kept3 df (fst (fst (Loop3.step s raw))).
Proof.
  intros Hk. unfold Loop3.step. destruct (is_empty (strip raw)); [exact Hk|].
  destruct (Loop3.split_line (strip raw)) as [cmd arg]. apply command_kept3, Hk.
Qed.

Lemma run_kept3 df lines : forall s, kept3 df s -> kept3 df (fst (Loop3.run s lines)).
Proof.
  induction lines as [|raw rest IH]; intros s Hk; [exact Hk|].
  cbn [Loop3.run]. pose proof (step_kept3 df s raw Hk) as Hstep.
  destruct (Loop3.step s raw) as [[s' out] go]. cbn [fst] in Hstep.
  destruct go; [|exact Hstep].
  specialize (IH s' Hstep). destruct (Loop3.run s' rest) as [s'' out']. exact IH.
Qed.

Lemma command3_stops s cmd arg :
  snd (Loop3.command s cmd arg) = false -> cmd = "exit" \/ cmd = "quit".
Proof.
  unfold Loop3.command.
  repeat match goal with
         | |- context [if String.eqb cmd ?c then _ else _] =>
             destruct (String.eqb_spec cmd c)
         end;
    try discriminate;
    try (destruct (is_empty arg); [|destruct (py_int arg)]; discriminate);
    try (destruct (is_empty arg); [discriminate|];
         match goal with
         | |- context [match ?r with Ok _ => _ | Raise _ => _ end] => destruct r
         end; discriminate).
  destruct (String.eqb_spec cmd "exit"); [auto|].
  destruct (String.eqb_spec cmd "quit"); [auto|]. discriminate.
Qed.

Lemma step3_command s raw :
  strip raw <> "" ->
  Loop3.step s raw
  = Loop3.command s (command3_of raw) (snd (Loop3.split_line (strip raw))).
Proof.
  intros H. unfold Loop3.step, command3_of. apply is_empty_false in H. rewrite H.
  destruct (Loop3.split_line (strip raw)) as [cmd arg]. reflexivity.
Qed.

Lemma step3_goes_on s raw :
  command3_of raw <> "exit" -> command3_of raw <> "quit" -> snd (Loop3.step s raw) = true.
Proof.
  intros He Hq. destruct (is_empty (strip raw)) eqn:Hb.
  - unfold Loop3.step. rewrite Hb. reflexivity.
  - rewrite step3_command by (apply is_empty_false, Hb).
    destruct (snd (Loop3.command s _ _)) eqn:Hs; [reflexivity|].
    apply command3_stops in Hs. tauto.
Qed.

(** Whatever lines a session of [milestone_3] is given, the original table
    stays the loaded one and the current table holds rows of the loaded
    table, none of them twice, under the columns of the loaded table, or,
    when it has no row, possibly under no column ([filter ,] on a table
    without rows selects no column); and after [reset] the session is the
    one that the program started with. *)
Theorem loop3_keeps df :
  (forall lines, kept3 df (fst (Loop3.main df lines)))
  /\ (forall before raw,
        (forall l, In l before -> command3_of l <> "exit" /\ command3_of l <> "quit") ->
        command3_of raw = "reset" ->
        fst (Loop3.run (Loop3.start df) (before ++ [raw])) = Loop3.start df).
Proof.
  assert (Hstart : kept3 df (Loop3.start df)) by (split; [reflexivity | apply selection_refl]).
  split.
  - intros lines. unfold Loop3.main. pose proof (run_kept3 df lines _ Hstart) as H.
    destruct (Loop3.run (Loop3.start df) lines) as [s out]. exact H.
  - intros before raw Hb Hr.
    assert (H : forall s, kept3 df s -> fst (Loop3.run s (before ++ [raw])) = Loop3.start df).
    { induction before as [|l rest IH]; intros s Hk.
      - cbn [List.app Loop3.run].
        assert (Hne : strip raw <> "").
        { intros E. unfold command3_of in Hr. rewrite E in Hr. discriminate Hr. }
        rewrite (step3_command s raw Hne), Hr. unfold Loop3.command. cbn.
        destruct Hk as (-> & _). reflexivity.
      - cbn [List.app Loop3.run].
        pose proof (step_kept3 df s l Hk) as Hstep.
        destruct (Hb l (or_introl eq_refl)) as [He Hq].
        pose proof (step3_goes_on s l He Hq) as Hgo.
        destruct (Loop3.step s l) as [[s' out] go]. cbn [fst snd] in *. subst go.
        specialize (IH (fun x Hx => Hb x (or_intror Hx)) s' Hstep).
        destruct (Loop3.run s' (rest ++ [raw])) as [s'' out']. exact IH. }
    apply H, Hstart.
Qed.

End Sessions.

(** ** Filters one after the other *)

Lemma split_comma_app (a b : string) :
  split_comma (a ++ String "," b) = (split_comma a ++ split_comma b)%list.
Proof.
  induction a as [|c a IH].
  - reflexivity.
  - rewrite append_cons. cbn [split_comma]. destruct (Ascii.eqb c ","); rewrite IH.
    + reflexivity.
    + destruct (split_comma a) as [|h t] eqn:E; [|reflexivity].
      destruct a as [|x a]; [discriminate E|]. cbn [split_comma] in E.
      destruct (Ascii.eqb x ","); [discriminate E|].
      destruct (split_comma a); discriminate E.
Qed.

Lemma tokens_app (a b : string) :
  tokens (a ++ "," ++ b) = (tokens a ++ tokens b)%list.
Proof.
  unfold tokens. change ("," ++ b)%string with (String "," b).
  rewrite split_comma_app, List.map_app, List.filter_app. reflexivity.
Qed.

Lemma mask_and_nil_r (a : list bool) : mask_and a [] = [].
Proof. destruct a; reflexivity. Qed.

Lemma keep_mask_and (m a b : list bool) :
  keep m (mask_and a b) = mask_and (keep m a) (keep m b).
Proof.
  revert a b. induction m as [|x m IH]; intros a b; [reflexivity|].
  destruct a as [|y a]; [reflexivity|].
  destruct b as [|z b]; [cbn [mask_and keep]; rewrite mask_and_nil_r; reflexivity|].
  destruct x; simpl; rewrite IH; reflexivity.
Qed.

Lemma keep_self_true {A} (m : list bool) (l : list A) :
  List.length m = List.length l ->
  keep m m = List.map (fun _ => true) (keep m l).
Proof.
  revert l. induction m as [|x m IH]; intros [|y l]; simpl; try discriminate; [reflexivity|].
  intros [= H]. destruct x; simpl; rewrite (IH l H); reflexivity.
Qed.

Lemma keep_nil_r {A} (m : list bool) : keep m (@nil A) = [].
Proof. destruct m; reflexivity. Qed.

(** Selecting by [a] is selecting by [m], then by what [m] leaves of [a],
    when [a] holds only where [m] holds. *)
Lemma keep_keep {A} (m a : list bool) (l : list A) :
  mask_and a m = a ->
  keep (keep m a) (keep m l) = keep a l.
Proof.
  revert a l. induction m as [|x m IH]; intros a l.
  - destruct a; [reflexivity | discriminate].
  - destruct a as [|y a]; [reflexivity|].
    destruct l as [|z l]; [intros _; cbn [keep]; rewrite keep_nil_r; reflexivity|].
    simpl. intros [= Hy Ha]. destruct x.
    + simpl. rewrite (IH a l Ha). reflexivity.
    + rewrite andb_false_r in Hy. subst y. apply IH, Ha.
Qed.

Lemma mask_and_below (a b m : list bool) :
  mask_and a m = a -> mask_and (mask_and a b) m = mask_and a b.
Proof.
  revert b m. induction a as [|x a IH]; intros [|y b] [|z m]; simpl; try reflexivity;
    try discriminate.
  intros [= Hx Ha]. rewrite (IH b m Ha). f_equal.
  destruct x, y, z; try reflexivity; discriminate Hx.
Qed.

Lemma mask_and_idem (m : list bool) : mask_and m m = m.
Proof. induction m as [|x m IH]; simpl; [reflexivity|]. rewrite IH, andb_diag. reflexivity. Qed.

Lemma keep_const {A B} (c : bool) (m : list bool) (l : list A) (l' : list B) :
  List.length l = List.length l' ->
  keep m (List.map (fun _ => c) l) = List.map (fun _ => c) (keep m l').
Proof.
  revert l l'. induction m as [|x m IH]; intros [|y l] [|z l']; simpl; try discriminate;
    try reflexivity.
  intros [= H]. destruct x; simpl; rewrite (IH l l' H); reflexivity.
Qed.

Section Composition.
Context {NUM : PyNumerics} {RE : PyRegex}.

Lemma str_contains_keep cells pat na m :
  str_contains (keep m cells) pat na
  = match str_contains cells pat na with
    | Ok mk => Ok (keep m mk)
    | Raise e => Raise e
    end.
Proof.
  unfold str_contains. destruct (re_compiles pat); [|reflexivity].
  rewrite keep_map. reflexivity.
Qed.

Lemma compare_numeric_keep op left_ val m :
  compare_numeric op (keep m left_) val
  = match compare_numeric op left_ val with
    | Ok mk => Ok (keep m mk)
    | Raise e => Raise e
    end.
Proof.
  destruct val; simpl; rewrite ?keep_map; try reflexivity.
  destruct (String.eqb op "==" || String.eqb op "!="); [rewrite keep_map|]; reflexivity.
Qed.

Lemma map_const_length {A B} (c : bool) (l : list A) (l' : list B) :
  List.length l = List.length l' ->
  List.map (fun _ => c) l = List.map (fun _ => c) l'.
Proof.
  revert l'. induction l as [|x t IH]; intros [|y l']; simpl; try discriminate; [reflexivity|].
  intros [= H]. rewrite (IH l' H). reflexivity.
Qed.

Lemma compare_numeric_none op (cells : list obj) m :
  compare_numeric op (to_numeric (keep m cells)) PNone
  = match compare_numeric op (to_numeric cells) PNone with
    | Ok mk => Ok (keep m mk)
    | Raise e => Raise e
    end.
Proof.
  simpl. f_equal. rewrite (keep_const _ m (to_numeric cells) cells (to_numeric_length cells)).
  apply map_const_length, to_numeric_length.
Qed.

(** The mask of a condition on the rows that a mask keeps is what the mask
    keeps of its mask on the table, when the condition searches a text,
    when its column has a numeric dtype, or when its value is not compared
    as a number. *)
Lemma evaluator_keep v df col op val j d m :
  column_index col (schema df) = Some (j, d) ->
  op = "~" \/ is_numeric_dtype d = true \/ reads_number v val = false ->
  evaluator_of v (select_rows df m) col op val
  = match evaluator_of v df col op val with
    | Ok mk => Ok (keep m mk)
    | Raise e => Raise e
    end.
Proof.
  intros Hj Hlocal.
  destruct v; cbn [evaluator_of]; [unfold M3.apply_condition | unfold M4.mask_for];
    unfold getitem; cbn [select_rows schema rows]; rewrite Hj; cbn [bind s_dtype values];
    unfold astype_str, numeric_values; cbn [values].
  - destruct (String.eqb_spec op "~") as [->|Hne];
      [rewrite <- !keep_map; apply str_contains_keep|].
    destruct Hlocal as [Hop | [Hd | Hval]]; [contradiction | |].
    + rewrite Hd, <- !keep_map. destruct val as [|b|z|f|text];
        try (destruct (is_comparison op); [apply compare_numeric_keep | reflexivity]).
      destruct (M3.parse_number text); [|reflexivity].
      destruct (is_comparison op); [apply compare_numeric_keep | reflexivity].
    + destruct val as [|b|z|f|text]; try discriminate Hval.
      * destruct (is_comparison op); [|reflexivity].
        destruct (is_numeric_dtype d);
          [rewrite <- !keep_map; apply compare_numeric_keep|].
        rewrite <- keep_map. apply compare_numeric_none.
      * simpl in Hval. destruct (M3.parse_number text); [discriminate Hval|].
        rewrite <- keep_map. reflexivity.
  - destruct (String.eqb_spec op "~") as [->|Hne];
      [rewrite <- !keep_map; apply str_contains_keep|].
    destruct (M4.is_number val) eqn:Hnum.
    + destruct Hlocal as [Hop | [Hd | Hval]]; [contradiction | |].
      * rewrite Hd, <- !keep_map, compare_numeric_keep.
        destruct (compare_numeric op _ val); [|reflexivity]. cbn [bind].
        destruct (is_comparison op); reflexivity.
      * destruct val; discriminate.
    + destruct (is_comparison op); [|reflexivity]. unfold compare_text.
      rewrite <- !keep_map. reflexivity.
Qed.

Lemma filter_loop_app v df (t1 t2 : list string) : forall mask0,
  filter_loop (parser_of v) (evaluator_of v) df (column_map df) (t1 ++ t2) mask0
  = let* m := filter_loop (parser_of v) (evaluator_of v) df (column_map df) t1 mask0 in
    filter_loop (parser_of v) (evaluator_of v) df (column_map df) t2 m.
Proof.
  induction t1 as [|t rest IH]; intros mask0; [reflexivity|]. simpl.
  destruct (parser_of v t) as [[[c op] val]|e]; [|reflexivity]. simpl.
  destruct (column_map df !! lower c) as [col|]; [|reflexivity].
  destruct (evaluator_of v df col op val) as [mk|e]; [|reflexivity]. simpl. apply IH.
Qed.

(** [run_filter] on an expression with a token is its loop, then the
    selection. *)
Lemma run_filter_unfold v df expr :
  tokens expr <> [] ->
  run_filter_of v df expr
  = let* mask := filter_loop (parser_of v) (evaluator_of v) df (column_map df) (tokens expr)
                   (List.map (fun _ => true) (rows df)) in
    Ok (select_rows df mask).
Proof.
  intros Hne. pose proof (boolean_mask_true df _ (or_introl Hne)) as Hb.
  destruct v; cbn [run_filter_of parser_of evaluator_of].
  - unfold M3.run_filter. rewrite Hb. destruct (is_empty (strip expr)) eqn:He; [|reflexivity].
    apply is_empty_true, tokens_blank in He. contradiction.
  - unfold M4.run_filter, M4.cmap. rewrite Hb. reflexivity.
Qed.

Lemma filter_loop_keep v df m1 toks :
  (forall t, In t toks -> row_wise v df t) ->
  List.length m1 = len df ->
  forall a,
    List.length a = len df -> mask_and a m1 = a ->
    match filter_loop (parser_of v) (evaluator_of v) df (column_map df) toks a with
    | Ok r =>
        filter_loop (parser_of v) (evaluator_of v) (select_rows df m1) (column_map df) toks
          (keep m1 a) = Ok (keep m1 r)
        /\ mask_and r m1 = r
    | Raise e =>
        filter_loop (parser_of v) (evaluator_of v) (select_rows df m1) (column_map df) toks
          (keep m1 a) = Raise e
    end.
Proof.
  intros Hlocal Hm1. induction toks as [|t rest IH]; intros a Ha Hle; [simpl; auto|].
  simpl. destruct (parser_of v t) as [[[c op] val]|e] eqn:Hp; [|reflexivity]. simpl.
  destruct (column_map df !! lower c) as [col|] eqn:Hc; [|reflexivity].
  destruct (column_index_In col (schema df) (column_map_In df _ _ Hc)) as (j & d & Hj).
  rewrite (evaluator_keep v df col op val j d m1 Hj
             (Hlocal t (or_introl eq_refl) c op val col j d Hp Hc Hj)).
  destruct (evaluator_of v df col op val) as [mk|e] eqn:Hmk; [|reflexivity]. simpl.
  rewrite <- keep_mask_and.
  apply (IH (fun x Hx => Hlocal x (or_intror Hx))).
  - rewrite mask_and_length; [exact Ha|].
    rewrite Ha, (evaluator_length v df col op val mk Hmk). reflexivity.
  - apply mask_and_below, Hle.
Qed.

(** Two filters in a row are the filter of all their conditions: after
    [run_filter] returned a table on a first expression, which has a
    condition unless the table has rows, [run_filter] on that table and a
    second expression gives what [run_filter] gives on the first table and
    the two expressions joined by a comma, a table or an error, when the
    conditions of the second expression are evaluated row by row. *)
Theorem filter_in_two_steps v df e1 e2 d1 :
  tokens e1 <> [] \/ rows df <> [] ->
  run_filter_of v df e1 = Ok d1 ->
  tokens e2 <> [] ->
  (forall t, In t (tokens e2) -> row_wise v df t) ->
  run_filter_of v d1 e2 = run_filter_of v df (e1 ++ "," ++ e2).
Proof.
  intros Hb H1 Hne Hlocal. apply (run_filter_rows v df e1 d1 Hb) in H1.
  destruct H1 as (m1 & Hl1 & ->).
  pose proof (filter_loop_spec v df _ _ _ (List.length_map _ _) Hl1) as [Hlen _].
  rewrite (run_filter_unfold v (select_rows df m1) e2 Hne).
  rewrite (run_filter_unfold v df (e1 ++ "," ++ e2)).
  2:{ rewrite tokens_app. intros E. apply List.app_eq_nil in E. destruct E as [_ E].
      contradiction. }
  rewrite tokens_app, filter_loop_app, Hl1. cbn [bind].
  change (column_map (select_rows df m1)) with (column_map df).
  cbn [select_rows rows]. rewrite <- (keep_self_true m1 (rows df) Hlen).
  pose proof (filter_loop_keep v df m1 (tokens e2) Hlocal Hlen m1 Hlen (mask_and_idem m1)) as Hk.
  destruct (filter_loop (parser_of v) (evaluator_of v) df (column_map df) (tokens e2) m1)
    as [r|e].
  - destruct Hk as [-> Hle]. cbn [bind]. unfold select_rows. cbn [schema rows].
    rewrite (keep_keep m1 r (rows df) Hle). reflexivity.
  - rewrite Hk. reflexivity.
Qed.

End Composition.

(** ** The two programs on the same input *)

Lemma tokens_stripped expr t : In t (tokens expr) -> strip t = t /\ t <> "".
Proof.
  unfold tokens. intros H. apply List.filter_In in H. destruct H as [H Hne].
  apply List.in_map_iff in H. destruct H as (piece & <- & _).
  split; [apply strip_idem|]. apply is_empty_false. apply negb_true_iff, Hne.
Qed.

Section Milestones.
Context {NUM : PyNumerics} {RE : PyRegex}.

Lemma parsers_agree tok : M3.parse_condition tok = M4.parse_cond (strip tok).
Proof. rewrite parse_condition_split, parse_cond_split. reflexivity. Qed.

Lemma evaluators_agree df col op val :
  In op OPS -> op = "~" \/ M4.is_number val = true ->
  M3.apply_condition df col op val = M4.mask_for df col op val.
Proof.
  intros Hop Hval. unfold M3.apply_condition, M4.mask_for.
  destruct (getitem df col) as [s|e]; [|reflexivity]. cbn [bind].
  destruct (String.eqb_spec op "~") as [->|Hne]; [reflexivity|].
  destruct Hval as [Hval|Hval]; [contradiction|]. rewrite Hval.
  rewrite (operator_is_comparison op Hop Hne).
  destruct val as [|b|z|f|text]; try discriminate Hval;
    match goal with |- ?x = _ => destruct x; reflexivity end.
Qed.

Lemma filter_loops_agree df toks :
  (forall t, In t toks -> strip t = t) ->
  (forall t c op val, In t toks -> M4.parse_cond t = Ok (c, op, val) ->
     op = "~" \/ M4.is_number val = true) ->
  forall mask,
    filter_loop M3.parse_condition M3.apply_condition df (column_map df) toks mask
    = filter_loop M4.parse_cond M4.mask_for df (column_map df) toks mask.
Proof.
  induction toks as [|t rest IH]; intros Hs Hv mask; [reflexivity|].
  simpl. rewrite parsers_agree, (Hs t (or_introl eq_refl)).
  destruct (M4.parse_cond t) as [[[c op] val]|e] eqn:Hp; [|reflexivity]. simpl.
  destruct (column_map df !! lower c) as [col|]; [|reflexivity].
  rewrite (evaluators_agree df col op val (parser_operator Milestone4 t c op val Hp)
             (Hv t c op val (or_introl eq_refl) Hp)).
  destruct (M4.mask_for df col op val) as [m|e]; [|reflexivity]. simpl.
  apply IH; [intros x Hx; apply Hs; right; exact Hx|].
  intros x c' op' val' Hx. apply Hv. right. exact Hx.
Qed.

(** Where the two programs agree: on an expression with a token,
    [run_sort] is the same function in both; so is [run_filter], errors
    included, when every condition searches a text or has a number as its
    value; and every token of an expression is parsed alike by both. *)
Theorem milestones_agree df expr :
  tokens expr <> [] ->
  M3.run_sort df expr = M4.run_sort df expr
  /\ ((forall t c op val, In t (tokens expr) -> M4.parse_cond t = Ok (c, op, val) ->
         op = "~" \/ M4.is_number val = true) ->
      M3.run_filter df expr = M4.run_filter df expr)
  /\ (forall t, In t (tokens expr) -> M3.parse_condition t = M4.parse_cond t).
Proof.
  intros Hne.
  assert (Hb : is_empty (strip expr) = false).
  { destruct (is_empty (strip expr)) eqn:He; [|reflexivity].
    apply is_empty_true, tokens_blank in He. contradiction. }
  split; [|split].
  - unfold M3.run_sort, M4.run_sort, M4.cmap. rewrite Hb.
    destruct (tokens expr) as [|c more]; [contradiction | reflexivity].
  - intros Hv. unfold M3.run_filter, M4.run_filter, M4.cmap. rewrite Hb.
    rewrite filter_loops_agree; [reflexivity | | exact Hv].
    intros t Ht. apply (tokens_stripped expr t Ht).
  - intros t Ht. rewrite parsers_agree. destruct (tokens_stripped expr t Ht) as [-> _].
    reflexivity.
Qed.

End Milestones.

(** ** What the parsers refuse *)

Lemma contains_app sep l r : contains sep (l ++ sep ++ r) = true.
Proof.
  induction l as [|c l IH].
  - change ("" ++ sep ++ r)%string with (sep ++ r)%string.
    destruct (sep ++ r)%string eqn:E; simpl; rewrite <- E, startswith_app; reflexivity.
  - rewrite append_cons. simpl. rewrite IH. apply orb_true_r.
Qed.

Lemma split_once_contains sep s :
  split_once sep s = None <-> contains sep s = false.
Proof.
  split; [apply split_once_none|]. intros H.
  destruct (split_once sep s) as [[l r]|] eqn:E; [|reflexivity].
  apply split_once_app in E. rewrite E, contains_app in H. discriminate.
Qed.

Lemma first_split_none ops s :
  first_split ops s = None <-> forall op, In op ops -> contains op s = false.
Proof.
  induction ops as [|o rest IH]; simpl; [split; [intros _ ? [] | reflexivity]|].
  destruct (split_once o s) as [[l r]|] eqn:E.
  - split; [discriminate|]. intros H. specialize (H o (or_introl eq_refl)).
    apply (proj2 (split_once_contains o s)) in H. rewrite H in E. discriminate.
  - rewrite IH. apply (proj1 (split_once_contains o s)) in E. split.
    + intros H op [<-|Hop]; auto.
    + intros H op Hop. apply H. right. exact Hop.
Qed.

Section ParserRefuses.
Context {NUM : PyNumerics} {RE : PyRegex}.

(** When the parsers refuse a token: as an invalid condition exactly when
    none of the operators occurs in it; for a missing column exactly when
    the left side of the cut is blank; and else only for a missing value. *)
Theorem parser_refuses v tok :
  (forall x, parser_of v tok = Raise (ValueError (InvalidCondition x)) <->
     x = scanned v tok /\ forall op, In op OPS -> contains op (scanned v tok) = false)
  /\ (parser_of v tok = Raise (ValueError MissingColumn) <->
      exists op l r, first_split OPS (scanned v tok) = Some (op, l, r) /\ strip l = "")
  /\ (forall e, parser_of v tok = Raise e ->
        e = ValueError (InvalidCondition (scanned v tok))
        \/ e = ValueError MissingColumn \/ e = ValueError MissingValue).
Proof.
  rewrite parser_split. unfold parsed.
  destruct (first_split OPS (scanned v tok)) as [[[op l] r]|] eqn:Hsp.
  - assert (Hsome : ~ forall op, In op OPS -> contains op (scanned v tok) = false).
    { intros H. apply (proj2 (first_split_none _ _)) in H. rewrite H in Hsp. discriminate. }
    destruct (is_empty (strip l)) eqn:Hl.
    + apply is_empty_true in Hl. split; [|split].
      * intros x. split; [discriminate | intros [_ H]; contradiction].
      * split; [intros _; exists op, l, r; auto | reflexivity].
      * intros e [= <-]. auto.
    + apply is_empty_false in Hl.
      destruct (negb (String.eqb op "~") && is_empty (strip r)).
      * split; [|split].
        -- intros x. split; [discriminate | intros [_ H]; contradiction].
        -- split; [discriminate|]. intros (op' & l' & r' & [= <- <- <-] & E). contradiction.
        -- intros e [= <-]. auto.
      * split; [|split].
        -- intros x. split; [discriminate | intros [_ H]; contradiction].
        -- split; [discriminate|]. intros (op' & l' & r' & [= <- <- <-] & E). contradiction.
        -- discriminate.
  - pose proof (proj1 (first_split_none _ _) Hsp) as Hnone. split; [|split].
    + intros x. split; [intros [= <-]; auto | intros [-> _]; reflexivity].
    + split; [discriminate | intros (op & l & r & E & _); discriminate E].
    + intros e [= <-]. auto.
Qed.

End ParserRefuses.

(** ** Commas *)

Lemma no_comma_contains s : no_comma s = true <-> contains "," s = false.
Proof.
  unfold no_comma. induction s as [|c s IH]; [simpl; tauto|].
  cbn [all_chars contains]. rewrite startswith_cons.
  destruct (Ascii.eqb_spec c ",") as [->|Hne].
  - simpl. split; discriminate.
  - destruct (Ascii.eqb_spec "," c) as [E|_]; [symmetry in E; contradiction|].
    simpl. exact IH.
Qed.

Lemma split_comma_pieces s : forall piece, In piece (split_comma s) -> no_comma piece = true.
Proof.
  induction s as [|c s IH]; simpl.
  - intros piece [<-|[]]. reflexivity.
  - destruct (Ascii.eqb c ",") eqn:Hc.
    + intros piece [<-|H]; [reflexivity | apply IH, H].
    + destruct (split_comma s) as [|h t].
      * intros piece [<-|[]]. unfold no_comma. simpl. rewrite Hc. reflexivity.
      * intros piece [<-|H]; [|apply IH; right; exact H].
        unfold no_comma. simpl. rewrite Hc. apply (IH h). left. reflexivity.
Qed.

Lemma lstrip_chars p s : all_chars p s = true -> all_chars p (lstrip s) = true.
Proof.
  induction s as [|c s IH]; simpl; [reflexivity|]. intros H.
  apply andb_true_iff in H. destruct H as [Hc Hs].
  destruct (isspace c); [apply IH, Hs|]. simpl. rewrite Hc, Hs. reflexivity.
Qed.

Lemma rstrip_chars p s : all_chars p s = true -> all_chars p (rstrip s) = true.
Proof.
  induction s as [|c s IH]; simpl; [reflexivity|]. intros H.
  apply andb_true_iff in H. destruct H as [Hc Hs]. specialize (IH Hs).
  destruct (rstrip s) as [|x r].
  - destruct (isspace c); simpl; rewrite ?Hc; reflexivity.
  - change (all_chars p (String c (String x r)) = true). simpl in *. rewrite Hc. exact IH.
Qed.

Lemma strip_chars p s : all_chars p s = true -> all_chars p (strip s) = true.
Proof. intros H. apply rstrip_chars, lstrip_chars, H. Qed.

Section Commas.
Context {NUM : PyNumerics} {RE : PyRegex}.

Lemma to_val_chars p s t :
  all_chars p s = true -> M4.to_val s = PStr t -> all_chars p t = true.
Proof.
  intros Hs. apply (strip_chars p) in Hs. unfold M4.to_val.
  destruct (unquote (strip s)) as [inner|] eqn:Hu.
  - intros [= <-]. apply unquote_inv in Hu. destruct Hu as (q & _ & E).
    rewrite E in Hs. simpl in Hs. apply andb_true_iff in Hs. destruct Hs as [_ Hs].
    rewrite all_chars_app in Hs. apply andb_true_iff in Hs. apply Hs.
  - destruct (String.eqb (lower (strip s)) "none" || String.eqb (lower (strip s)) "null");
      [discriminate|].
    destruct (String.eqb (lower (strip s)) "true" || String.eqb (lower (strip s)) "false");
      [discriminate|].
    unfold M4.parse_number. destruct (contains "." (strip s)).
    + destruct (py_float (strip s)); simpl; [discriminate | intros [= <-]; exact Hs].
    + destruct (py_int (strip s)); simpl; [discriminate | intros [= <-]; exact Hs].
Qed.

(** An expression is cut at every comma before its conditions are read: no
    token holds a comma, and so neither does the column nor a text value of
    a condition, quoted or not. *)
Theorem conditions_hold_no_comma v expr t :
  In t (tokens expr) ->
  contains "," t = false
  /\ forall c op val,
       parser_of v t = Ok (c, op, val) ->
       contains "," c = false /\ forall s, val = PStr s -> contains "," s = false.
Proof.
  intros Ht.
  assert (Hn : no_comma t = true).
  { unfold tokens in Ht. apply List.filter_In in Ht. destruct Ht as [Ht _].
    apply List.in_map_iff in Ht. destruct Ht as (piece & <- & Hp).
    apply strip_chars. apply (split_comma_pieces expr piece Hp). }
  split; [apply (proj1 (no_comma_contains t)), Hn|].
  intros c op val. rewrite parser_split. unfold parsed.
  assert (Hscan : no_comma (scanned v t) = true)
    by (destruct v; [apply strip_chars, Hn | exact Hn]).
  destruct (first_split OPS (scanned v t)) as [[[op' l] r]|] eqn:Hsp; [|discriminate].
  destruct (is_empty (strip l)); [discriminate|].
  destruct (negb (String.eqb op' "~") && is_empty (strip r)); [discriminate|].
  intros [= <- <- <-]. apply first_split_spec in Hsp. destruct Hsp as (Hs & _).
  apply split_once_app in Hs. unfold no_comma in Hscan.
  rewrite Hs, !all_chars_app in Hscan.
  apply andb_true_iff in Hscan. destruct Hscan as [Hl Hr].
  apply andb_true_iff in Hr. destruct Hr as [_ Hr].
  split; [apply (proj1 (no_comma_contains _)), strip_chars, Hl|].
  intros s Hv. apply (proj1 (no_comma_contains _)).
  apply (to_val_chars _ (strip r) s); [apply strip_chars, Hr | exact Hv].
Qed.

End Commas.

(** ** Walking through the pages *)

(** [next], again and again, goes through the pages one by one and stays
    on the last; [prev] goes back one by one and stays on the first;
    neither changes the table nor the page size. *)
Theorem next_walks (p : M4.Pager) (k : nat) :
  1 <= M4.i p <= M4.pages p ->
  M4.i (presses M4.cmd_next k p) = Z.min (M4.i p + Z.of_nat k) (M4.pages p)
  /\ M4.i (presses M4.cmd_prev k p) = Z.max (M4.i p - Z.of_nat k) 1
  /\ M4.df (presses M4.cmd_next k p) = M4.df p
  /\ M4.size (presses M4.cmd_next k p) = M4.size p
  /\ M4.df (presses M4.cmd_prev k p) = M4.df p
  /\ M4.size (presses M4.cmd_prev k p) = M4.size p.
Proof.
  revert p. induction k as [|k IH]; intros p Hi.
  - cbn [presses]. repeat split; lia.
  - cbn [presses].
    assert (Hn : M4.df (fst (M4.cmd_next p)) = M4.df p
                 /\ M4.size (fst (M4.cmd_next p)) = M4.size p
                 /\ M4.i (fst (M4.cmd_next p)) = Z.min (M4.i p + 1) (M4.pages p)).
    { unfold M4.cmd_next. destruct (Z.leb_spec (M4.pages p) (M4.i p)); simpl; repeat split; lia. }
    assert (Hp : M4.df (fst (M4.cmd_prev p)) = M4.df p
                 /\ M4.size (fst (M4.cmd_prev p)) = M4.size p
                 /\ M4.i (fst (M4.cmd_prev p)) = Z.max (M4.i p - 1) 1).
    { unfold M4.cmd_prev. destruct (Z.leb_spec (M4.i p) 1); simpl; repeat split; lia. }
    destruct Hn as (Hn1 & Hn2 & Hn3), Hp as (Hp1 & Hp2 & Hp3).
    assert (Hpn : M4.pages (fst (M4.cmd_next p)) = M4.pages p)
      by (unfold M4.pages; rewrite Hn1, Hn2; reflexivity).
    assert (Hpp : M4.pages (fst (M4.cmd_prev p)) = M4.pages p)
      by (unfold M4.pages; rewrite Hp1, Hp2; reflexivity).
    destruct (IH (fst (M4.cmd_next p)) ltac:(lia)) as (A1 & _ & A3 & A4 & _ & _).
    destruct (IH (fst (M4.cmd_prev p)) ltac:(lia)) as (_ & B2 & _ & _ & B5 & B6).
    rewrite A1, B2, A3, A4, B5, B6, Hpn, Hn1, Hn2, Hn3, Hp1, Hp2, Hp3.
    repeat split; lia.
Qed.

(** ** What [run_filter] returns *)



Section SoundFilter.
Context {NUM : PyNumerics} {RE : PyRegex}.





End SoundFilter.

(** * The programs on concrete tables

    From here on the library interfaces are the reference ones. *)

Section Concrete.
#[local] Existing Instance Reference.exact_numerics.
#[local] Existing Instance Reference.plain_dot_regex.
#[local] Existing Instance ReferencePath.posix_path.

(** The claim C7 as the specification words it fails on a bare operator: the
    right side of [==] is empty and the operator is not [~], and yet the
    failure is "missing column", in both programs. *)
Lemma missing_column_comes_first :
  first_split OPS "==" = Some ("==", "", "")
  /\ strip "" = ""
  /\ M4.parse_cond "==" = Raise (ValueError MissingColumn)
  /\ M3.parse_condition "==" = Raise (ValueError MissingColumn)
  /\ M4.parse_cond "~" = Raise (ValueError MissingColumn).
Proof. repeat split; reflexivity. Qed.


(** [sort A,desc] on two rows with the same [A]: they keep their order. *)
Lemma run_sort_stable_witness :
  run_sort_of Milestone4 ties "A,desc" = Ok ties
  /\ exists col_raw more col j d indexer,
       tokens "A,desc" = col_raw :: more
       /\ column_map ties !! lower col_raw = Some col
       /\ column_index col (schema ties) = Some (j, d)
       /\ schema ties = schema ties
       /\ Permutation indexer (seq 0 (len ties))
       /\ rows ties = List.map (fun a => List.nth a (rows ties) []) indexer
       /\ (forall p q a b,
             (p < q)%nat -> indexer !! p = Some a -> indexer !! q = Some b ->
             same_value (cell j (List.nth a (rows ties) []))
                        (cell j (List.nth b (rows ties) [])) = true ->
             (a < b)%nat)
       /\ (forall o,
             List.filter (fun r => same_value o (cell j r)) (rows ties)
             = List.filter (fun r => same_value o (cell j r)) (rows ties)).
Proof.
  split; [vm_compute; reflexivity|].
  exact (run_sort_stable Milestone4 ties "A,desc" ties eq_refl).
Defined.

(** Page 2 of the three rows, two to a page. *)
Lemma pager_invariant_witness :
  let p := {| M4.df := people; M4.size := 2; M4.i := 2 |} in
  1 <= M4.size p
  /\ M4.pages p = Z.max 1 (ceil_div 3 2)
  /\ M4.pages p = 2
  /\ rows (M4.view p) = [[PInt 40; PStr "IT"]].
Proof.
  split; [simpl; lia|].
  split; [|split; reflexivity].
  exact (proj1 (pager_invariant {| M4.df := people; M4.size := 2; M4.i := 2 |}
                  ltac:(simpl; lia))).
Defined.

(** The claim C5 as the specification words it fails for [!=]: the cell
    [abc] is no number, and [Age!=30] selects its row, in both programs. *)
Lemma unparsed_cell_matches_ne :
  to_numeric_obj (PStr "abc") = NFloat FNaN
  /\ M4.mask_for survey "Age" "!=" (PInt 30) = Ok [true; false]
  /\ M3.apply_condition survey "Age" "!=" (PInt 30) = Ok [true; false]
  /\ M4.run_filter survey "Age!=30"
     = Ok {| schema := schema survey; rows := [[PNone; PStr "abc"]] |}.
Proof. repeat split; vm_compute; reflexivity. Qed.

Lemma unparsed_cell_mask_witness :
  is_comparison "<=" = true
  /\ M4.is_number (PInt 30) = true
  /\ to_numeric_obj (PStr "abc") = NFloat FNaN
  /\ exists m, evaluator_of Milestone4 survey "Age" "<=" (PInt 30) = Ok m
               /\ m !! O = Some false.
Proof.
  repeat (split; [reflexivity|]).
  exact (unparsed_cell_mask Milestone4 survey "Age" "<=" (PInt 30)
           {| s_dtype := ObjectDtype; values := [PStr "abc"; PStr "30"] |}
           O (PStr "abc") eq_refl eq_refl eq_refl eq_refl eq_refl).
Defined.

(** The claim C9 as the specification words it fails at [pagesize 0]: the
    command succeeds and the size is one; [Pager(df, 0)] has size one; and
    [pagesize -3] gets the usage line, the pager unchanged. *)
Lemma pagesize_zero_is_clamped :
  M4.cmd_pagesize (M4.Pager_init people 5) "0"
  = ({| M4.df := people; M4.size := 1; M4.i := 1 |}, [M4.Line "Page size: 1"])
  /\ M4.size (M4.Pager_init people 0) = 1
  /\ M4.cmd_pagesize (M4.Pager_init people 5) "-3"
     = (M4.Pager_init people 5, [M4.Usage "Usage: pagesize N"]).
Proof. repeat split; reflexivity. Qed.



(** [sort Age,desc]: the ages come out in descending order. *)
Lemma run_sort_sorted_witness :
  run_sort_of Milestone4 people "Age,desc"
  = Ok {| schema := schema people;
          rows := [[PInt 40; PStr "IT"]; [PInt 30; PStr "IT"]; [PInt 20; PStr "HR"]] |}
  /\ exists col_raw more col j d ks m,
       tokens "Age,desc" = col_raw :: more
       /\ column_map people !! lower col_raw = Some col
       /\ column_index col (schema people) = Some (j, d)
       /\ List.map (fun r => sort_key (cell j r))
            [[PInt 40; PStr "IT"]; [PInt 30; PStr "IT"]; [PInt 20; PStr "HR"]]
          = List.map Some ks ++ List.repeat None m
       /\ sorted_by (direction_le (negb (descending more))) ks.
Proof.
  split; [vm_compute; reflexivity|].
  exact (run_sort_sorted Milestone4 people "Age,desc"
           {| schema := schema people;
              rows := [[PInt 40; PStr "IT"]; [PInt 30; PStr "IT"]; [PInt 20; PStr "HR"]] |}
           eq_refl).
Defined.

(** [page 7] on two pages. *)
Lemma page_stays_in_range_witness :
  let p := M4.Pager_init people 2 in
  1 <= M4.i p <= M4.pages p
  /\ M4.i (fst (M4.cmd_page p "7")) = 2
  /\ 1 <= M4.i (fst (M4.cmd_page p "7")) <= M4.pages (fst (M4.cmd_page p "7")).
Proof.
  assert (H : 1 <= M4.i (M4.Pager_init people 2) <= M4.pages (M4.Pager_init people 2))
    by (vm_compute; split; discriminate).
  split; [exact H|]. split; [reflexivity|].
  exact (proj1 (page_stays_in_range (M4.Pager_init people 2) "7" people H)
           _ (or_introl eq_refl)).
Defined.

(** [Age!=abc] in [milestone_3]. *)
Lemma apply_condition_text_witness :
  String.eqb "!=" "~" = false
  /\ M3.parse_number "abc" = None
  /\ M3.apply_condition people "Age" "!=" (PStr "abc") = Ok [false; false; false].
Proof.
  repeat (split; [reflexivity|]).
  exact (apply_condition_text people "Age" "!=" "abc"
           {| s_dtype := Int64; values := [PInt 20; PInt 30; PInt 40] |}
           eq_refl eq_refl eq_refl).
Defined.

(** [Name~ali] *)
Example contains_plain_on_names :
  plain_pattern "ali" = true
  /\ evaluator_of Milestone4 names "Name" "~" (PStr "ali") = Ok [true; false; true].
Proof.
  split; [reflexivity|].
  exact (contains_plain Milestone4 names "Name" (PStr "ali")
           {| s_dtype := ObjectDtype; values := [PStr "Ali"; PStr "Bob"; PStr "Khalid"] |}
           eq_refl eq_refl).
Qed.

(** [sort dept,Desc] on the table of the specification. *)
Lemma run_sort_returns_witness :
  tokens "dept,Desc" = ["dept"; "Desc"]
  /\ column_map people !! lower "dept" = Some "Dept"
  /\ exists df', run_sort_of Milestone3 people "dept,Desc" = Ok df'.
Proof.
  split; [reflexivity|]. split; [vm_compute; reflexivity|].
  exact (run_sort_returns Milestone3 people "dept,Desc" "dept" ["Desc"] "Dept"
           {| s_dtype := ObjectDtype; values := [PStr "HR"; PStr "IT"; PStr "IT"] |}
           eq_refl (or_intror eq_refl) eq_refl eq_refl eq_refl).
Defined.

(** A table without rows has one page, and it is empty. *)
Example empty_table_has_one_page :
  let p := M4.Pager_init {| schema := schema people; rows := [] |} 5 in
  M4.pages p = 1 /\ rows (M4.view p) = [].
Proof. split; reflexivity. Qed.

(** [Age>=30] is cut at [>=], not at [>]. *)
Lemma parser_cuts_at_first_operator_witness :
  parser_of Milestone4 "Age>=30" = Ok ("Age", ">=", PInt 30)
  /\ tried_before ">" OPS = ["=="; "!="; ">="; "<="]
  /\ exists l r,
       scanned Milestone4 "Age>=30" = (l ++ ">=" ++ r)%string
       /\ In ">=" OPS
       /\ (forall op', In op' (tried_before ">=" OPS) ->
             contains op' (scanned Milestone4 "Age>=30") = false)
       /\ (forall l' r', scanned Milestone4 "Age>=30" = (l' ++ ">=" ++ r')%string ->
             (String.length l <= String.length l')%nat)
       /\ "Age" = strip l /\ "Age" <> ""
       /\ PInt 30 = M4.to_val (strip r)
       /\ (">=" <> "~" -> strip r <> "").
Proof.
  split; [reflexivity|]. split; [reflexivity|].
  exact (parser_cuts_at_first_operator Milestone4 "Age>=30" "Age" ">=" (PInt 30) eq_refl).
Defined.

(** [Age>= 30], with a blank before the value. *)
Lemma spelled_condition_round_trip_witness :
  tokens ("Age" ++ ">=" ++ " 30") = [("Age" ++ ">=" ++ " 30")%string]
  /\ parser_of Milestone3 ("Age" ++ ">=" ++ " 30")
     = if negb (String.eqb ">=" "~") && is_empty (strip " 30")
       then Raise (ValueError MissingValue)
       else Ok ("Age", ">=", M4.to_val " 30").
Proof.
  apply (spelled_condition_round_trip Milestone3 "Age" ">=" " 30").
  - reflexivity.
  - right. right. left. reflexivity.
  - reflexivity.
Defined.

(** [Dept==IT,Age>25,Age>25] keeps what [Age>25,Dept==IT] keeps. *)
Lemma run_filter_any_order_witness :
  run_filter_of Milestone4 people "Dept==IT,Age>25,Age>25"
  = Ok {| schema := schema people; rows := [[PInt 30; PStr "IT"]; [PInt 40; PStr "IT"]] |}.
Proof.
  apply (run_filter_any_order Milestone4 people "Age>25,Dept==IT").
  - intros t. vm_compute. tauto.
  - vm_compute. discriminate.
  - vm_compute. reflexivity.
Defined.

(** In [Age>25,Nope==1,Dept~(] the second condition fails first. *)
Lemma run_filter_raises_witness :
  (Milestone4 = Milestone3 /\ strip "Age>25,Nope==1,Dept~(" = ""
   /\ KeyError (UnknownColumn "Nope" ["Age"; "Dept"]) = ValueError EmptyFilter)
  \/ exists before t after,
       tokens "Age>25,Nope==1,Dept~(" = before ++ t :: after
       /\ (forall t', In t' before -> succeeds Milestone4 people t')
       /\ ((parser_of Milestone4 t = Raise (KeyError (UnknownColumn "Nope" ["Age"; "Dept"]))
            /\ (KeyError (UnknownColumn "Nope" ["Age"; "Dept"]) = ValueError MissingColumn
                \/ KeyError (UnknownColumn "Nope" ["Age"; "Dept"]) = ValueError MissingValue
                \/ KeyError (UnknownColumn "Nope" ["Age"; "Dept"])
                   = ValueError (InvalidCondition (scanned Milestone4 t))))
           \/ (exists col_raw op val,
                 parser_of Milestone4 t = Ok (col_raw, op, val)
                 /\ column_map people !! lower col_raw = None
                 /\ KeyError (UnknownColumn "Nope" ["Age"; "Dept"])
                    = KeyError (UnknownColumn col_raw (columns people)))
           \/ (exists col_raw val col,
                 parser_of Milestone4 t = Ok (col_raw, "~", val)
                 /\ column_map people !! lower col_raw = Some col
                 /\ re_compiles (py_str val) = false
                 /\ KeyError (UnknownColumn "Nope" ["Age"; "Dept"]) = ReError)).
Proof.
  apply (run_filter_raises Milestone4 people "Age>25,Nope==1,Dept~("
           (KeyError (UnknownColumn "Nope" ["Age"; "Dept"]))).
  vm_compute. reflexivity.
Defined.

(** [age>=30] on the table of people, in [milestone_3]. *)
Lemma filter_by_integer_witness :
  run_filter_of Milestone3 people ("age" ++ ">=" ++ "30")
  = Ok {| schema := schema people;
          rows := List.filter
                    (fun row => match cell 0 row with
                                | PInt x => cmp_holds ">=" (Some (Z.compare x 30))
                                | _ => false
                                end) (rows people) |}
  /\ List.filter
       (fun row => match cell 0 row with
                   | PInt x => cmp_holds ">=" (Some (Z.compare x 30))
                   | _ => false
                   end) (rows people)
     = [[PInt 30; PStr "IT"]; [PInt 40; PStr "IT"]].
Proof.
  split; [|reflexivity].
  apply (filter_by_integer Milestone3 people "age" ">=" "30" 30 "Age" 0%nat Int64).
  - reflexivity.
  - simpl. tauto.
  - discriminate.
  - reflexivity.
  - reflexivity.
  - vm_compute. reflexivity.
  - reflexivity.
  - intros row [<-|[<-|[<-|[]]]]; eexists; reflexivity.
Defined.

(** [Dept==IT] in [milestone_4]; and [Age<abc], which compares the text of
    the numbers with [abc]. *)
Lemma filter_by_text_witness :
  M4.run_filter people ("Dept" ++ "==" ++ "IT")
  = Ok {| schema := schema people;
          rows := List.filter
                    (fun row => cmp_holds "=="
                                  (Some (str_cmp (py_str (cell 1 row))
                                                 (py_str (M4.to_val "IT")))))
                    (rows people) |}
  /\ List.filter
       (fun row => cmp_holds "=="
                     (Some (str_cmp (py_str (cell 1 row)) (py_str (M4.to_val "IT")))))
       (rows people)
     = [[PInt 30; PStr "IT"]; [PInt 40; PStr "IT"]].
Proof.
  split; [|reflexivity].
  apply (filter_by_text people "Dept" "==" "IT" "Dept" 1%nat ObjectDtype).
  - reflexivity.
  - simpl. tauto.
  - discriminate.
  - reflexivity.
  - discriminate.
  - reflexivity.
  - vm_compute. reflexivity.
  - reflexivity.
Defined.

(** [name~ALI] on the table of names; [Name~007] searches for [7]. *)
Lemma filter_by_pattern_witness :
  run_filter_of Milestone3 names ("name" ++ "~" ++ "ALI")
  = Ok {| schema := schema names;
          rows := List.filter
                    (fun row => contains (lower (py_str (M4.to_val "ALI")))
                                         (lower (py_str (cell 0 row))))
                    (rows names) |}
  /\ List.filter
       (fun row => contains (lower (py_str (M4.to_val "ALI"))) (lower (py_str (cell 0 row))))
       (rows names)
     = [[PStr "Ali"]; [PStr "Khalid"]]
  /\ py_str (M4.to_val "007") = "7".
Proof.
  split; [|split; reflexivity].
  apply (filter_by_pattern Milestone3 names "name" "ALI" "Name" 0%nat ObjectDtype).
  - reflexivity.
  - reflexivity.
  - reflexivity.
  - vm_compute. reflexivity.
  - reflexivity.
Defined.

(** Commas only: [milestone_3] gets past its check and finds no token. *)
Lemma run_sort_raises_witness :
  (tokens ", ," = []
   /\ (IndexError = ValueError EmptySort /\ (Milestone3 = Milestone3 -> strip ", ," = "")
       \/ IndexError = IndexError /\ Milestone3 = Milestone3 /\ strip ", ," <> ""))
  \/ exists col_raw more,
       tokens ", ," = col_raw :: more
       /\ ((~ valid_order more /\ IndexError = ValueError InvalidOrder)
           \/ (valid_order more
               /\ column_map people !! lower col_raw = None
               /\ IndexError = KeyError (UnknownColumn col_raw (columns people)))
           \/ (valid_order more
               /\ exists col s,
                    column_map people !! lower col_raw = Some col
                    /\ getitem people col = Ok s
                    /\ comparable (List.map snd (non_nans 0 (values s))) = false
                    /\ IndexError = TypeError)).
Proof.
  apply (run_sort_raises Milestone3 people ", ," IndexError). reflexivity.
Defined.

(** [AGE , Desc, Dept] sorts as [age,desc] does. *)
Lemma run_sort_reads_witness :
  run_sort_of Milestone4 people "AGE , Desc, Dept"
  = Ok {| schema := schema people;
          rows := [[PInt 40; PStr "IT"]; [PInt 30; PStr "IT"]; [PInt 20; PStr "HR"]] |}.
Proof.
  apply (run_sort_reads Milestone4 people "age,desc" "AGE , Desc, Dept"
           "age" ["desc"] "AGE" ["Desc"; "Dept"]).
  - reflexivity.
  - reflexivity.
  - reflexivity.
  - reflexivity.
  - vm_compute. reflexivity.
Defined.

(** Three rows in pages of two: a full page and a page of one row. *)
Lemma pages_cover_witness :
  List.concat
    (List.map (fun k => rows (M4.view (at_page (M4.Pager_init people 2) (Z.of_nat k))))
       (seq 1 (Z.to_nat (M4.pages (M4.Pager_init people 2)))))
  = rows (M4.df (M4.Pager_init people 2)).
Proof. apply (pages_cover (M4.Pager_init people 2)). simpl. lia. Defined.

Lemma view_length_witness :
  Z.of_nat (len (M4.view (at_page (M4.Pager_init people 2) 2)))
  = Z.min (M4.size (at_page (M4.Pager_init people 2) 2))
      (Z.of_nat (len (M4.df (at_page (M4.Pager_init people 2) 2)))
       - (M4.i (at_page (M4.Pager_init people 2) 2) - 1)
         * M4.size (at_page (M4.Pager_init people 2) 2))
  /\ (M4.i (at_page (M4.Pager_init people 2) 2) < M4.pages (at_page (M4.Pager_init people 2) 2) ->
      Z.of_nat (len (M4.view (at_page (M4.Pager_init people 2) 2)))
      = M4.size (at_page (M4.Pager_init people 2) 2))
  /\ (0 < Z.of_nat (len (M4.df (at_page (M4.Pager_init people 2) 2))) ->
      0 < Z.of_nat (len (M4.view (at_page (M4.Pager_init people 2) 2)))).
Proof.
  apply (view_length (at_page (M4.Pager_init people 2) 2)).
  - simpl. lia.
  - vm_compute. split; discriminate.
Defined.

(** A filter, a page size and a move, then [RESET] with blanks around it. *)
Lemma loop4_reset_witness :
  fst (Loop4.run (Loop4.start people)
         (["filter Age>25"; "pagesize 1"; "next"] ++ ["  RESET  "]))
  = Loop4.start people.
Proof.
  apply (loop4_reset people ["filter Age>25"; "pagesize 1"; "next"] "  RESET  ").
  - intros l [<-|[<-|[<-|[]]]]; vm_compute; split; discriminate.
  - reflexivity.
Defined.

(** [Age>25], then [Dept==IT], is [Age>25,Dept==IT]. *)
Lemma filter_in_two_steps_witness :
  run_filter_of Milestone4
    {| schema := schema people; rows := [[PInt 30; PStr "IT"]; [PInt 40; PStr "IT"]] |}
    "Dept==IT"
  = run_filter_of Milestone4 people ("Age>25" ++ "," ++ "Dept==IT").
Proof.
  apply (filter_in_two_steps Milestone4 people "Age>25" "Dept==IT").
  - left. vm_compute. discriminate.
  - vm_compute. reflexivity.
  - vm_compute. discriminate.
  - intros t Ht. vm_compute in Ht. destruct Ht as [<-|[]].
    intros c op val col j d Hp _ _. vm_compute in Hp. injection Hp as <- <- <-.
    right. right. reflexivity.
Defined.

(** [Age>25,Dept~i]: a number and a search. *)
Lemma milestones_agree_witness :
  M3.run_sort people "Age>25,Dept~i" = M4.run_sort people "Age>25,Dept~i"
  /\ ((forall t c op val, In t (tokens "Age>25,Dept~i") -> M4.parse_cond t = Ok (c, op, val) ->
         op = "~" \/ M4.is_number val = true) ->
      M3.run_filter people "Age>25,Dept~i" = M4.run_filter people "Age>25,Dept~i")
  /\ (forall t, In t (tokens "Age>25,Dept~i") -> M3.parse_condition t = M4.parse_cond t).
Proof. apply (milestones_agree people "Age>25,Dept~i"). vm_compute. discriminate. Defined.

(** The quotes of [Name=='Smith, John'] do not keep the comma: the first
    token ends before it. *)
Lemma conditions_hold_no_comma_witness :
  tokens "Name=='Smith, John'" = ["Name=='Smith"; "John'"]
  /\ contains "," "Name=='Smith" = false
  /\ forall c op val,
       parser_of Milestone4 "Name=='Smith" = Ok (c, op, val) ->
       contains "," c = false /\ forall s, val = PStr s -> contains "," s = false.
Proof.
  split; [reflexivity|].
  apply (conditions_hold_no_comma Milestone4 "Name=='Smith, John'" "Name=='Smith").
  vm_compute. left. reflexivity.
Defined.

(** Three pages: five times [next] from the first page stops on the third. *)
Lemma next_walks_witness :
  M4.i (presses M4.cmd_next 5 (M4.Pager_init people 1))
  = Z.min (M4.i (M4.Pager_init people 1) + Z.of_nat 5) (M4.pages (M4.Pager_init people 1))
  /\ M4.i (presses M4.cmd_prev 5 (M4.Pager_init people 1))
     = Z.max (M4.i (M4.Pager_init people 1) - Z.of_nat 5) 1
  /\ M4.df (presses M4.cmd_next 5 (M4.Pager_init people 1)) = M4.df (M4.Pager_init people 1)
  /\ M4.size (presses M4.cmd_next 5 (M4.Pager_init people 1))
     = M4.size (M4.Pager_init people 1)
  /\ M4.df (presses M4.cmd_prev 5 (M4.Pager_init people 1)) = M4.df (M4.Pager_init people 1)
  /\ M4.size (presses M4.cmd_prev 5 (M4.Pager_init people 1))
     = M4.size (M4.Pager_init people 1).
Proof.
  apply (next_walks (M4.Pager_init people 1) 5). vm_compute. split; discriminate.
Defined.

(** The scenarios of the specification, run on the model. *)

Example filter_then_sort :
  M4.run_filter people "Age>=28,Dept==IT"
  = Ok {| schema := schema people;
          rows := [[PInt 30; PStr "IT"]; [PInt 40; PStr "IT"]] |}
  /\ M4.run_sort {| schema := schema people;
                    rows := [[PInt 30; PStr "IT"]; [PInt 40; PStr "IT"]] |} "Age,desc"
     = Ok {| schema := schema people;
             rows := [[PInt 40; PStr "IT"]; [PInt 30; PStr "IT"]] |}.
Proof. split; vm_compute; reflexivity. Qed.

Example filter_ignores_case_of_column :
  M4.run_filter people "age>25" = M4.run_filter people "Age>25"
  /\ M3.run_filter people "age>25" = M3.run_filter people "Age>25".
Proof. split; vm_compute; reflexivity. Qed.

Example filter_contains_ali :
  M4.run_filter names "Name~ali"
  = Ok {| schema := schema names; rows := [[PStr "Ali"]; [PStr "Khalid"]] |}
  /\ M3.run_filter names "Name~ali"
     = Ok {| schema := schema names; rows := [[PStr "Ali"]; [PStr "Khalid"]] |}.
Proof. split; vm_compute; reflexivity. Qed.

Example filter_age_above_text :
  M4.run_filter people "Age>abc" = Ok {| schema := schema people; rows := [] |}
  /\ M3.run_filter people "Age>abc" = Ok {| schema := schema people; rows := [] |}.
Proof. split; vm_compute; reflexivity. Qed.

Example sort_keeps_ties :
  M4.run_sort ties "A" = Ok ties /\ M3.run_sort ties "A" = Ok ties
  /\ M4.run_sort ties "a , DESC" = Ok ties.
Proof. repeat split; vm_compute; reflexivity. Qed.

Example page_is_clamped :
  let p := fst (M4.cmd_pagesize (M4.Pager_init people 5) "2") in
  let p := fst (M4.cmd_page p "5") in
  M4.i p = 2 /\ M4.pages p = 2 /\ rows (M4.view p) = [[PInt 40; PStr "IT"]].
Proof. repeat split; vm_compute; reflexivity. Qed.

Example next_and_prev_at_the_ends :
  let p := M4.Pager_init people 2 in
  fst (M4.cmd_prev p) = p
  /\ fst (M4.cmd_next (fst (M4.cmd_next p))) = fst (M4.cmd_next p).
Proof. split; reflexivity. Qed.

(** A column whose name holds an operator cannot be named in a condition:
    the token is cut inside the name. *)
Example operator_in_a_column_name :
  spellable "a>b" = false
  /\ M4.run_filter ratios "a>b~" = Raise (KeyError (UnknownColumn "a" ["a>b"])).
Proof. split; vm_compute; reflexivity. Qed.

Example python_strings :
  strip "  Age >= 3 " = "Age >= 3"
  /\ tokens " Age>=28 , ,Dept==IT," = ["Age>=28"; "Dept==IT"]
  /\ split_once ">=" "Age>=3>=4" = Some ("Age", "3>=4")
  /\ py_int " -1_000 " = Some (-1000) /\ py_int "1__0" = None /\ py_int "" = None
  /\ str_of_int 0 = "0" /\ str_of_int (-25) = "-25"
  /\ lower "AgE Z~" = "age z~"
  /\ isdigit "12" = true /\ isdigit "-3" = false /\ isdigit "" = false.
Proof. repeat split; reflexivity. Qed.

(** [int] skips the blanks of [Py_ISSPACE] and the spaces beyond ASCII, not
    the separators 28 to 31 that [str.strip] removes, and reads at most
    4300 digits. *)
Example int_of_text :
  py_int (String (ascii_of_nat 28) "5") = None
  /\ strip (String (ascii_of_nat 28) "5") = "5"
  /\ py_int (String (ascii_of_nat 160) "5") = Some 5%Z
  /\ py_int (String (ascii_of_nat 12) " 5 ") = Some 5%Z
  /\ py_int (string_of_list_ascii (List.repeat "1"%char 4301)) = None
  /\ py_int (string_of_list_ascii (List.repeat "0"%char 4300)) = Some 0%Z
  /\ py_int ("-" ++ string_of_list_ascii (List.repeat "0"%char 4301)) = None.
Proof. repeat split; vm_compute; reflexivity. Qed.

Example coerced_values :
  M4.to_val " 28 " = PInt 28
  /\ M4.to_val "2.50" = PFloat (FFin (Qmake 250 100))
  /\ M4.to_val "NULL" = PNone
  /\ M4.to_val "True" = PBool true
  /\ M4.to_val "'28'" = PStr "28"
  /\ M4.to_val "1e5" = PStr "1e5"
  /\ M4.to_val "abc" = PStr "abc".
Proof. repeat split; vm_compute; reflexivity. Qed.

Example session_of_milestone_4 :
  snd (Loop4.main people
         ["show"; "Filter  age>25 "; "pagesize 1"; "next"; "next"; "sort Age,desc";
          "export_page out/page.JSON"; "filter Nope==1"; "frobnicate"; "reset"; "exit";
          "show"])
  = [Loaded;
     Frame people; Text (M4.Line ""); Text (M4.Line "Page 1/1 | Rows: 3");
     Text (M4.Line "Filtered rows: 2 (Page 1/1)");
     Text (M4.Line "Page size: 1");
     Text (M4.Line "Page 2/2");
     Text (M4.Line "No more pages."); Text (M4.Line "Page 2/2");
     Text (M4.Line "Sorted.");
     Saved true "out/page.JSON"
       {| schema := schema people; rows := [[PInt 40; PStr "IT"]] |};
     Text (M4.Warning (KeyError (UnknownColumn "Nope" ["Age"; "Dept"])));
     Unknown; ResetDone; Bye].
Proof. vm_compute. reflexivity. Qed.

Example session_of_milestone_3 :
  Loop3.main people
    ["show 2"; "filter Dept==IT"; "reset"; "filter age>25"; "sort age,desc"; "show x"]
  = ({| Loop3.original := people;
        Loop3.current := {| schema := schema people;
                            rows := [[PInt 40; PStr "IT"]; [PInt 30; PStr "IT"]] |} |},
     [Loaded;
      Frame {| schema := schema people;
               rows := [[PInt 20; PStr "HR"]; [PInt 30; PStr "IT"]] |};
      Text (M4.Line ""); Text (M4.Line "Total rows: 3");
      Text (M4.Line "Filtered rows: 0");
      ResetDone;
      Text (M4.Line "Filtered rows: 2");
      Text (M4.Line "Sorted.");
      Text (M4.Warning (ValueError (InvalidLiteral "x")));
      Text (M4.Line ""); Bye]).
Proof. vm_compute. reflexivity. Qed.

Example suffixes :
  ReferencePath.suffix_of "out/page.JSON" = ".JSON"
  /\ ReferencePath.suffix_of "data.v2/table" = ""
  /\ ReferencePath.suffix_of ".json" = ""
  /\ ReferencePath.suffix_of "a.tar.gz" = ".gz".
Proof. repeat split; reflexivity. Qed.

End Concrete.
